(** * napari-plugin-engine: the plugin registry of [manager.py]

    A shallow embedding of [PluginManager] and [_HookRelay]
    (src/napari_plugin_engine/manager.py) and the properties of the
    registry that the specification states about them.

    Layout:
    - [Py]        the Python values the registry receives: namespaces,
                  marked callables, plain mappings;
    - [Dict]      insertion-ordered dictionaries with string keys;
    - [Hooks]     hook specifications, implementations and callers
                  (hooks.py and implementation.py, which manager.py
                  imports);
    - [Manager]   the registry, operation by operation: a state, and
                  computations on it whose effects survive an exception;
    - the vocabulary of the statements and the examples;
    - lemmas on each operation, first with no discovery pending, then in
      general;
    - the properties, one block each. *)

From stdpp Require Import base option list strings gmap pretty.


(** ** Python values *)

Module Py.

(** Object identity, [id(obj)]: what [==] and hashing fall back on for
    modules, classes and plain instances. *)
Definition ObjId := nat.

Inductive Priority := TryFirst | Neutral | TryLast.

(** Modelled from the spec: the implementation options of the marker
    protocol (markers.py is not among the sources), stored on a
    callable under [<project>_impl].  [io_specname] is the [specname]
    override. *)
Record ImplOpts := mkImplOpts {
  io_hookwrapper : bool;
  io_optionalhook : bool;
  io_priority : Priority;
  io_specname : option string
}.

(** Modelled from the spec: the specification options of the marker
    protocol, stored under [<project>_spec]. *)
Record SpecOpts := mkSpecOpts {
  so_historic : bool;
  so_firstresult : bool;
  so_warn_on_impl : option string
}.

(** A routine ([inspect.isroutine]): its [__name__], the parameter names
    introspection finds, and the two markers of the host project, when
    present.  [fn_impl = None] stands for a missing or empty
    [<project>_impl] attribute, [fn_spec = None] for a missing
    [<project>_spec]. *)
Record Routine := mkRoutine {
  fn_name : string;
  fn_argnames : list string;
  fn_impl : option ImplOpts;
  fn_spec : option SpecOpts
}.

Inductive Attr :=
| NotRoutine
| ARoutine (r : Routine).

Inductive Kind := KModule | KClass | KInstance.

(** A namespace object.  [obj_dir] lists [(name, getattr(obj, name))] in
    the order of [dir(obj)]; [obj_name] is its [__name__], if any. *)
Record Obj := mkObj {
  obj_id : ObjId;
  obj_kind : Kind;
  obj_name : option string;
  obj_dir : list (string * Attr)
}.

(** A value of a plain mapping: [inspect.isfunction] holds of
    [DFunction] only; builtins, bound methods, partials, callable
    instances and everything else are [DNotFunction]. *)
Inductive DictVal :=
| DFunction (r : Routine)
| DNotFunction.

(** What [register] may be handed.  For a mapping, [cls] is the identity
    of the class object that [type(name, (), obj)] allocates for it, and
    the keys are given by their [str()]. *)
Inductive Val :=
| PStr (s : string)
| PDict (cls : ObjId) (items : list (string * DictVal))
| PObj (o : Obj).

(** [x or y] on strings that may be [None]. *)
Definition str_or (x : option string) (y : string) : string :=
  match x with
  | Some s => if decide (s = "") then y else s
  | None => y
  end.

Definition truthy (x : option string) : bool :=
  match x with
  | Some s => if decide (s = "") then false else true
  | None => false
  end.

(** Text is held as its UTF-8 bytes; [is_ascii] holds of the text that
    has no character beyond ASCII. *)
Fixpoint is_ascii (s : string) : bool :=
  match s with
  | EmptyString => true
  | String c r => (Ascii.nat_of_ascii c <? 128) && is_ascii r
  end.

(** What the registry takes from the interpreter that runs it, and what
    differs between interpreters and their versions:
    - [unicode_isidentifier]: [str.isidentifier] on text that is not
      ASCII, which follows the Unicode tables of the interpreter;
    - [object_attributes]: the attribute names of an instance of a class
      written with an ordinary [class] statement that neither the body
      of the class nor the instance's [__dict__] provides: the names in
      [dir(object)], and [__dict__], [__module__], [__doc__] and
      [__weakref__].  Reading one of them gives a value that is no hook
      caller, and none can be given a hook caller: the value is not
      [None], or, for [__weakref__], the attribute cannot be set;
    - [type_special]: for a name that starts with two underscores, what
      [getattr(cls, key)] gives on the class [cls = type(name, (),
      obj)] when [obj] binds [key] to a function: [None] is the
      [TypeError] with which [type] refuses to make the class (for
      [__slots__], [__qualname__] and [__classcell__]); [Some
      NotRoutine] is a value that is not a routine, which an attribute
      of [type] itself puts before the entry of the class (for
      [__class__], [__dict__], [__name__], ...); and [Some (ARoutine
      r)] is the function, or the class method that [type] makes of it
      (for [__init_subclass__] and [__class_getitem__]). *)
Record Interpreter := mkInterpreter {
  unicode_isidentifier : string -> bool;
  object_attributes : list string;
  type_special : string -> Routine -> option Attr
}.

(** ASCII identifiers: a letter or underscore followed by letters,
    digits and underscores. *)
Definition is_id_start (c : Ascii.ascii) : bool :=
  let n := Ascii.nat_of_ascii c in
  ((65 <=? n) && (n <=? 90)) || ((97 <=? n) && (n <=? 122)) || (n =? 95).

Definition is_id_continue (c : Ascii.ascii) : bool :=
  let n := Ascii.nat_of_ascii c in
  is_id_start c || ((48 <=? n) && (n <=? 57)).

Fixpoint all_id_continue (s : string) : bool :=
  match s with
  | EmptyString => true
  | String c r => is_id_continue c && all_id_continue r
  end.

Definition ascii_identifier (s : string) : bool :=
  match s with
  | EmptyString => false
  | String c r => is_id_start c && all_id_continue r
  end.

(** [str.isidentifier]. *)
Definition isidentifier (py : Interpreter) (s : string) : bool :=
  if is_ascii s then ascii_identifier s else unicode_isidentifier py s.

(** [str.startswith]. *)
Fixpoint startswith (s p : string) : bool :=
  match p, s with
  | EmptyString, _ => true
  | String a p', String b s' => if decide (a = b) then startswith s' p' else false
  | String _ _, EmptyString => false
  end.

(** [sorted] on items keyed by strings (code-point order), as [dir]
    orders attribute names. *)
Fixpoint insert_sorted {A} (k : string) (v : A) (l : list (string * A))
  : list (string * A) :=
  match l with
  | [] => [(k, v)]
  | (k', v') :: r =>
      if String.leb k k' then (k, v) :: l else (k', v') :: insert_sorted k v r
  end.

Definition sort_items {A} (l : list (string * A)) : list (string * A) :=
  foldr (fun kv acc => insert_sorted kv.1 kv.2 acc) [] l.

(** [getattr(cls, key)] on the class [type(name, (), obj)], for an entry
    [key: val] of [obj] whose value is a function: the function itself,
    unless the name is one of the special names of the interpreter. *)
Definition class_attr (py : Interpreter) (key : string) (val : Routine)
  : option Attr :=
  if startswith key "__" then type_special py key val else Some (ARoutine val).

(** [dir] and [getattr] on [type(name, (), obj)]: the keys in sorted
    order, each with what reading it gives; [None] when [type] raises.
    (The attributes that the class inherits from [object] carry no
    marker and are left out.) *)
Fixpoint class_dir (py : Interpreter) (obj : list (string * Routine))
  : option (list (string * Attr)) :=
  match obj with
  | [] => Some []
  | (key, val) :: rest =>
      match class_attr py key val, class_dir py rest with
      | Some a, Some d => Some (insert_sorted key a d)
      | _, _ => None
      end
  end.

(** The interpreter of the examples: CPython 3.11 on ASCII text.  (It
    takes no text beyond ASCII for an identifier, where CPython follows
    the Unicode tables; the examples are ASCII throughout.)  A class
    method that [type] makes of a function is bound to the class when it
    is read, so that its first parameter is not among those that
    introspection finds. *)
Definition python_ascii : Interpreter :=
  {| unicode_isidentifier := fun _ => false;
     object_attributes :=
       [ "__class__"; "__delattr__"; "__dict__"; "__dir__"; "__doc__"; "__eq__";
         "__format__"; "__ge__"; "__getattribute__"; "__getstate__"; "__gt__";
         "__hash__"; "__init__"; "__init_subclass__"; "__le__"; "__lt__";
         "__module__"; "__ne__"; "__new__"; "__reduce__"; "__reduce_ex__";
         "__repr__"; "__setattr__"; "__sizeof__"; "__str__";
         "__subclasshook__"; "__weakref__" ];
     type_special := fun key val =>
       if bool_decide (key ∈ ["__slots__"; "__qualname__"; "__classcell__"])
       then None
       else if bool_decide (key ∈ [ "__class__"; "__dict__"; "__name__"; "__bases__";
                                    "__base__"; "__mro__"; "__basicsize__";
                                    "__itemsize__"; "__flags__"; "__dictoffset__";
                                    "__weakrefoffset__"; "__text_signature__" ])
       then Some NotRoutine
       else if bool_decide (key ∈ ["__init_subclass__"; "__class_getitem__"])
       then Some (ARoutine {| fn_name := fn_name val;
                              fn_argnames := tail (fn_argnames val);
                              fn_impl := fn_impl val;
                              fn_spec := fn_spec val |})
       else Some (ARoutine val) |}.

End Py.

(** ** Insertion-ordered dictionaries *)

Module Dict.
Section Dict.
Context {V : Type}.

Fixpoint get (k : string) (d : list (string * V)) : option V :=
  match d with
  | [] => None
  | (k', v) :: r => if decide (k = k') then Some v else get k r
  end.

(** [d[k] = v]: an existing key keeps its position. *)
Fixpoint set (k : string) (v : V) (d : list (string * V)) : list (string * V) :=
  match d with
  | [] => [(k, v)]
  | (k', v') :: r =>
      if decide (k = k') then (k, v) :: r else (k', v') :: set k v r
  end.

(** [del d[k]] for a key that is present; nothing to delete otherwise. *)
Fixpoint del (k : string) (d : list (string * V)) : list (string * V) :=
  match d with
  | [] => []
  | (k', v') :: r => if decide (k = k') then r else (k', v') :: del k r
  end.

Definition mem (k : string) (d : list (string * V)) : bool :=
  bool_decide (is_Some (get k d)).
End Dict.
End Dict.

(** ** Hook specifications, implementations and callers *)

Module Hooks.
Import Py.

(** Modelled from the spec: the Specification record of hooks.py, which
    is not among the sources: the ordered parameter names of the marked
    routine and the marker's flags. *)
Record HookSpecification := mkSpec {
  spec_argnames : list string;
  spec_opts : SpecOpts
}.

(** Modelled from the spec: the Implementation record of
    implementation.py, which is not among the sources: owning plugin
    (by identity), target hook name, callable, its parameter names and
    the ordering flags.  [impl_plugin_name] is assigned by [register]. *)
Record HookImplementation := mkImpl {
  impl_function : Routine;
  impl_plugin : ObjId;
  impl_plugin_name : option string;
  impl_specname : string;
  impl_argnames : list string;
  impl_hookwrapper : bool;
  impl_optionalhook : bool;
  impl_priority : Priority
}.

(** Modelled from the spec: the constructor [HookImplementation(method,
    namespace, **opts)]; the target hook is the [specname] override, or
    else the callable's own name. *)
Definition new_hookimpl (method : Routine) (namespace : Obj) (opts : ImplOpts)
  : HookImplementation :=
  {| impl_function := method;
     impl_plugin := obj_id namespace;
     impl_plugin_name := None;
     impl_specname := str_or (io_specname opts) (fn_name method);
     impl_argnames := fn_argnames method;
     impl_hookwrapper := io_hookwrapper opts;
     impl_optionalhook := io_optionalhook opts;
     impl_priority := io_priority opts |}.

Definition with_plugin_name (n : string) (i : HookImplementation)
  : HookImplementation :=
  {| impl_function := impl_function i;
     impl_plugin := impl_plugin i;
     impl_plugin_name := Some n;
     impl_specname := impl_specname i;
     impl_argnames := impl_argnames i;
     impl_hookwrapper := impl_hookwrapper i;
     impl_optionalhook := impl_optionalhook i;
     impl_priority := impl_priority i |}.

(** Modelled from the spec: the Hook Caller of hooks.py, which is not
    among the sources: hook name, optional bound Specification and the
    ordered list of Implementations.  Dispatch ([call_historic] and the
    multicall loop) is outside this development, so the replay log of a
    historic caller, which only [call_historic] extends, is not
    represented: it is empty throughout. *)
Record HookCaller := mkCaller {
  hc_name : string;
  hc_spec : option HookSpecification;
  hc_impls : list HookImplementation
}.

(** Modelled from the spec: whether a Specification is bound. *)
Definition has_spec (c : HookCaller) : bool :=
  match hc_spec c with Some _ => true | None => false end.

(** Modelled from the spec: a caller is historic when its bound
    Specification carries the historic flag. *)
Definition is_historic (c : HookCaller) : bool :=
  match hc_spec c with
  | Some sp => so_historic (spec_opts sp)
  | None => false
  end.

(** Modelled from the spec: [HookSpecification(namespace, name, opts)]
    takes its parameter names from the marked routine. *)
Definition new_spec (method : Routine) (opts : SpecOpts) : HookSpecification :=
  {| spec_argnames := fn_argnames method; spec_opts := opts |}.

(** Modelled from the spec: late binding, of a caller that has no
    Specification yet.  A Specification is immutable once bound, so a
    caller that has one keeps it; the specification does not say how
    the second binding ends, and here it fails ([None], an assertion
    in [add_hookspecs] below).  The properties of late binding are
    stated of callers that are not bound yet. *)
Definition set_specification (method : Routine) (opts : SpecOpts) (c : HookCaller)
  : option HookCaller :=
  match hc_spec c with
  | Some _ => None
  | None => Some {| hc_name := hc_name c;
                    hc_spec := Some (new_spec method opts);
                    hc_impls := hc_impls c |}
  end.

(** Modelled from the spec: the constructors [HookCaller(name,
    hookexec)] and [HookCaller(name, hookexec, namespace, spec_opts)],
    a caller without implementations, unbound or bound. *)
Definition new_caller (name : string) : HookCaller :=
  {| hc_name := name; hc_spec := None; hc_impls := [] |}.

Definition new_caller_with_spec (name : string) (method : Routine) (opts : SpecOpts)
  : HookCaller :=
  {| hc_name := name; hc_spec := Some (new_spec method opts); hc_impls := [] |}.

(** Modelled from the spec: the ordered list, wrappers included. *)
Definition get_hookimpls (c : HookCaller) : list HookImplementation :=
  hc_impls c.

Definition is_tryfirst (i : HookImplementation) : bool :=
  match impl_priority i with TryFirst => true | _ => false end.

Definition is_trylast (i : HookImplementation) : bool :=
  match impl_priority i with TryLast => true | _ => false end.

Fixpoint insert_before (stop : HookImplementation -> bool)
    (x : HookImplementation) (l : list HookImplementation)
  : list HookImplementation :=
  match l with
  | [] => [x]
  | y :: r => if stop y then x :: l else y :: insert_before stop x r
  end.

(** Modelled from the spec: the ordering invariant.  The list reads
    priority-first group, neutral group, priority-last group, each in
    reverse registration order, wrappers in the same ordering space; a
    new Implementation goes to the head of its own group. *)
Definition _add_hookimpl (x : HookImplementation) (c : HookCaller) : HookCaller :=
  {| hc_name := hc_name c;
     hc_spec := hc_spec c;
     hc_impls :=
       match impl_priority x with
       | TryFirst => x :: hc_impls c
       | Neutral => insert_before (fun y => negb (is_tryfirst y)) x (hc_impls c)
       | TryLast => insert_before is_trylast x (hc_impls c)
       end |}.

(** Modelled from the spec: unregistration removes exactly the plugin's
    own Implementations and keeps the order of the others. *)
Definition _remove_plugin (p : ObjId) (c : HookCaller) : HookCaller :=
  {| hc_name := hc_name c;
     hc_spec := hc_spec c;
     hc_impls := filter (fun i => impl_plugin i ≠ p) (hc_impls c) |}.

(** Modelled from the spec: replay of the stored historic calls through
    one new Implementation.  With no logged call there is nothing to
    replay, and the caller is left as it is. *)
Definition _maybe_apply_history (x : HookImplementation) (c : HookCaller)
  : HookCaller := c.

End Hooks.

(** ** The registry *)

Module Manager.
Import Py Hooks.

(** *** Exceptions *)

Inductive ValueErr :=
| NameAlreadyRegistered (plugin_name : string)
| ModuleAlreadyRegistered (namespace : ObjId)
| InvalidIdentifiers (bad_keys : list string)
| NoHooksFound.

Inductive Why :=
| HistoricHookwrapper
| NotInSpec (notinspec : gset string)
| UnknownHook.

Inductive Exn :=
| TypeError
| ValueError (v : ValueErr)
| AssertionError
| AttributeError
| PluginImportError (plugin_name : option string)
| PluginRegistrationError (plugin_name : option string)
| PluginValidationError (hookimpl : HookImplementation) (hook : string) (why : Why).

(** [isinstance(e, PluginError)]. *)
Definition is_PluginError (e : Exn) : bool :=
  match e with
  | PluginImportError _ | PluginRegistrationError _
  | PluginValidationError _ _ _ => true
  | _ => false
  end.

Definition is_validation_failure (e : Exn) : bool :=
  match e with PluginValidationError _ _ _ => true | _ => false end.

(** *** State *)

(** The manager and its hook relay.  [hook_dict] is the relay's
    [__dict__] without its two private attributes, which are
    [hook_needs_discovery] and the back reference to the manager.  A
    hook caller is shared between the relay and
    [_plugin2hookcallers]: the latter holds it by name, the relay holds
    the object.  [discover_calls] is a ghost counter of the calls to
    [discover]; no operation reads it. *)
Record PluginManager := mkPM {
  discover_entry_point : string;
  discover_prefix : string;
  plugins : list (string * Obj);
  _plugin2hookcallers : gmap ObjId (list string);
  _blocked : gset string;
  hook_needs_discovery : bool;
  hook_dict : list (string * HookCaller);
  discover_calls : nat
}.

(** [PluginManager(project_name, discover_entry_point=.., discover_prefix=..)]. *)
Definition init (entry_point prefix : string) : PluginManager :=
  {| discover_entry_point := entry_point;
     discover_prefix := prefix;
     plugins := [];
     _plugin2hookcallers := ∅;
     _blocked := ∅;
     hook_needs_discovery := true;
     hook_dict := [];
     discover_calls := 0 |}.

Definition with_plugins (f : list (string * Obj) -> list (string * Obj))
    (s : PluginManager) : PluginManager :=
  mkPM (discover_entry_point s) (discover_prefix s) (f (plugins s))
       (_plugin2hookcallers s) (_blocked s) (hook_needs_discovery s)
       (hook_dict s) (discover_calls s).

Definition with_plugin2hookcallers
    (f : gmap ObjId (list string) -> gmap ObjId (list string))
    (s : PluginManager) : PluginManager :=
  mkPM (discover_entry_point s) (discover_prefix s) (plugins s)
       (f (_plugin2hookcallers s)) (_blocked s) (hook_needs_discovery s)
       (hook_dict s) (discover_calls s).

Definition with_blocked (f : gset string -> gset string)
    (s : PluginManager) : PluginManager :=
  mkPM (discover_entry_point s) (discover_prefix s) (plugins s)
       (_plugin2hookcallers s) (f (_blocked s)) (hook_needs_discovery s)
       (hook_dict s) (discover_calls s).

Definition with_needs_discovery (b : bool) (s : PluginManager) : PluginManager :=
  mkPM (discover_entry_point s) (discover_prefix s) (plugins s)
       (_plugin2hookcallers s) (_blocked s) b
       (hook_dict s) (discover_calls s).

Definition with_hook_dict
    (f : list (string * HookCaller) -> list (string * HookCaller))
    (s : PluginManager) : PluginManager :=
  mkPM (discover_entry_point s) (discover_prefix s) (plugins s)
       (_plugin2hookcallers s) (_blocked s) (hook_needs_discovery s)
       (f (hook_dict s)) (discover_calls s).

Definition count_discover (s : PluginManager) : PluginManager :=
  mkPM (discover_entry_point s) (discover_prefix s) (plugins s)
       (_plugin2hookcallers s) (_blocked s) (hook_needs_discovery s)
       (hook_dict s) (S (discover_calls s)).

(** *** Computations: state that survives an exception *)

Inductive Outcome (A : Type) :=
| Return (a : A)
| Raise (e : Exn)
| OutOfFuel.
Arguments Return {A} a.
Arguments Raise {A} e.
Arguments OutOfFuel {A}.

Definition M (A : Type) : Type := PluginManager -> Outcome A * PluginManager.

Definition ret {A} (a : A) : M A := fun s => (Return a, s).
Definition raise {A} (e : Exn) : M A := fun s => (Raise e, s).
Definition bind {A B} (m : M A) (k : A -> M B) : M B :=
  fun s =>
    match m s with
    | (Return a, s') => k a s'
    | (Raise e, s') => (Raise e, s')
    | (OutOfFuel, s') => (OutOfFuel, s')
    end.
Definition gets {A} (f : PluginManager -> A) : M A := fun s => (Return (f s), s).
Definition modify (f : PluginManager -> PluginManager) : M unit :=
  fun s => (Return tt, f s).

(** [try: m  except Exception as e: h e]. *)
Definition try_except {A} (m : M A) (h : Exn -> M A) : M A :=
  fun s =>
    match m s with
    | (Raise e, s') => h e s'
    | r => r
    end.

Declare Scope m_scope.
Delimit Scope m_scope with M.
Notation "x <- m ;; k" := (bind m (fun x => k))
  (at level 100, m at next level, right associativity) : m_scope.
Notation "m ;; k" := (bind m (fun _ => k))
  (at level 100, right associativity) : m_scope.
Local Open Scope m_scope.

(** *** Queries *)

Definition is_registered_name (name : string) (s : PluginManager) : bool :=
  Dict.mem name (plugins s).

Definition is_registered_obj (o : ObjId) (s : PluginManager) : bool :=
  bool_decide (is_Some (_plugin2hookcallers s !! o)).

(** [is_registered(obj)]: by name for a string, by object otherwise; a
    mapping is not hashable. *)
Definition is_registered (obj : Val) : M bool :=
  match obj with
  | PStr name => gets (is_registered_name name)
  | PObj o => gets (is_registered_obj (obj_id o))
  | PDict _ _ => raise TypeError
  end.

Definition is_blocked (plugin_name : string) (s : PluginManager) : bool :=
  bool_decide (plugin_name ∈ _blocked s).

Fixpoint get_name_in (plugin : ObjId) (d : list (string * Obj)) : option string :=
  match d with
  | [] => None
  | (name, val) :: r =>
      if decide (plugin = obj_id val) then Some name else get_name_in plugin r
  end.

Definition get_name (plugin : ObjId) (s : PluginManager) : option string :=
  get_name_in plugin (plugins s).

Definition get_canonical_name (namespace : Obj) : string :=
  str_or (obj_name namespace) (pretty (obj_id namespace)).

(** [_ensure_plugin]: [None] stands for the [KeyError]. *)
Definition _ensure_plugin (name_or_object : Val) (s : PluginManager) : option Obj :=
  let plugin_name :=
    match name_or_object with
    | PStr name => Some name
    | PObj o => get_name (obj_id o) s
    | PDict _ _ => None
    end in
  name ← plugin_name; Dict.get name (plugins s).

(** *** Unregistration and blocking *)

Definition alter_caller (f : HookCaller -> HookCaller) (name : string)
    (s : PluginManager) : PluginManager :=
  match Dict.get name (hook_dict s) with
  | Some c => with_hook_dict (Dict.set name (f c)) s
  | None => s
  end.

(** [unregister]: the [KeyError] of an unknown plugin is caught and
    turned into a warning and the result [None]. *)
Definition unregister (name_or_object : Val) (s : PluginManager)
  : option Obj * PluginManager :=
  match _ensure_plugin name_or_object s with
  | None => (None, s)
  | Some plugin =>
      let s1 :=
        match get_name (obj_id plugin) s with
        | Some name => with_plugins (Dict.del name) s
        | None => s
        end in
      let hookcallers := default [] (_plugin2hookcallers s1 !! obj_id plugin) in
      let s2 := with_plugin2hookcallers (delete (obj_id plugin)) s1 in
      (Some plugin,
       foldl (fun st name => alter_caller (_remove_plugin (obj_id plugin)) name st)
             s2 hookcallers)
  end.

Definition set_blocked (plugin_name : string) (blocked : bool)
    (s : PluginManager) : PluginManager :=
  if blocked then
    let s1 := with_blocked (fun b => {[plugin_name]} ∪ b) s in
    if is_registered_name plugin_name s1
    then (unregister (PStr plugin_name) s1).2
    else s1
  else
    if is_blocked plugin_name s
    then with_blocked (fun b => b ∖ {[plugin_name]}) s
    else s.

(** *** Validation *)

Definition notinspec (hookimpl : HookImplementation) (sp : HookSpecification)
  : gset string :=
  list_to_set (impl_argnames hookimpl) ∖ list_to_set (spec_argnames sp).

(** [_verify_hook]; the [warn_on_impl] warning leaves no trace in the
    registry. *)
Definition _verify_hook (hook_caller : HookCaller) (hookimpl : HookImplementation)
  : M unit :=
  if is_historic hook_caller && impl_hookwrapper hookimpl then
    raise (PluginValidationError hookimpl (hc_name hook_caller) HistoricHookwrapper)
  else
    match hc_spec hook_caller with
    | None => ret tt
    | Some sp =>
        if decide (notinspec hookimpl sp = ∅) then ret tt
        else raise (PluginValidationError hookimpl (hc_name hook_caller)
                      (NotInSpec (notinspec hookimpl sp)))
    end.

Fixpoint verify_all (hook_caller : HookCaller) (l : list HookImplementation)
  : M unit :=
  match l with
  | [] => ret tt
  | hookfunction :: r =>
      _verify_hook hook_caller hookfunction ;; verify_all hook_caller r
  end.

(** *** The discovery collaborators *)

(** What loading an entry point or importing a module yields: an
    exception ([None]) or the loaded value. *)
Record Target := mkTarget {
  tgt_name : string;
  tgt_load : option Val
}.

(** An entry point declared by an installed distribution. *)
Record EntryPoint := mkEP {
  ep_group : string;
  ep_name : string;
  ep_target : Target
}.

(** A module that [pkgutil.iter_modules] finds; [mc_dist] is the name
    of the distribution that provides it, when there is one. *)
Record ModuleInfo := mkModule {
  mc_target : Target;
  mc_dist : option string
}.

(** The interpreter, the process environment and the installed
    packages, as the loaders read them. *)
Record Environment := mkEnv {
  interpreter : Interpreter;
  DISABLE_ALL_PLUGINS : bool;
  DISABLE_ENTRYPOINT_PLUGINS : bool;
  DISABLE_PREFIX_PLUGINS : bool;
  distributions : list (list EntryPoint);
  iter_modules : list ModuleInfo
}.

Definition empty_env : Environment := mkEnv python_ascii false false false [] [].

(** What an operation of the manager runs in: the interpreter, and the
    discovery that its hook relay starts. *)
Record Runtime := mkRuntime {
  rt_python : Interpreter;
  rt_discover : M (nat * list Exn)
}.

(** *** The attributes of the hook relay *)

(** What an attribute of the relay is: a hook caller, or something
    else (the flag, the manager, a method of the relay, an attribute
    that every object has). *)
Inductive RelayValue :=
| Caller (c : HookCaller)
| NotACaller.

(** The two attributes that [_HookRelay.__init__] sets, which
    [__getattribute__] reads without a discovery. *)
Definition relay_private : list string := ["_needs_discovery"; "_manager"].

(** The attributes of a relay that its class provides. *)
Definition relay_attributes (py : Interpreter) : list string :=
  ["__init__"; "__getattribute__"; "items"; "values"] ++ object_attributes py.

(** A name that the relay answers to without holding a hook caller
    under it. *)
Definition is_relay_attribute (py : Interpreter) (name : string) : bool :=
  bool_decide (name ∈ relay_private) || bool_decide (name ∈ relay_attributes py).

(** *** Registration, declaration, audit and loading

    The hook relay runs [self._manager.discover()] from its
    [__getattribute__], and discovery registers plugins, which reads the
    relay again.  The operations are first written against the
    discovery that the relay would start, [rt_discover discover0]:
    these are the definitions named [_body], and the helpers of
    [register] and of the loaders.  [discover] below closes the loop,
    and the public operations follow it. *)

Section Relay.
Variable env : Environment.
Variable discover0 : Runtime.

(** [_HookRelay.__getattribute__], up to the final lookup. *)
Definition relay_access (name : string) : M unit :=
  fun s =>
    if bool_decide (name ∈ relay_private) then (Return tt, s)
    else if hook_needs_discovery s
    then (rt_discover discover0 ;; ret tt) s
    else (Return tt, s).

(** [object.__getattribute__(self, name)] on the relay, [None] for the
    [AttributeError]: the two private attributes; then the hook
    callers, which are in the relay's [__dict__]; then the attributes
    of the class.  (A hook caller is written only under a name whose
    lookup gave nothing, see [register_impl] and [add_hookspec], so
    that a manager never holds one under the name of an attribute of
    the class.) *)
Definition relay_lookup (name : string) (s : PluginManager) : option RelayValue :=
  if bool_decide (name ∈ relay_private) then Some NotACaller
  else
    match Dict.get name (hook_dict s) with
    | Some c => Some (Caller c)
    | None =>
        if bool_decide (name ∈ relay_attributes (rt_python discover0))
        then Some NotACaller else None
    end.

(** [getattr(self.hook, name, None)]. *)
Definition relay_getattr (name : string) : M (option RelayValue) :=
  relay_access name ;; gets (relay_lookup name).

(** [setattr(self.hook, name, caller)], and the write-back of a caller
    that was updated in place. *)
Definition relay_setattr (name : string) (c : HookCaller) : M unit :=
  modify (with_hook_dict (Dict.set name c)).

Definition iter_implementations (namespace : Obj) : list HookImplementation :=
  omap (fun na : string * Attr =>
          match na.2 with
          | ARoutine method =>
              match fn_impl method with
              | Some hookimpl_opts => Some (new_hookimpl method namespace hookimpl_opts)
              | None => None
              end
          | NotRoutine => None
          end)
       (obj_dir namespace).

(** One turn of the loop of [register].  An attribute of the relay that
    is not a hook caller has no [has_spec]; the one among them that is
    [None], [__weakref__], cannot be set.  Both end in an
    [AttributeError]. *)
Definition register_impl (plugin_name : string) (hookimpl0 : HookImplementation)
  : M string :=
  let hookimpl := with_plugin_name plugin_name hookimpl0 in
  let specname := impl_specname hookimpl in
  hook_caller <- relay_getattr specname ;;
  c <- match hook_caller with
       | None =>
           relay_setattr specname (new_caller specname) ;;
           ret (new_caller specname)
       | Some NotACaller => raise AttributeError
       | Some (Caller c) =>
           if has_spec c then
             _verify_hook c hookimpl ;;
             ret (_maybe_apply_history hookimpl c)
           else ret c
       end ;;
  relay_setattr specname (_add_hookimpl hookimpl c) ;;
  ret specname.

Fixpoint register_loop (plugin_name : string) (impls : list HookImplementation)
    (hookcallers : list string) : M (list string) :=
  match impls with
  | [] => ret hookcallers
  | hookimpl :: rest =>
      hook_caller <- register_impl plugin_name hookimpl ;;
      register_loop plugin_name rest (hookcallers ++ [hook_caller])
  end.

Definition plugin_name_of (namespace : Obj) (name : option string) : string :=
  str_or name (get_canonical_name namespace).

(** [register] from [plugin_name = ...] on: the namespace is neither
    a string nor a mapping. *)
Definition register_obj (namespace : Obj) (name : option string)
  : M (option string) :=
  let plugin_name := plugin_name_of namespace name in
  fun s =>
    if is_blocked plugin_name s then (Return None, s)
    else if is_registered_name plugin_name s then
      (Raise (ValueError (NameAlreadyRegistered plugin_name)), s)
    else if is_registered_obj (obj_id namespace) s then
      (Raise (ValueError (ModuleAlreadyRegistered (obj_id namespace))), s)
    else
      (hookcallers <- register_loop plugin_name (iter_implementations namespace) [] ;;
       modify (with_plugin2hookcallers (<[obj_id namespace := hookcallers]>)) ;;
       modify (with_plugins (Dict.set plugin_name namespace)) ;;
       ret (Some plugin_name)) s.

(** Modelled from the spec: the implementation marker of markers.py,
    which is not among the sources, applied as
    [mark(specname=key)(val)]: not a wrapper, not optional, neutral
    priority. *)
Definition mark_impl (key : string) (val : Routine) : Routine :=
  {| fn_name := fn_name val;
     fn_argnames := fn_argnames val;
     fn_impl := Some (mkImplOpts false false Neutral (Some key));
     fn_spec := fn_spec val |}.

(** The comprehension of [_register_dict]: only values that are
    functions are kept. *)
Definition clean_dct (dct : list (string * DictVal)) : list (string * Routine) :=
  omap (fun kv : string * DictVal =>
          match kv.2 with
          | DFunction val => Some (kv.1, mark_impl kv.1 val)
          | DNotFunction => None
          end)
       dct.

(** [ensure_namespace] on a mapping: the class [type('orphan', (),
    obj)], or the [TypeError] of [type]. *)
Definition ensure_namespace (cls : ObjId) (obj : list (string * Routine))
  : M Obj :=
  let bad_keys :=
    filter (fun k => isidentifier (rt_python discover0) k = false) (obj.*1) in
  match bad_keys with
  | [] =>
      match class_dir (rt_python discover0) obj with
      | Some dir => ret {| obj_id := cls;
                           obj_kind := KClass;
                           obj_name := Some "orphan";
                           obj_dir := dir |}
      | None => raise TypeError
      end
  | _ :: _ => raise (ValueError (InvalidIdentifiers bad_keys))
  end.

Definition _register_dict (cls : ObjId) (dct : list (string * DictVal))
    (name : option string) : M (option string) :=
  namespace <- ensure_namespace cls (clean_dct dct) ;;
  register_obj namespace name.

Definition register_body (namespace : Val) (name : option string)
  : M (option string) :=
  match namespace with
  | PStr _ => raise TypeError
  | PDict cls dct => _register_dict cls dct name
  | PObj o => register_obj o name
  end.

(** One turn of the loop of [add_hookspecs], for an attribute that
    carries a specification marker.  An attribute of the relay that is
    not a hook caller has no [set_specification], and [__weakref__]
    cannot be set: an [AttributeError]. *)
Definition add_hookspec (name : string) (method : Routine) (spec_opts : SpecOpts)
  : M unit :=
  hook_caller <- relay_getattr name ;;
  match hook_caller with
  | None => relay_setattr name (new_caller_with_spec name method spec_opts)
  | Some NotACaller => raise AttributeError
  | Some (Caller c) =>
      match set_specification method spec_opts c with
      | None => raise AssertionError
      | Some c' =>
          relay_setattr name c' ;;
          verify_all c' (get_hookimpls c')
      end
  end.

Fixpoint add_hookspecs_loop (attrs : list (string * Attr)) (names : list string)
  : M (list string) :=
  match attrs with
  | [] => ret names
  | (name, ARoutine method) :: rest =>
      match fn_spec method with
      | Some spec_opts =>
          add_hookspec name method spec_opts ;;
          add_hookspecs_loop rest (names ++ [name])
      | None => add_hookspecs_loop rest names
      end
  | (_, NotRoutine) :: rest => add_hookspecs_loop rest names
  end.

Definition add_hookspecs_body (namespace : Obj) : M unit :=
  names <- add_hookspecs_loop (obj_dir namespace) [] ;;
  match names with
  | [] => raise (ValueError NoHooksFound)
  | _ :: _ => ret tt
  end.

Fixpoint check_pending_loop (names : list string) : M unit :=
  match names with
  | [] => ret tt
  | name :: rest =>
      if startswith name "_" then check_pending_loop rest
      else
        hook <- relay_getattr name ;;
        match hook with
        | None | Some NotACaller => raise AttributeError
        | Some (Caller hook) =>
            if has_spec hook then check_pending_loop rest
            else
              match List.find (fun i => negb (impl_optionalhook i))
                              (get_hookimpls hook) with
              | Some hookimpl =>
                  raise (PluginValidationError hookimpl name UnknownHook)
              | None => check_pending_loop rest
              end
        end
  end.

(** [check_pending]: reading [self.hook.__dict__] is itself an access
    to the relay. *)
Definition check_pending_body : M unit :=
  relay_access "__dict__" ;;
  d <- gets hook_dict ;;
  check_pending_loop (d.*1).

(** [_HookRelay.items]: the attribute lookup of the method and
    [vars(self)] are both accesses to the relay; the private
    attributes are left out. *)
Definition relay_items : M (list (string * HookCaller)) :=
  relay_access "items" ;;
  relay_access "__dict__" ;;
  d <- gets hook_dict ;;
  ret (filter (fun kv : string * HookCaller => startswith kv.1 "_" = false) d).

(** [_HookRelay.values]. *)
Definition relay_values : M (list HookCaller) :=
  relay_access "values" ;;
  relay_access "__dict__" ;;
  d <- gets hook_dict ;;
  ret ((filter (fun kv : string * HookCaller => startswith kv.1 "_" = false) d).*2).

Definition is_class_or_module (v : Val) : bool :=
  match v with
  | PObj o => match obj_kind o with KInstance => false | _ => true end
  | _ => false
  end.

Definition _load_and_register (module_ : Target) (plugin_name : option string)
  : M (option string) :=
  match tgt_load module_ with
  | None => raise (PluginImportError plugin_name)
  | Some module =>
      registered <- try_except (is_registered module)
                      (fun _ => raise (PluginImportError plugin_name)) ;;
      if registered : bool then ret None
      else if is_class_or_module module then
        try_except (register_body module plugin_name)
          (fun e => if is_PluginError e then raise e
                    else raise (PluginRegistrationError plugin_name))
      else raise (PluginRegistrationError plugin_name)
  end.

(** The body shared by the two loader loops, from [try:] on. *)
Definition load_candidate (module_ : Target) (name : string) (ignore_errors : bool)
    (count : nat) (errors : list Exn)
    (continue : nat -> list Exn -> M (nat * list Exn)) : M (nat * list Exn) :=
  fun s =>
    match _load_and_register module_ (Some name) s with
    | (Return r, s') => continue (if truthy r then S count else count) errors s'
    | (Raise e, s') =>
        if is_PluginError e then
          let s'' := set_blocked name true s' in
          if ignore_errors then continue count (errors ++ [e]) s''
          else (Raise e, s'')
        else (Raise e, s')
    | (OutOfFuel, s') => (OutOfFuel, s')
    end.

Definition nonempty (x : string) : bool :=
  if decide (x = "") then false else true.

Definition ep_skipped (group name : string) (ep : EntryPoint)
    (s : PluginManager) : bool :=
  bool_decide (ep_group ep ≠ group)
  || (nonempty name && bool_decide (ep_name ep ≠ name))
  || is_registered_name (ep_name ep) s
  || is_blocked (ep_name ep) s.

Fixpoint load_entrypoints_loop (group name : string) (ignore_errors : bool)
    (eps : list EntryPoint) (count : nat) (errors : list Exn)
  : M (nat * list Exn) :=
  match eps with
  | [] => ret (count, errors)
  | ep :: rest =>
      fun s =>
        if ep_skipped group name ep s
        then load_entrypoints_loop group name ignore_errors rest count errors s
        else load_candidate (ep_target ep) (ep_name ep) ignore_errors count errors
               (load_entrypoints_loop group name ignore_errors rest) s
  end.

Definition load_entrypoints_body (group name : string) (ignore_errors : bool)
  : M (nat * list Exn) :=
  if negb (nonempty group) || DISABLE_ENTRYPOINT_PLUGINS env then ret (0, [])
  else load_entrypoints_loop group name ignore_errors
         (concat (distributions env)) 0 [].

(** [dist.metadata.get("name") if dist else mod_name]; a distribution's
    metadata carries its name. *)
Definition module_plugin_name (m : ModuleInfo) : string :=
  match mc_dist m with
  | Some name => name
  | None => tgt_name (mc_target m)
  end.

Definition module_skipped (prefix : string) (m : ModuleInfo)
    (s : PluginManager) : bool :=
  negb (startswith (tgt_name (mc_target m)) prefix)
  || is_registered_name (module_plugin_name m) s
  || is_blocked (module_plugin_name m) s.

Fixpoint load_modules_loop (prefix : string) (ignore_errors : bool)
    (mods : list ModuleInfo) (count : nat) (errors : list Exn)
  : M (nat * list Exn) :=
  match mods with
  | [] => ret (count, errors)
  | m :: rest =>
      fun s =>
        if module_skipped prefix m s
        then load_modules_loop prefix ignore_errors rest count errors s
        else load_candidate (mc_target m) (module_plugin_name m)
               ignore_errors count errors
               (load_modules_loop prefix ignore_errors rest) s
  end.

Definition load_modules_by_prefix_body (prefix : string) (ignore_errors : bool)
  : M (nat * list Exn) :=
  if DISABLE_PREFIX_PLUGINS env || negb (nonempty prefix) then ret (0, [])
  else load_modules_loop prefix ignore_errors (iter_modules env) 0 [].

(** [discover]; the additions to [sys.path] and the log message leave
    no trace in the registry. *)
Definition discover_body (entry_point prefix : option string)
    (ignore_errors : bool) : M (nat * list Exn) :=
  dep <- gets discover_entry_point ;;
  dpf <- gets discover_prefix ;;
  let entry_point := str_or entry_point dep in
  let prefix := str_or prefix dpf in
  modify count_discover ;;
  modify (with_needs_discovery false) ;;
  if DISABLE_ALL_PLUGINS env then ret (0, [])
  else
    ce <- load_entrypoints_body entry_point "" ignore_errors ;;
    ne <- load_modules_by_prefix_body prefix ignore_errors ;;
    ret (ce.1 + ne.1, ce.2 ++ ne.2).

End Relay.

(** [discover].  A discovery registers plugins, registration reads
    the relay, and the relay may call [discover] again: [fuel] bounds
    the depth of that nesting, and every call counts itself, also the
    one that finds no fuel left.  One unit is enough
    ([relay_discovers_once] below). *)
Fixpoint discover (fuel : nat) (env : Environment)
    (entry_point prefix : option string) (ignore_errors : bool)
  : M (nat * list Exn) :=
  match fuel with
  | 0 => fun s => (OutOfFuel, count_discover s)
  | S fuel' =>
      discover_body env
        (mkRuntime (interpreter env) (discover fuel' env None None true))
        entry_point prefix ignore_errors
  end.

(** What the public operations run in; the relay starts
    [self._manager.discover()]. *)
Definition relay_discover (fuel : nat) (env : Environment) : Runtime :=
  mkRuntime (interpreter env) (discover fuel env None None true).

(** The public operations, with [discover] behind the relay. *)
Definition register (fuel : nat) (env : Environment)
    (namespace : Val) (name : option string) : M (option string) :=
  register_body (relay_discover fuel env) namespace name.

Definition add_hookspecs (fuel : nat) (env : Environment) (namespace : Obj)
  : M unit :=
  add_hookspecs_body (relay_discover fuel env) namespace.

Definition check_pending (fuel : nat) (env : Environment) : M unit :=
  check_pending_body (relay_discover fuel env).

Definition load_entrypoints (fuel : nat) (env : Environment)
    (group name : string) (ignore_errors : bool) : M (nat * list Exn) :=
  load_entrypoints_body env (relay_discover fuel env) group name ignore_errors.

Definition load_modules_by_prefix (fuel : nat) (env : Environment)
    (prefix : string) (ignore_errors : bool) : M (nat * list Exn) :=
  load_modules_by_prefix_body env (relay_discover fuel env) prefix ignore_errors.

(** [discovery_blocked]: the context manager, around a body. *)
Definition discovery_blocked {A} (body : M A) : M A :=
  fun s =>
    let current := hook_needs_discovery s in
    let r := body (with_needs_discovery false s) in
    (r.1, with_needs_discovery current r.2).

(** [getattr(plugin_manager.hook, name, None)], from outside the
    manager. *)
Definition hook_getattr (fuel : nat) (env : Environment) (name : string)
  : M (option RelayValue) :=
  relay_getattr (relay_discover fuel env) name.

(** [self.hook.items()] and [self.hook.values()]. *)
Definition hook_items (fuel : nat) (env : Environment)
  : M (list (string * HookCaller)) :=
  relay_items (relay_discover fuel env).

Definition hook_values (fuel : nat) (env : Environment) : M (list HookCaller) :=
  relay_values (relay_discover fuel env).

(** [get_hookcallers]: the callers that [register] recorded for the
    plugin, which the table holds by hook name. *)
Definition get_hookcallers (plugin : ObjId) (s : PluginManager)
  : option (list string) :=
  _plugin2hookcallers s !! plugin.

End Manager.

(** ** [temp_path_additions]

    The context manager works on [sys.path], a list of strings that it
    mutates in place. *)
Module SysPath.

(** The argument: [None], one path, or a list of paths. *)
Inductive PathArg :=
| NoPath
| OnePath (p : string)
| Paths (l : list string).

(** [path = [path]] for a single path, then
    [[os.fspath(p) for p in path] if path else []]. *)
Definition normalise (path : PathArg) : list string :=
  match path with
  | NoPath => []
  | OnePath p => [p]
  | Paths l => l
  end.

Definition to_add (path : PathArg) (sys_path : list string) : list string :=
  filter (fun p => p ∉ sys_path) (normalise path).

(** [for p in to_add: sys.path.insert(0, p)]. *)
Definition enter (to_add : list string) (sys_path : list string) : list string :=
  foldl (fun sp p => p :: sp) sys_path to_add.

(** [list.remove]: the first occurrence goes, [ValueError] ([None])
    when there is none. *)
Fixpoint remove (p : string) (l : list string) : option (list string) :=
  match l with
  | [] => None
  | x :: r => if decide (x = p) then Some r else cons x <$> remove p r
  end.

(** [for p in to_add: sys.path.remove(p)]. *)
Fixpoint leave (to_add : list string) (sys_path : list string)
  : option (list string) :=
  match to_add with
  | [] => Some sys_path
  | p :: rest =>
      match remove p sys_path with
      | Some sys_path' => leave rest sys_path'
      | None => None
      end
  end.

(** The whole context: [body] is the block under [with], which
    receives [sys.path] and may change it.  The result is the value of
    the block and the [sys.path] left behind, or [None] when a
    [remove] of the [finally] clause fails. *)
Definition temp_path_additions {A : Type} (path : PathArg)
    (body : list string -> A * list string) (sys_path : list string)
  : option (A * list string) :=
  let to_add := to_add path sys_path in
  let r := body (enter to_add sys_path) in
  match leave to_add r.2 with
  | Some sys_path' => Some (r.1, sys_path')
  | None => None
  end.

End SysPath.

Import Py Hooks Manager.
Local Open Scope m_scope.
#[local] Set Warnings "-clear-no-such-hyp".

(** ** Vocabulary of the statements *)

(** *** Hook callers seen through the relay *)

(** The specification bound to the hook [n], and the implementations
    attached to it; a hook without a caller has neither. *)
Definition spec_of (s : PluginManager) (n : string) : option HookSpecification :=
  c ← Dict.get n (hook_dict s); hc_spec c.

Definition impls_of (s : PluginManager) (n : string) : list HookImplementation :=
  match Dict.get n (hook_dict s) with Some c => hc_impls c | None => [] end.

(** The parameter names of [i] all occur among those of [sp]. *)
Definition args_within (i : HookImplementation) (sp : HookSpecification) : Prop :=
  (list_to_set (impl_argnames i) : gset string) ⊆ list_to_set (spec_argnames sp).

(** The global invariant of the data model. *)
Definition Inv (s : PluginManager) : Prop :=
  ∀ n sp i, spec_of s n = Some sp → i ∈ impls_of s n → args_within i sp.

(** What [_verify_hook] accepts, as a predicate on the bound
    specification. *)
Definition verify_ok (sp : option HookSpecification) (i : HookImplementation) : Prop :=
  match sp with
  | Some sp => (so_historic (spec_opts sp) && impl_hookwrapper i = false) ∧ args_within i sp
  | None => True
  end.

Definition historic_at (s : PluginManager) (n : string) : Prop :=
  ∃ sp, spec_of s n = Some sp ∧ so_historic (spec_opts sp) = true.

(** *** How a state evolves *)

(** Specifications stay, implementations are only added, callers stay. *)
Definition grows (s s' : PluginManager) : Prop :=
  (∀ n, spec_of s' n = spec_of s n) ∧
  (∀ n, impls_of s n ⊆ impls_of s' n) ∧
  (∀ n, is_Some (Dict.get n (hook_dict s)) → is_Some (Dict.get n (hook_dict s'))).

(** Only the relay's dictionary differs. *)
Definition hooks_only (s s' : PluginManager) : Prop :=
  s' = with_hook_dict (fun _ => hook_dict s') s.

Definition same_config (s s' : PluginManager) : Prop :=
  discover_entry_point s' = discover_entry_point s ∧
  discover_prefix s' = discover_prefix s.

(** What registration and loading keep, with or without a discovery
    pass in between. *)
Definition frame (s s' : PluginManager) : Prop :=
  same_config s s' ∧ _blocked s ⊆ _blocked s' ∧ grows s s' ∧ (Inv s → Inv s').

(** The same, for a run that started no discovery. *)
Definition quiet (s s' : PluginManager) : Prop :=
  frame s s' ∧ hook_needs_discovery s' = false ∧ discover_calls s' = discover_calls s.

(** The caller [register] finds or creates for the hook [n], and the
    state once [i] is attached to it. *)
Definition caller_at (s : PluginManager) (n : string) : HookCaller :=
  default (new_caller n) (Dict.get n (hook_dict s)).

Definition attach (n : string) (i : HookImplementation) (s : PluginManager) :=
  with_hook_dict (Dict.set n (_add_hookimpl i (caller_at s n))) s.

(** *** Registration *)

(** The canonical name and the identity under which [register] files a
    namespace. *)
Definition target_name (v : Val) (name : option string) : string :=
  match v with
  | PObj o => plugin_name_of o name
  | PDict _ _ => str_or name "orphan"
  | PStr _ => str_or name ""
  end.



(** A namespace that [register] can take in: no string, and for a
    mapping, identifiers as the keys of its functions, none of which
    makes [type] refuse the mapping. *)
Definition well_formed_namespace (py : Interpreter) (v : Val) : bool :=
  match v with
  | PStr _ => false
  | PDict _ dct =>
      forallb (isidentifier py) (clean_dct dct).*1
      && bool_decide (is_Some (class_dir py (clean_dct dct)))
  | PObj _ => true
  end.


(** Names and identities are unique keys of the plugin table. *)
Definition plugins_wf (s : PluginManager) : Prop :=
  NoDup (plugins s).*1 ∧ NoDup (obj_id <$> (plugins s).*2).

(** Every implementation of the namespace passed validation and is
    attached. *)
Definition registered_all (pn : string) (impls : list HookImplementation)
    (s s' : PluginManager) : Prop :=
  ∀ j, j ∈ impls →
    verify_ok (spec_of s (impl_specname j)) (with_plugin_name pn j) ∧
    with_plugin_name pn j ∈ impls_of s' (impl_specname j).

(** Validation stopped at [i0]; the implementations before it are
    attached. *)
Definition rejected_at (pn : string) (impls : list HookImplementation)
    (e : Exn) (s s' : PluginManager) : Prop :=
  ∃ pre i0 post hook why,
    impls = pre ++ i0 :: post ∧
    e = PluginValidationError (with_plugin_name pn i0) hook why ∧
    ¬ verify_ok (spec_of s (impl_specname i0)) (with_plugin_name pn i0) ∧
    ∀ j, j ∈ pre → with_plugin_name pn j ∈ impls_of s' (impl_specname j).

(** Registration stopped at [i0], whose hook name is an attribute of
    the relay: an [AttributeError]; the implementations before it are
    attached. *)
Definition stopped_at (py : Interpreter) (pn : string)
    (impls : list HookImplementation) (e : Exn) (s' : PluginManager) : Prop :=
  ∃ pre i0 post,
    impls = pre ++ i0 :: post ∧ e = AttributeError ∧
    is_relay_attribute py (impl_specname i0) = true ∧
    ∀ j, j ∈ pre → with_plugin_name pn j ∈ impls_of s' (impl_specname j).

(** *** Declaration of specifications *)

(** The attribute [n] of the namespace is a routine that carries the
    specification marker [opts]. *)
Definition declares (attrs : list (string * Attr)) (n : string) (m : Routine)
    (opts : SpecOpts) : Prop :=
  (n, ARoutine m) ∈ attrs ∧ fn_spec m = Some opts.

(** None of the hooks the namespace declares has a specification yet. *)
Definition undeclared (attrs : list (string * Attr)) (s : PluginManager) : Prop :=
  ∀ n m opts, declares attrs n m opts → spec_of s n = None.

(** None of the hooks the namespace declares, and none of those the
    plugin implements, is named like an attribute of the relay. *)
Definition declares_hooks (py : Interpreter) (attrs : list (string * Attr)) : Prop :=
  ∀ n m opts, declares attrs n m opts → is_relay_attribute py n = false.

Definition implements_hooks (py : Interpreter) (o : Obj) : Prop :=
  ∀ i, i ∈ iter_implementations o → is_relay_attribute py (impl_specname i) = false.

Definition bind_spec (m : Routine) (opts : SpecOpts) (c : HookCaller) : HookCaller :=
  {| hc_name := hc_name c; hc_spec := Some (new_spec m opts); hc_impls := hc_impls c |}.

(** *** Reachable states *)

(** The states the public operations reach from a fresh manager; the
    host may also set the relay's flag, as [discovery_blocked] does.
    [strict = true] leaves out the calls of [add_hookspecs] that end in
    a validation failure; [strict = false] keeps every call. *)
Inductive reachable (strict : bool) : PluginManager → Prop :=
| reach_init entry_point prefix :
    reachable strict (init entry_point prefix)
| reach_flag b s :
    reachable strict s → reachable strict (with_needs_discovery b s)
| reach_register fuel env v name s :
    reachable strict s → reachable strict (register (S fuel) env v name s).2
| reach_add_hookspecs fuel env ns s :
    reachable strict s →
    (strict = true →
       ∀ e, (add_hookspecs (S fuel) env ns s).1 = Raise e →
            is_validation_failure e = false) →
    reachable strict (add_hookspecs (S fuel) env ns s).2
| reach_unregister v s :
    reachable strict s → reachable strict (unregister v s).2
| reach_set_blocked name b s :
    reachable strict s → reachable strict (set_blocked name b s).

(** *** The audit of pending hooks *)

(** An implementation that is not optional, on a hook without a
    specification. *)
Definition unbound_nonoptional (s : PluginManager) (n : string) (i : HookImplementation)
  : Prop :=
  spec_of s n = None ∧ i ∈ impls_of s n ∧ impl_optionalhook i = false.

(** The same, on a hook that [check_pending] looks at. *)
Definition pending (s : PluginManager) (n : string) (i : HookImplementation) : Prop :=
  startswith n "_" = false ∧ spec_of s n = None ∧
  i ∈ impls_of s n ∧ impl_optionalhook i = false.

(** *** Discovery and loading *)

(** What [discover] does once it has counted itself and cleared the
    flag. *)
Definition discover_loads (env : Environment) (d0 : Runtime)
    (entry_point prefix : string) (ignore_errors : bool) : M (nat * list Exn) :=
  if DISABLE_ALL_PLUGINS env then ret (0, [])
  else
    ce <- load_entrypoints_body env d0 entry_point "" ignore_errors ;;
    ne <- load_modules_by_prefix_body env d0 prefix ignore_errors ;;
    ret (ce.1 + ne.1, ce.2 ++ ne.2).

(** A loader that started no discovery: it returns, or, when errors are
    not ignored, raises a plugin error. *)
Definition loader_post (ignore_errors : bool) (s : PluginManager)
    (r : Outcome (nat * list Exn) * PluginManager) : Prop :=
  quiet s r.2 ∧
  match r.1 with
  | Return _ => True
  | Raise e => ignore_errors = false ∧ is_PluginError e = true
  | OutOfFuel => False
  end.

(** ** Examples *)

Definition impl_routine (n : string) (args : list string) (wrapper optional : bool)
  : Routine :=
  mkRoutine n args (Some (mkImplOpts wrapper optional Neutral None)) None.

Definition spec_routine (n : string) (args : list string) (historic : bool) : Routine :=
  mkRoutine n args None (Some (mkSpecOpts historic false None)).

Definition plugin (id : ObjId) (dir : list (string * Attr)) : Obj :=
  mkObj id KInstance None dir.

(** A namespace of specifications with the one hook [he_method1(arg)],
    plain and historic. *)
Definition HooksNs : Obj :=
  mkObj 1 KClass (Some "Hooks")
    [("he_method1", ARoutine (spec_routine "he_method1" ["arg"] false))].

Definition HistoricNs : Obj :=
  mkObj 1 KClass (Some "Hooks")
    [("he_method1", ARoutine (spec_routine "he_method1" ["arg"] true))].

(** Plugins for [he_method1]: one with a parameter the specification
    lacks, one that is a wrapper, and one whose first implementation is
    for another hook. *)
Definition mismatch_plugin : Obj :=
  plugin 3 [("he_method1", ARoutine (impl_routine "he_method1" ["qlwkje"] false false))].

Definition wrapper_plugin : Obj :=
  plugin 4 [("he_method1", ARoutine (impl_routine "he_method1" ["arg"] true false))].


Definition unbound_mismatch : PluginManager :=
  (register 1 empty_env (PObj mismatch_plugin) None (init "" "")).2.

Definition unbound_wrapper : PluginManager :=
  (register 1 empty_env (PObj wrapper_plugin) None (init "" "")).2.

Definition bound_state : PluginManager :=
  (add_hookspecs 1 empty_env HooksNs (init "" "")).2.

Definition historic_state : PluginManager :=
  (add_hookspecs 1 empty_env HistoricNs (init "" "")).2.


(** A plugin with one implementation, registered as "abc". *)
Definition blocked_example : PluginManager :=
  (register 1 empty_env
     (PObj (plugin 5 [("he_method1", ARoutine (impl_routine "he_method1" ["arg"] false false))]))
     (Some "abc") (init "" "")).2.

(** A plugin that implements the hook [_hidden], for which there is no
    specification. *)
Definition hidden_example : PluginManager :=
  (register 1 empty_env
     (PObj (plugin 7 [("_hidden", ARoutine (impl_routine "_hidden" [] false false))]))
     None (init "" "")).2.

(** One installed distribution with one entry point in the group "grp",
    and a manager for that group on which the specifications were
    declared under [discovery_blocked], so that discovery is still
    pending. *)
Definition other_module : Obj := mkObj 20 KModule (Some "other_mod") [].

Definition one_entry_point : Environment :=
  mkEnv python_ascii false false false
    [[mkEP "grp" "other" (mkTarget "other_mod" (Some (PObj other_module)))]] [].

Definition pending_discovery : PluginManager :=
  (discovery_blocked (add_hookspecs 1 one_entry_point HooksNs) (init "grp" "")).2.

(** An entry point whose target fails to import. *)
Definition broken_entry_point : EntryPoint :=
  mkEP "grp" "broken" (mkTarget "broken_mod" None).

(** ** Vocabulary of the further properties *)

(** *** The plugin tables *)

(** The two plugin tables and the blocklist fit together: names and
    identities are unique keys of [plugins], [_plugin2hookcallers] has
    an entry for exactly the registered objects, and no blocked name is
    registered. *)
Definition tables_wf (s : PluginManager) : Prop :=
  NoDup (plugins s).*1 ∧
  NoDup (obj_id <$> (plugins s).*2) ∧
  (∀ o, is_registered_obj o s = true ↔ o ∈ obj_id <$> (plugins s).*2) ∧
  (∀ n, is_blocked n s = true → is_registered_name n s = false).

(** How the argument of [unregister] names the plugin [p] that is
    registered as [n]. *)
Definition names_plugin (v : Val) (n : string) (p : Obj) : Prop :=
  match v with
  | PStr n0 => n0 = n
  | PObj o => obj_id o = obj_id p
  | PDict _ _ => False
  end.

(** The hook callers without the implementations of the plugin [p]. *)
Definition without_plugin (p : ObjId) (hookcallers : list string)
    (s : PluginManager) (h : string) : list HookImplementation :=
  if decide (h ∈ hookcallers)
  then filter (fun i => impl_plugin i ≠ p) (impls_of s h)
  else impls_of s h.

(** The state [unregister] leaves when it removes the plugin [p] that is
    registered as [n]. *)
Definition removed (n : string) (p : Obj) (s : PluginManager) : PluginManager :=
  foldl (fun st name => alter_caller (_remove_plugin (obj_id p)) name st)
        (with_plugin2hookcallers (delete (obj_id p)) (with_plugins (Dict.del n) s))
        (default [] (_plugin2hookcallers s !! obj_id p)).

(** The hook names of the implementations of a namespace, in the order
    of [dir]. *)
Definition hook_names (o : Obj) : list string :=
  impl_specname <$> iter_implementations o.

(** The state [register] leaves once the implementations are attached
    (in [s1]) and the plugin [o] is filed under [pn]. *)
Definition filed (pn : string) (o : Obj) (s1 : PluginManager) : PluginManager :=
  with_plugins (Dict.set pn o)
    (with_plugin2hookcallers (<[obj_id o := hook_names o]>) s1).

(** No implementation of the object [p] is attached anywhere. *)
Definition no_leftovers (p : ObjId) (s : PluginManager) : Prop :=
  ∀ h i, i ∈ impls_of s h → impl_plugin i ≠ p.




(** *** The loader loops as one loop over candidates *)

(** What a loader loop tries to load, once the tests that do not depend
    on the registry are done: the target and the plugin name to give
    it. *)
Definition ep_candidates (group name : string) (eps : list EntryPoint)
  : list (Target * string) :=
  omap (fun ep =>
          if bool_decide (ep_group ep ≠ group)
             || (nonempty name && bool_decide (ep_name ep ≠ name))
          then None else Some (ep_target ep, ep_name ep))
       eps.

Definition module_candidates (prefix : string) (mods : list ModuleInfo)
  : list (Target * string) :=
  omap (fun m =>
          if startswith (tgt_name (mc_target m)) prefix
          then Some (mc_target m, module_plugin_name m) else None)
       mods.

Definition entry_candidates (env : Environment) (group name : string)
  : list (Target * string) :=
  if negb (nonempty group) || DISABLE_ENTRYPOINT_PLUGINS env then []
  else ep_candidates group name (concat (distributions env)).

Definition prefix_candidates (env : Environment) (prefix : string)
  : list (Target * string) :=
  if DISABLE_PREFIX_PLUGINS env || negb (nonempty prefix) then []
  else module_candidates prefix (iter_modules env).

(** The loop the two loaders share. *)
Fixpoint load_loop (d0 : Runtime) (ignore_errors : bool)
    (cands : list (Target * string)) (count : nat) (errors : list Exn)
  : M (nat * list Exn) :=
  match cands with
  | [] => ret (count, errors)
  | (t, name) :: rest =>
      fun s =>
        if is_registered_name name s || is_blocked name s
        then load_loop d0 ignore_errors rest count errors s
        else load_candidate d0 t name ignore_errors count errors
               (load_loop d0 ignore_errors rest) s
  end.

(** Loading the target again would register nothing: its value is
    registered, or it is a class or module whose plugin name is
    blocked. *)
Definition already_loaded (t : Target) (name : string) (s : PluginManager) : bool :=
  match tgt_load t with
  | Some (PStr n) => is_registered_name n s
  | Some (PObj o) =>
      is_registered_obj (obj_id o) s
      || (is_class_or_module (PObj o) && is_blocked (plugin_name_of o (Some name)) s)
  | _ => false
  end.

(** A candidate that a loader passes over without effect. *)
Definition settled (c : Target * string) (s : PluginManager) : bool :=
  is_registered_name c.2 s || is_blocked c.2 s || already_loaded c.1 c.2 s.

(** The plugin tables and the blocklist only gain entries. *)
Definition tables_grow (s s' : PluginManager) : Prop :=
  (∀ n, is_registered_name n s = true → is_registered_name n s' = true) ∧
  (∀ o, is_registered_obj o s = true → is_registered_obj o s' = true) ∧
  _blocked s ⊆ _blocked s'.

(** What a loader pass that started no discovery leaves behind: the
    plugins it registered are appended to the plugin table and counted,
    and every error blocked one more name. *)
Definition loaded (count : nat) (errors : list Exn) (s : PluginManager)
    (r : nat * list Exn) (s' : PluginManager) : Prop :=
  ∃ added errs,
    plugins s' = plugins s ++ added ∧ r.1 = count + length added ∧
    r.2 = errors ++ errs ∧ size (_blocked s') = size (_blocked s) + length errs.

(** The candidates of a whole discovery pass. *)
Definition discover_candidates (env : Environment) (entry_point prefix : string)
  : list (Target * string) :=
  if DISABLE_ALL_PLUGINS env then []
  else entry_candidates env entry_point "" ++ prefix_candidates env prefix.

(** The attribute carries no specification marker. *)
Definition unmarked (a : string * Attr) : Prop :=
  match a.2 with
  | ARoutine m => fn_spec m = None
  | NotRoutine => True
  end.

(** The keys of a mapping whose values are functions, in the order of
    the mapping. *)
Definition function_keys (dct : list (string * DictVal)) : list string :=
  (clean_dct dct).*1.

(** A class or a module, by its kind. *)
Definition class_or_module (o : Obj) : Prop :=
  obj_kind o = KClass ∨ obj_kind o = KModule.

(** The plugin [po.2], filed as [po.1], is the class or module that one
    of the candidates loads, under the name [register] makes of the
    candidate's. *)
Definition from_candidate (cands : list (Target * string)) (po : string * Obj) : Prop :=
  ∃ t name, (t, name) ∈ cands ∧ tgt_load t = Some (PObj po.2) ∧
            class_or_module po.2 ∧
            po.1 = plugin_name_of po.2 (Some name).

(** All that a pass over the candidates adds to the plugin table and to
    the blocklist comes from them. *)
Definition sourced (cands : list (Target * string)) (s s' : PluginManager) : Prop :=
  ∃ added,
    plugins s' = plugins s ++ added ∧ Forall (from_candidate cands) added ∧
    _blocked s' ⊆ _blocked s ∪ list_to_set cands.*2.

(** The same, in terms of what is installed: the class or module that
    an entry point of the group loads, or a module whose name starts
    with the prefix. *)
Definition offered (env : Environment) (group prefix : string) (po : string * Obj)
  : Prop :=
  (∃ ep, ep ∈ concat (distributions env) ∧ ep_group ep = group ∧
         tgt_load (ep_target ep) = Some (PObj po.2) ∧
         class_or_module po.2 ∧
         po.1 = plugin_name_of po.2 (Some (ep_name ep))) ∨
  (∃ m, m ∈ iter_modules env ∧ startswith (tgt_name (mc_target m)) prefix = true ∧
        tgt_load (mc_target m) = Some (PObj po.2) ∧
        class_or_module po.2 ∧
        po.1 = plugin_name_of po.2 (Some (module_plugin_name m))).

(** The name of an entry point of the group, or the plugin name of a
    module whose name starts with the prefix. *)
Definition offered_name (env : Environment) (group prefix : string) (n : string)
  : Prop :=
  (∃ ep, ep ∈ concat (distributions env) ∧ ep_group ep = group ∧ ep_name ep = n) ∨
  (∃ m, m ∈ iter_modules env ∧ startswith (tgt_name (mc_target m)) prefix = true ∧
        module_plugin_name m = n).

(** A manager on which a first discovery found nothing to load, and the
    same with a plugin that implements [he_method1] registered as
    "abc". *)
Definition searched : PluginManager :=
  (discover 1 empty_env None None true (init "" "")).2.

Definition abc_plugin : Obj :=
  plugin 5 [("he_method1", ARoutine (impl_routine "he_method1" ["arg"] false false))].

Definition abc_state : PluginManager :=
  (register 1 empty_env (PObj abc_plugin) (Some "abc") searched).2.

(** A manager for the entry-point group "grp" after its first
    discovery, with one distribution installed. *)
Definition discovered : PluginManager :=
  (discover 1 one_entry_point None None true (init "grp" "")).2.

(** A namespace without any marker. *)
Definition PlainNs : Obj :=
  mkObj 2 KClass (Some "Plain")
    [("VERSION", NotRoutine); ("helper", ARoutine (mkRoutine "helper" [] None None))].

(** A body run under [discovery_blocked] starts no discovery and leaves
    the relay's flag as it found it. *)
Definition starts_no_discovery {A} (body : M A) : Prop :=
  ∀ s, let r := discovery_blocked body s in
       hook_needs_discovery r.2 = hook_needs_discovery s ∧
       discover_calls r.2 = discover_calls s ∧
       r.1 ≠ OutOfFuel.

(** A mapping with a function, and with a value that is none. *)
Definition reader_dict : list (string * DictVal) :=
  [("he_method1", DFunction (mkRoutine "read" ["arg"] None None));
   ("not-a-hook", DNotFunction)].

(** A module with an implementation of [he_method1] that is installed
    as the entry point "b" of the group "grp", and that the host
    registers itself, as "a", before the first discovery. *)
Definition twin_module : Obj :=
  mkObj 21 KModule (Some "twin_mod")
    [("he_method1", ARoutine (impl_routine "he_method1" ["arg"] false false))].

Definition twin_env : Environment :=
  mkEnv python_ascii false false false
    [[mkEP "grp" "b" (mkTarget "twin_mod" (Some (PObj twin_module)))]] [].

Definition twin_state : PluginManager :=
  (register 1 twin_env (PObj twin_module) (Some "a") (init "grp" "")).2.


(** A plugin with an implementation for a hook named [items], and a
    namespace with a specification of that name. *)
Definition items_plugin : Obj :=
  plugin 8 [("items", ARoutine (impl_routine "items" [] false false))].

Definition ItemsNs : Obj :=
  mkObj 11 KClass (Some "ItemsHooks")
    [("items", ARoutine (spec_routine "items" [] false))].

(** The registration of the plugin 5 under the name of the one entry
    point that is installed, while the discovery is still pending. *)
Definition raced : PluginManager :=
  (register 1 one_entry_point (PObj abc_plugin) (Some "other") (init "grp" "")).2.

(** ** Lemmas *)

(** *** Dictionaries *)

Section DictFacts.
Context {V : Type}.
Implicit Types d : list (string * V).
Lemma get_set_eq k v d : Dict.get k (Dict.set k v d) = Some v.
Proof.
  induction d as [|[k' v'] d IH]; simpl.
  - by rewrite decide_True.
  - destruct (decide (k = k')) as [->|Hne]; simpl.
    + by rewrite decide_True.
    + by rewrite decide_False.
Qed.
Lemma get_set_ne k k' v d : k ≠ k' → Dict.get k' (Dict.set k v d) = Dict.get k' d.
Proof.
  intros Hne. induction d as [|[k0 v0] d IH]; simpl.
  - by rewrite decide_False.
  - destruct (decide (k = k0)) as [->|Hne0]; simpl.
    + by rewrite !decide_False.
    + destruct (decide (k' = k0)); done.
Qed.
Lemma get_set k k' v d :
  Dict.get k' (Dict.set k v d) = if decide (k = k') then Some v else Dict.get k' d.
Proof. case_decide; subst; [apply get_set_eq | by apply get_set_ne]. Qed.
Lemma get_Some_elem k v d : Dict.get k d = Some v → (k, v) ∈ d.
Proof.
  induction d as [|[k' v'] d IH]; simpl; [done|].
  case_decide; subst.
  - intros [= ->]. left.
  - intros. right. auto.
Qed.
Lemma get_None_keys k d : Dict.get k d = None ↔ k ∉ d.*1.
Proof.
  induction d as [|[k' v'] d IH]; simpl.
  - split; [intros _; apply not_elem_of_nil | done].
  - case_decide; subst.
    + split; [done|]. intros []. left.
    + rewrite IH. rewrite not_elem_of_cons. naive_solver.
Qed.
Lemma get_del_ne k k' d : k ≠ k' → Dict.get k' (Dict.del k d) = Dict.get k' d.
Proof.
  intros Hne. induction d as [|[k0 v0] d IH]; simpl; [done|].
  destruct (decide (k = k0)) as [->|Hne0]; simpl.
  - by rewrite decide_False.
  - by rewrite IH.
Qed.
Lemma get_del_eq k d : NoDup d.*1 → Dict.get k (Dict.del k d) = None.
Proof.
  induction d as [|[k0 v0] d IH]; simpl; [done|].
  intros [Hni Hnd]%NoDup_cons.
  destruct (decide (k = k0)) as [->|Hne0]; simpl.
  - by apply get_None_keys.
  - rewrite decide_False; auto.
Qed.
Lemma elem_keys_get k d : k ∈ d.*1 → is_Some (Dict.get k d).
Proof.
  intros Hin. destruct (Dict.get k d) eqn:E; [eauto|].
  by apply get_None_keys in E.
Qed.
Lemma set_set k v v0 d : Dict.set k v (Dict.set k v0 d) = Dict.set k v d.
Proof.
  induction d as [|[k' v'] d IH]; simpl.
  - by rewrite decide_True.
  - destruct (decide (k = k')) as [->|Hne]; simpl.
    + by rewrite decide_True.
    + rewrite decide_False; [|done]. by rewrite IH.
Qed.
End DictFacts.

(** *** Validation *)

Lemma notinspec_empty i sp : notinspec i sp = ∅ ↔ args_within i sp.
Proof.
  unfold notinspec, args_within. split.
  - intros He x Hx.
    destruct (decide (x ∈ (list_to_set (spec_argnames sp) : gset string))) as [|Hn]; [done|].
    assert (x ∈ (∅ : gset string)) as Hemp; [|by apply not_elem_of_empty in Hemp].
    rewrite <- He. by apply elem_of_difference.
  - intros Hsub. apply set_eq. intros x.
    rewrite elem_of_difference. split; [|by intros ?%not_elem_of_empty].
    intros [Hx Hn]. destruct Hn. by apply Hsub.
Qed.

Lemma _verify_hook_cases c i s :
  (verify_ok (hc_spec c) i ∧ _verify_hook c i s = (Return tt, s)) ∨
  (¬ verify_ok (hc_spec c) i ∧
   ∃ why, _verify_hook c i s = (Raise (PluginValidationError i (hc_name c) why), s)).
Proof.
  unfold _verify_hook, verify_ok, is_historic.
  destruct (hc_spec c) as [sp|]; simpl; [|by left].
  destruct (so_historic (spec_opts sp) && impl_hookwrapper i) eqn:E.
  - right. split; [intros [? _]; congruence | eauto].
  - destruct (decide (notinspec i sp = ∅)) as [He|Hne].
    + left. split; [|done]. split; [done|]. by apply notinspec_empty.
    + right. split; [|eauto]. intros [_ ?]. by apply Hne, notinspec_empty.
Qed.

Lemma verify_all_cases c l s :
  (Forall (verify_ok (hc_spec c)) l ∧ verify_all c l s = (Return tt, s)) ∨
  (∃ i why, i ∈ l ∧ ¬ verify_ok (hc_spec c) i ∧
     verify_all c l s = (Raise (PluginValidationError i (hc_name c) why), s)).
Proof.
  induction l as [|x l IH]; simpl.
  - left. split; [constructor | done].
  - unfold bind. destruct (_verify_hook_cases c x s) as [[Hok ->]|[Hno [why ->]]].
    + destruct IH as [[Hall ->]|(i & why & Hin & Hno & ->)].
      * left. split; [by constructor | done].
      * right. exists i, why. split; [by right | done].
    + right. exists x, why. split; [left | done].
Qed.

(** *** Hook callers *)
Lemma elem_of_insert_before stop x l y :
  y ∈ insert_before stop x l ↔ y = x ∨ y ∈ l.
Proof.
  induction l as [|z l IH]; simpl.
  - rewrite list_elem_of_singleton, elem_of_nil. naive_solver.
  - destruct (stop z); set_solver.
Qed.

Lemma elem_of_add_hookimpl x c y :
  y ∈ hc_impls (_add_hookimpl x c) ↔ y = x ∨ y ∈ hc_impls c.
Proof.
  unfold _add_hookimpl; simpl. destruct (impl_priority x).
  - set_solver.
  - apply elem_of_insert_before.
  - apply elem_of_insert_before.
Qed.

Lemma elem_of_remove_plugin p c y :
  y ∈ hc_impls (_remove_plugin p c) ↔ y ∈ hc_impls c ∧ impl_plugin y ≠ p.
Proof. unfold _remove_plugin; simpl. rewrite list_elem_of_filter. naive_solver. Qed.

(** *** The relay after a write *)
Lemma spec_of_set n c s n' :
  spec_of (with_hook_dict (Dict.set n c) s) n' =
  if decide (n = n') then hc_spec c else spec_of s n'.
Proof. unfold spec_of; simpl. rewrite get_set. by case_decide. Qed.

Lemma impls_of_set n c s n' :
  impls_of (with_hook_dict (Dict.set n c) s) n' =
  if decide (n = n') then hc_impls c else impls_of s n'.
Proof. unfold impls_of; simpl. rewrite get_set. by case_decide. Qed.

Lemma hooks_only_refl s : hooks_only s s.
Proof. unfold hooks_only. by destruct s. Qed.
Lemma hooks_only_trans s1 s2 s3 : hooks_only s1 s2 → hooks_only s2 s3 → hooks_only s1 s3.
Proof. unfold hooks_only. intros -> ->. by destruct s1. Qed.
Lemma hooks_only_with f s : hooks_only s (with_hook_dict f s).
Proof. unfold hooks_only. by destruct s. Qed.

Lemma grows_refl s : grows s s.
Proof. unfold grows. naive_solver. Qed.
Lemma grows_trans s1 s2 s3 : grows s1 s2 → grows s2 s3 → grows s1 s3.
Proof.
  intros (A1 & B1 & C1) (A2 & B2 & C2). split_and!.
  - intros n. by rewrite A2.
  - intros n x Hx. by apply B2, B1.
  - naive_solver.
Qed.

Lemma spec_of_caller_at s n : hc_spec (caller_at s n) = spec_of s n.
Proof. unfold caller_at, spec_of. by destruct (Dict.get n (hook_dict s)). Qed.
Lemma impls_of_caller_at s n : hc_impls (caller_at s n) = impls_of s n.
Proof. unfold caller_at, impls_of. by destruct (Dict.get n (hook_dict s)). Qed.

Lemma attach_hooks_only n i s : hooks_only s (attach n i s).
Proof. apply hooks_only_with. Qed.

Lemma attach_spec_of n i s n' : spec_of (attach n i s) n' = spec_of s n'.
Proof.
  unfold attach. rewrite spec_of_set. case_decide; [subst|done].
  by rewrite <- spec_of_caller_at.
Qed.

Lemma attach_impls_of n i s n' x :
  x ∈ impls_of (attach n i s) n' ↔ (n' = n ∧ x = i) ∨ x ∈ impls_of s n'.
Proof.
  unfold attach. rewrite impls_of_set. case_decide; subst.
  - rewrite elem_of_add_hookimpl, impls_of_caller_at. naive_solver.
  - naive_solver.
Qed.

Lemma attach_grows n i s : grows s (attach n i s).
Proof.
  split_and!.
  - intros n'. apply attach_spec_of.
  - intros n' x Hx. apply attach_impls_of. by right.
  - intros n' Hs. unfold attach; simpl. rewrite get_set. by case_decide.
Qed.

Lemma attach_Inv n i s : verify_ok (spec_of s n) i → Inv s → Inv (attach n i s).
Proof.
  intros Hok HI n' sp x Hsp Hx. rewrite attach_spec_of in Hsp.
  apply attach_impls_of in Hx as [[-> ->]|Hx]; [|by eapply HI].
  rewrite Hsp in Hok. by destruct Hok.
Qed.

(** *** Registration with no discovery pending

    Whatever discovery the relay would start, it starts none while its
    flag is clear. *)

Section NoDiscoveryPending.
Variable d0 : Runtime.

Lemma relay_access_quiet n s :
  hook_needs_discovery s = false → relay_access d0 n s = (Return tt, s).
Proof. unfold relay_access. intros ->. by case_bool_decide. Qed.

Lemma relay_access_private n s :
  n ∈ relay_private → relay_access d0 n s = (Return tt, s).
Proof. unfold relay_access. intros H. by rewrite bool_decide_eq_true_2. Qed.

Lemma relay_getattr_quiet n s :
  hook_needs_discovery s = false →
  relay_getattr d0 n s = (Return (relay_lookup d0 n s), s).
Proof. intros H. unfold relay_getattr, bind. by rewrite relay_access_quiet. Qed.

Lemma relay_lookup_hook n s :
  is_relay_attribute (rt_python d0) n = false →
  relay_lookup d0 n s = Caller <$> Dict.get n (hook_dict s).
Proof.
  unfold is_relay_attribute, relay_lookup. intros [-> ->]%orb_false_elim.
  by destruct (Dict.get n (hook_dict s)).
Qed.

Lemma relay_lookup_NotACaller n s :
  relay_lookup d0 n s = Some NotACaller → is_relay_attribute (rt_python d0) n = true.
Proof.
  unfold is_relay_attribute, relay_lookup.
  destruct (bool_decide (n ∈ relay_private)); [done|].
  destruct (Dict.get n (hook_dict s)); [done|].
  by destruct (bool_decide (n ∈ relay_attributes _)).
Qed.

Lemma relay_lookup_cases n s :
  relay_lookup d0 n s = Some NotACaller ∨
  (relay_lookup d0 n s ≠ Some NotACaller ∧
   relay_lookup d0 n s = Caller <$> Dict.get n (hook_dict s)).
Proof.
  unfold relay_lookup.
  destruct (bool_decide (n ∈ relay_private)); [by left|].
  destruct (Dict.get n (hook_dict s)); [by right|].
  destruct (bool_decide (n ∈ relay_attributes _)); [by left|by right].
Qed.

(** A hook caller written under a name does not change what the relay
    answers to another. *)
Lemma relay_lookup_set n n' c s :
  n ≠ n' →
  relay_lookup d0 n' (with_hook_dict (Dict.set n c) s) = relay_lookup d0 n' s.
Proof.
  intros Hne. unfold relay_lookup; simpl. by rewrite get_set_ne.
Qed.

Lemma _verify_hook_unbound c i s : hc_spec c = None → _verify_hook c i s = (Return tt, s).
Proof. unfold _verify_hook, is_historic. by intros ->. Qed.

Lemma register_impl_quiet_eq pn i0 s :
  hook_needs_discovery s = false →
  let i := with_plugin_name pn i0 in
  let n := impl_specname i0 in
  register_impl d0 pn i0 s =
    match relay_lookup d0 n s with
    | Some NotACaller => (Raise AttributeError, s)
    | _ =>
        match _verify_hook (caller_at s n) i s with
        | (Return _, _) => (Return n, attach n i s)
        | (Raise e, _) => (Raise e, s)
        | (OutOfFuel, _) => (OutOfFuel, s)
        end
    end.
Proof.
  intros Hq i n. unfold register_impl. fold i. change (impl_specname i) with n.
  unfold bind at 1. rewrite relay_getattr_quiet by done.
  destruct (relay_lookup_cases n s) as [->|[_ ->]]; [done|].
  unfold attach, caller_at.
  destruct (Dict.get n (hook_dict s)) as [c|] eqn:Hget; simpl.
  - destruct (has_spec c) eqn:Hsp.
    + unfold bind at 1. unfold bind at 1.
      destruct (_verify_hook_cases c i s) as [[Hok ->]|[Hno (why & ->)]]; reflexivity.
    + unfold has_spec in Hsp. destruct (hc_spec c) eqn:E; [done|].
      rewrite _verify_hook_unbound by done. reflexivity.
  - unfold bind, relay_setattr, modify, ret; simpl.
    f_equal. destruct s; unfold with_hook_dict; simpl. f_equal.
    apply set_set.
Qed.

Lemma register_impl_quiet pn i0 s :
  hook_needs_discovery s = false →
  let i := with_plugin_name pn i0 in
  let n := impl_specname i0 in
  (relay_lookup d0 n s ≠ Some NotACaller ∧ verify_ok (spec_of s n) i ∧
     register_impl d0 pn i0 s = (Return n, attach n i s)) ∨
  (relay_lookup d0 n s ≠ Some NotACaller ∧ ¬ verify_ok (spec_of s n) i ∧
     ∃ hook why, register_impl d0 pn i0 s = (Raise (PluginValidationError i hook why), s)) ∨
  (relay_lookup d0 n s = Some NotACaller ∧
     register_impl d0 pn i0 s = (Raise AttributeError, s)).
Proof.
  intros Hq i n. rewrite register_impl_quiet_eq by done. fold i n.
  destruct (relay_lookup_cases n s) as [Hl|[Hl Hl']].
  { right; right. by rewrite Hl. }
  assert (match relay_lookup d0 n s with
          | Some NotACaller => (Raise AttributeError, s)
          | _ => match _verify_hook (caller_at s n) i s with
                 | (Return _, _) => (Return n, attach n i s)
                 | (Raise e, _) => (Raise e, s)
                 | (OutOfFuel, _) => (OutOfFuel, s)
                 end
          end = match _verify_hook (caller_at s n) i s with
                | (Return _, _) => (Return n, attach n i s)
                | (Raise e, _) => (Raise e, s)
                | (OutOfFuel, _) => (OutOfFuel, s)
                end) as ->.
  { by destruct (relay_lookup d0 n s) as [[?|]|]. }
  rewrite <- spec_of_caller_at.
  destruct (_verify_hook_cases (caller_at s n) i s) as [[Hok ->]|[Hno (why & ->)]].
  - by left.
  - right; left. eauto.
Qed.

(** What is attached to a hook does not change what the relay answers. *)
Lemma relay_lookup_attach n i n' s :
  relay_lookup d0 n s ≠ Some NotACaller →
  relay_lookup d0 n' s = Some NotACaller →
  relay_lookup d0 n' (attach n i s) = Some NotACaller.
Proof.
  intros Hn Hn'. unfold attach. rewrite relay_lookup_set; [done|]. congruence.
Qed.

Lemma register_loop_quiet pn impls : ∀ hookcallers s o s',
  hook_needs_discovery s = false →
  register_loop d0 pn impls hookcallers s = (o, s') →
  hooks_only s s' ∧ grows s s' ∧ (Inv s → Inv s') ∧
  match o with
  | Return hcs =>
      hcs = hookcallers ++ (impl_specname <$> impls) ∧
      ∀ j, j ∈ impls →
        verify_ok (spec_of s (impl_specname j)) (with_plugin_name pn j) ∧
        with_plugin_name pn j ∈ impls_of s' (impl_specname j)
  | Raise e => rejected_at pn impls e s s' ∨ stopped_at (rt_python d0) pn impls e s'
  | OutOfFuel => False
  end.
Proof.
  induction impls as [|i0 rest IH]; intros hcs s o s' Hq; simpl.
  - intros [= <- <-]. refine (conj (hooks_only_refl _) (conj (grows_refl _) (conj (fun H => H) _))).
    split; [by rewrite app_nil_r|]. by intros j ?%elem_of_nil.
  - unfold bind at 1.
    destruct (register_impl_quiet pn i0 s Hq)
      as [(_ & Hok & ->)|[(_ & Hno & hook & why & ->)|[Hl ->]]].
    + intros Hrun.
      assert (hook_needs_discovery (attach (impl_specname i0) (with_plugin_name pn i0) s) = false)
        as Hq' by done.
      destruct (IH _ _ _ _ Hq' Hrun) as (Hho & Hg & HI & Hout).
      pose proof (attach_grows (impl_specname i0) (with_plugin_name pn i0) s) as Hg0.
      split_and!.
      * eapply hooks_only_trans; [apply attach_hooks_only|done].
      * by eapply grows_trans.
      * intros ?. by apply HI, attach_Inv.
      * destruct o as [hcs'|e|]; [| |done].
        -- destruct Hout as [-> Hall]. split; [by rewrite <- app_assoc|].
           intros j [->|Hj]%elem_of_cons.
           ++ split; [done|]. apply Hg. apply attach_impls_of. by left.
           ++ destruct (Hall j Hj) as [Hv Hin]. split; [|done].
              by rewrite attach_spec_of in Hv.
        -- destruct Hout as [(pre & j0 & post & hook & why & -> & -> & Hno & Hpre)
                            |(pre & j0 & post & -> & -> & Hat & Hpre)].
           ++ left. exists (i0 :: pre), j0, post, hook, why. split_and!; [done|done| |].
              ** by rewrite attach_spec_of in Hno.
              ** intros j [->|Hj]%elem_of_cons; [|by apply Hpre].
                 apply Hg. apply attach_impls_of. by left.
           ++ right. exists (i0 :: pre), j0, post. split_and!; [done|done|done|].
              intros j [->|Hj]%elem_of_cons; [|by apply Hpre].
              apply Hg. apply attach_impls_of. by left.
    + intros [= <- <-]. refine (conj (hooks_only_refl _) (conj (grows_refl _) (conj (fun H => H) _))).
      left. exists [], i0, rest, hook, why. split_and!; [done|done|done|].
      by intros j ?%elem_of_nil.
    + intros [= <- <-]. refine (conj (hooks_only_refl _) (conj (grows_refl _) (conj (fun H => H) _))).
      right. exists [], i0, rest. split_and!; [done|done|by eapply relay_lookup_NotACaller|].
      by intros j ?%elem_of_nil.
Qed.
End NoDiscoveryPending.

Lemma frame_refl s : frame s s.
Proof. repeat split; auto; apply grows_refl. Qed.
Lemma frame_trans s1 s2 s3 : frame s1 s2 → frame s2 s3 → frame s1 s3.
Proof.
  intros ([A1 A1'] & B1 & C1 & D1) ([A2 A2'] & B2 & C2 & D2).
  split; [split; congruence|]. split; [set_solver|].
  split; [by eapply grows_trans | auto].
Qed.
Lemma frame_same_hooks s s' :
  hook_dict s' = hook_dict s → same_config s s' → _blocked s ⊆ _blocked s' → frame s s'.
Proof.
  intros Hh Hc Hb. split; [done|]. split; [done|].
  assert (∀ n, spec_of s' n = spec_of s n) as Hs by (intros; unfold spec_of; by rewrite Hh).
  assert (∀ n, impls_of s' n = impls_of s n) as Hi by (intros; unfold impls_of; by rewrite Hh).
  split.
  - split; [done|]. split; [intros n; by rewrite Hi | by rewrite Hh].
  - intros HI n sp i. rewrite Hs, Hi. apply HI.
Qed.
Lemma hooks_only_frame s s' :
  hooks_only s s' → grows s s' → (Inv s → Inv s') → frame s s'.
Proof.
  intros Hho Hg HI. split; [|split; [|done]].
  - rewrite Hho. by destruct s.
  - rewrite Hho. by destruct s.
Qed.
Lemma hooks_only_fields s s' :
  hooks_only s s' →
  plugins s' = plugins s ∧ _plugin2hookcallers s' = _plugin2hookcallers s ∧
  _blocked s' = _blocked s ∧ hook_needs_discovery s' = hook_needs_discovery s ∧
  discover_calls s' = discover_calls s.
Proof. intros ->. by destruct s. Qed.
Lemma quiet_refl s : hook_needs_discovery s = false → quiet s s.
Proof. intros. split; [apply frame_refl|done]. Qed.
Lemma quiet_trans s1 s2 s3 : quiet s1 s2 → quiet s2 s3 → quiet s1 s3.
Proof.
  intros (F1 & A1 & B1) (F2 & A2 & B2). split; [by eapply frame_trans|].
  split; congruence.
Qed.

Section RegisterQuiet.
Variable env : Environment.
Variable d0 : Runtime.

Lemma register_obj_quiet o name s out s' :
  hook_needs_discovery s = false →
  register_obj d0 o name s = (out, s') →
  quiet s s' ∧ _blocked s' = _blocked s ∧
  match out with
  | Return None => is_blocked (plugin_name_of o name) s = true ∧ s' = s
  | Return (Some pn) =>
      pn = plugin_name_of o name ∧ is_blocked pn s = false ∧
      is_registered_name pn s = false ∧ is_registered_obj (obj_id o) s = false ∧
      ∃ s1 hcs, hooks_only s s1 ∧ grows s s1 ∧
        s' = with_plugins (Dict.set pn o)
               (with_plugin2hookcallers (<[obj_id o := hcs]>) s1)
  | Raise e => hooks_only s s' ∧ is_blocked (plugin_name_of o name) s = false
  | OutOfFuel => False
  end.
Proof.
  intros Hq. unfold register_obj.
  destruct (is_blocked _ s) eqn:Hb.
  { intros [= <- <-]. split; [by apply quiet_refl|]. done. }
  destruct (is_registered_name _ s) eqn:Hn.
  { intros [= <- <-]. split; [by apply quiet_refl|]. split; [done|].
    split; [apply hooks_only_refl|done]. }
  destruct (is_registered_obj _ s) eqn:Ho.
  { intros [= <- <-]. split; [by apply quiet_refl|]. split; [done|].
    split; [apply hooks_only_refl|done]. }
  unfold bind at 1.
  destruct (register_loop d0 _ _ [] s) as [o1 s1] eqn:Hloop.
  destruct (register_loop_quiet d0 _ _ _ _ _ _ Hq Hloop) as (Hho & Hg & HI & Hout).
  destruct (hooks_only_fields _ _ Hho) as (Hp & Hp2 & Hbl & Hfl & Hdc).
  destruct o1 as [hcs|e|]; [| |done].
  - unfold bind, modify, ret; simpl. intros [= <- <-]. split; [|split; [done|]].
    + split; [|by split; simpl; congruence].
      eapply frame_trans; [by apply hooks_only_frame|].
      apply frame_same_hooks; [done|done|done].
    + split_and!; try done. exists s1, hcs. done.
  - intros [= <- <-]. split; [|by split].
    split; [by apply hooks_only_frame | split; congruence].
Qed.

Lemma ensure_namespace_cases cls obj s :
  (Forall (fun k => isidentifier (rt_python d0) k = true) obj.*1 ∧
     ∃ o, ensure_namespace d0 cls obj s = (Return o, s) ∧ obj_id o = cls ∧
          obj_name o = Some "orphan" ∧
          class_dir (rt_python d0) obj = Some (obj_dir o)) ∨
  (∃ bad, bad ≠ [] ∧
     bad = filter (fun k => isidentifier (rt_python d0) k = false) obj.*1 ∧
     ensure_namespace d0 cls obj s = (Raise (ValueError (InvalidIdentifiers bad)), s)) ∨
  (Forall (fun k => isidentifier (rt_python d0) k = true) obj.*1 ∧
     class_dir (rt_python d0) obj = None ∧
     ensure_namespace d0 cls obj s = (Raise TypeError, s)).
Proof.
  unfold ensure_namespace.
  destruct (filter _ obj.*1) as [|b bs] eqn:E.
  - assert (Forall (fun k => isidentifier (rt_python d0) k = true) obj.*1) as Hall.
    { apply Forall_forall. intros k Hk.
      destruct (isidentifier (rt_python d0) k) eqn:Hid; [done|].
      assert (k ∈ filter (λ k : string, isidentifier (rt_python d0) k = false) obj.*1)
        as Hin by (by apply list_elem_of_filter).
      rewrite E in Hin. by apply elem_of_nil in Hin. }
    destruct (class_dir (rt_python d0) obj) as [dir|] eqn:Hd.
    + left. split; [done|]. eauto.
    + right; right. done.
  - right; left. exists (b :: bs). done.
Qed.

Lemma register_body_quiet v name s out s' :
  hook_needs_discovery s = false →
  register_body d0 v name s = (out, s') →
  quiet s s' ∧ _blocked s' = _blocked s ∧
  match out with
  | Return None => s' = s
  | Return (Some pn) => True
  | Raise e => hooks_only s s'
  | OutOfFuel => False
  end.
Proof.
  intros Hq. destruct v as [x|cls dct|o]; simpl.
  - intros [= <- <-]. split; [by apply quiet_refl|]. split; [done|apply hooks_only_refl].
  - unfold _register_dict, bind.
    destruct (ensure_namespace_cases cls (clean_dct dct) s)
      as [[_ (o & -> & _)]|[(bad & _ & _ & ->)|(_ & _ & ->)]].
    + intros Hrun. destruct (register_obj_quiet _ _ _ _ _ Hq Hrun) as (Hqu & Hb & Hout).
      split; [done|split; [done|]].
      destruct out as [[pn|]|e|]; [done|tauto|tauto|done].
    + intros [= <- <-]. split; [by apply quiet_refl|]. split; [done|apply hooks_only_refl].
    + intros [= <- <-]. split; [by apply quiet_refl|]. split; [done|apply hooks_only_refl].
  - intros Hrun. destruct (register_obj_quiet _ _ _ _ _ Hq Hrun) as (Hqu & Hb & Hout).
    split; [done|split; [done|]].
    destruct out as [[pn|]|e|]; [done|tauto|tauto|done].
Qed.
End RegisterQuiet.

Lemma set_blocked_unregistered name s :
  is_registered_name name s = false →
  set_blocked name true s = with_blocked (fun b => {[name]} ∪ b) s.
Proof. unfold set_blocked. intros H. by rewrite (H : is_registered_name name (with_blocked _ s) = false). Qed.

Lemma quiet_block name s :
  hook_needs_discovery s = false →
  quiet s (with_blocked (fun b => {[name]} ∪ b) s).
Proof.
  intros Hq. split; [|done]. apply frame_same_hooks; [done|done|]. simpl. set_solver.
Qed.

(** *** Loading and discovery *)

Section LoadQuiet.
Variable env : Environment.
Variable d0 : Runtime.

Lemma _load_and_register_quiet t pn s out s' :
  hook_needs_discovery s = false →
  _load_and_register d0 t pn s = (out, s') →
  quiet s s' ∧ _blocked s' = _blocked s ∧
  match out with
  | Return _ => True
  | Raise e => hooks_only s s' ∧ is_PluginError e = true
  | OutOfFuel => False
  end.
Proof.
  intros Hq. unfold _load_and_register.
  assert (∀ e : Exn, quiet s s ∧ _blocked s = _blocked s ∧ (hooks_only s s ∧ true = true)) as Hstay.
  { intros _. split; [by apply quiet_refl|]. split; [done|]. split; [apply hooks_only_refl|done]. }
  destruct (tgt_load t) as [module|]; [|intros [= <- <-]; apply (Hstay TypeError)].
  unfold bind at 1.
  assert (∃ r, try_except (is_registered module)
                 (λ _, raise (PluginImportError pn)) s = (r, s) ∧
               match r with
               | Return _ => True
               | Raise e => e = PluginImportError pn
               | OutOfFuel => False
               end) as (r & -> & Hr).
  { destruct module; simpl; unfold try_except, gets, raise; simpl;
      eexists; (split; [reflexivity|done]). }
  destruct r as [b|e|]; [| |done].
  - destruct b.
    + intros [= <- <-]. split; [by apply quiet_refl|]. done.
    + destruct (is_class_or_module module).
      * unfold try_except.
        destruct (register_body d0 module pn s) as [o1 s1] eqn:Hreg.
        destruct (register_body_quiet d0 _ _ _ _ _ Hq Hreg) as (Hqu & Hb & Hout).
        destruct o1 as [x|e|]; [| |done].
        -- intros [= <- <-]. done.
        -- destruct (is_PluginError e) eqn:He; intros [= <- <-]; done.
      * intros [= <- <-]. apply (Hstay TypeError).
  - subst e. intros [= <- <-]. apply (Hstay TypeError).
Qed.

Lemma load_candidate_quiet t name ie count errors k s :
  hook_needs_discovery s = false →
  is_registered_name name s = false →
  (∀ c e s1, quiet s s1 → loader_post ie s1 (k c e s1)) →
  loader_post ie s (load_candidate d0 t name ie count errors k s).
Proof.
  intros Hq Hnr Hk. unfold load_candidate.
  destruct (_load_and_register d0 t (Some name) s) as [o1 s1] eqn:Hrun.
  destruct (_load_and_register_quiet _ _ _ _ _ Hq Hrun) as (Hqu & Hb & Hout).
  assert (∀ r s1, quiet s s1 → loader_post ie s1 r → loader_post ie s r) as Hlift.
  { intros r s2 Hq2 [Hq3 Hr]. split; [by eapply quiet_trans|done]. }
  destruct o1 as [r|e|]; [| |done].
  - eapply Hlift; [done|]. by apply Hk.
  - destruct Hout as [Hho ->].
    destruct (hooks_only_fields _ _ Hho) as (Hp & _).
    assert (is_registered_name name s1 = false) as Hnr1
      by (unfold is_registered_name in *; by rewrite Hp).
    rewrite set_blocked_unregistered by done.
    assert (quiet s (with_blocked (λ b, {[name]} ∪ b) s1)) as Hq2.
    { eapply quiet_trans; [done|]. apply quiet_block. by destruct Hqu as (_ & ? & _). }
    destruct ie.
    + eapply Hlift; [done|]. by apply Hk.
    + split; [done|]. simpl. split; [done|].
      destruct (_load_and_register_quiet _ _ _ _ _ Hq Hrun) as (_ & _ & [_ He]). done.
Qed.

Lemma load_entrypoints_loop_quiet group name ie eps : ∀ count errors s,
  hook_needs_discovery s = false →
  loader_post ie s (load_entrypoints_loop d0 group name ie eps count errors s).
Proof.
  induction eps as [|ep rest IH]; intros count errors s Hq; simpl.
  - split; [by apply quiet_refl|done].
  - destruct (ep_skipped group name ep s) eqn:Hskip; [by apply IH|].
    apply load_candidate_quiet; [done| |].
    + unfold ep_skipped in Hskip. by destruct (is_registered_name _ s); [rewrite orb_true_r in Hskip|].
    + intros c e s1 Hq1. apply IH. by destruct Hq1 as (_ & ? & _).
Qed.

Lemma load_modules_loop_quiet prefix ie mods : ∀ count errors s,
  hook_needs_discovery s = false →
  loader_post ie s (load_modules_loop d0 prefix ie mods count errors s).
Proof.
  induction mods as [|m rest IH]; intros count errors s Hq; simpl.
  - split; [by apply quiet_refl|done].
  - destruct (module_skipped prefix m s) eqn:Hskip; [by apply IH|].
    apply load_candidate_quiet; [done| |].
    + unfold module_skipped in Hskip. destruct (is_registered_name _ s); [|done].
      by rewrite orb_true_r in Hskip.
    + intros c e s1 Hq1. apply IH. by destruct Hq1 as (_ & ? & _).
Qed.

Lemma load_entrypoints_quiet group name ie s :
  hook_needs_discovery s = false →
  loader_post ie s (load_entrypoints_body env d0 group name ie s).
Proof.
  intros Hq. unfold load_entrypoints_body.
  destruct (negb _ || _); [split; [by apply quiet_refl|done]|].
  by apply load_entrypoints_loop_quiet.
Qed.

Lemma load_modules_by_prefix_quiet prefix ie s :
  hook_needs_discovery s = false →
  loader_post ie s (load_modules_by_prefix_body env d0 prefix ie s).
Proof.
  intros Hq. unfold load_modules_by_prefix_body.
  destruct (_ || negb _); [split; [by apply quiet_refl|done]|].
  by apply load_modules_loop_quiet.
Qed.

(** [discover] counts itself, clears the flag and loads without a
    nested discovery. *)
Lemma discover_body_spec ep pf ie s o s' :
  discover_body env d0 ep pf ie s = (o, s') →
  frame s s' ∧ hook_needs_discovery s' = false ∧
  discover_calls s' = S (discover_calls s) ∧
  match o with
  | Return _ => True
  | Raise e => ie = false ∧ is_PluginError e = true
  | OutOfFuel => False
  end.
Proof.
  unfold discover_body. unfold bind at 1. unfold gets at 1.
  unfold bind at 1. unfold gets at 1.
  unfold bind at 1. unfold modify at 1. unfold bind at 1. unfold modify at 1.
  set (s0 := with_needs_discovery false (count_discover s)).
  assert (frame s s0) as Hf0 by (apply frame_same_hooks; done).
  assert (hook_needs_discovery s0 = false) as Hq0 by done.
  destruct (DISABLE_ALL_PLUGINS env); [by intros [= <- <-]|].
  unfold bind at 1.
  pose proof (load_entrypoints_quiet (str_or ep (discover_entry_point s)) "" ie s0 Hq0) as H1.
  destruct (load_entrypoints_body env d0 _ "" ie s0) as [o1 s1].
  destruct H1 as [(F1 & Q1 & C1) H1]; simpl in *.
  destruct o1 as [ce|e|]; [| |done].
  - unfold bind at 1.
    pose proof (load_modules_by_prefix_quiet (str_or pf (discover_prefix s)) ie s1 Q1) as H2.
    destruct (load_modules_by_prefix_body env d0 _ ie s1) as [o2 s2].
    destruct H2 as [(F2 & Q2 & C2) H2]; simpl in *.
    assert (frame s s2) by (eapply frame_trans; [|done]; by eapply frame_trans).
    destruct o2 as [ne|e|]; [| |done]; intros [= <- <-];
      (split; [done|]); (split; [done|]); (split; [congruence|done]).
  - intros [= <- <-].
    split; [by eapply frame_trans|]. split; [done|]. split; [congruence|done].
Qed.
End LoadQuiet.

Lemma discover_spec fuel env ep pf ie s o s' :
  discover (S fuel) env ep pf ie s = (o, s') →
  frame s s' ∧ hook_needs_discovery s' = false ∧
  discover_calls s' = S (discover_calls s) ∧
  match o with
  | Return _ => True
  | Raise e => ie = false ∧ is_PluginError e = true
  | OutOfFuel => False
  end.
Proof. simpl. apply discover_body_spec. Qed.

(** The relay's access, with [discover] behind it. *)
Lemma relay_access_spec fuel env n s :
  n ∉ relay_private →
  ∃ s1, relay_access (relay_discover (S fuel) env) n s = (Return tt, s1) ∧
        frame s s1 ∧ hook_needs_discovery s1 = false ∧
        (hook_needs_discovery s = false → s1 = s) ∧
        (hook_needs_discovery s = true → discover_calls s1 = S (discover_calls s)).
Proof.
  intros Hn. unfold relay_access. rewrite bool_decide_eq_false_2 by done.
  destruct (hook_needs_discovery s) eqn:Hf.
  - unfold bind, relay_discover; cbn [rt_discover].
    destruct (discover (S fuel) env None None true s) as [o s1] eqn:Hd.
    destruct (discover_spec _ _ _ _ _ _ _ _ Hd) as (F & Q & C & Ho).
    destruct o as [r|e|]; [|by destruct Ho|done].
    exists s1. split_and!; try done.
  - exists s. split_and!; try done; apply frame_refl.
Qed.

(** Apart from the two private attributes, the name that is read
    makes no difference to the access. *)
Lemma relay_access_public d0 n n' s :
  n ∉ relay_private → n' ∉ relay_private →
  relay_access d0 n s = relay_access d0 n' s.
Proof.
  intros Hn Hn'. unfold relay_access. by rewrite !bool_decide_eq_false_2.
Qed.

Lemma relay_public_names :
  ("items" ∉ relay_private) ∧ ("values" ∉ relay_private) ∧ ("__dict__" ∉ relay_private).
Proof. unfold relay_private. split_and!; set_solver. Qed.


(** Reading an attribute of the relay: one of the two private ones is
    read as it is; any other is read once a pending discovery has
    run. *)
Lemma relay_getattr_spec fuel env n s :
  let d := relay_discover (S fuel) env in
  ∃ s1, relay_getattr d n s = (Return (relay_lookup d n s1), s1) ∧
        frame s s1 ∧
        (hook_needs_discovery s = false → s1 = s) ∧
        (if bool_decide (n ∈ relay_private) then s1 = s
         else hook_needs_discovery s1 = false ∧
              (hook_needs_discovery s = true →
               discover_calls s1 = S (discover_calls s))).
Proof.
  intros d. unfold relay_getattr, bind. case_bool_decide as Hn.
  - rewrite relay_access_private by done. exists s.
    split_and!; try done; apply frame_refl.
  - destruct (relay_access_spec fuel env n s Hn) as (s1 & Hrun & F & Q & Hs & Hc).
    fold d in Hrun. rewrite Hrun. exists s1. done.
Qed.

Lemma startswith_private n : startswith n "_" = false → n ∉ relay_private.
Proof.
  intros Hn Hin. unfold relay_private in Hin.
  repeat (apply elem_of_cons in Hin as [->|Hin]; [done|]).
  by apply elem_of_nil in Hin.
Qed.

(** *** Unregistration and blocking *)

Lemma get_name_in_unique (d : list (string * Obj)) n p :
  NoDup (obj_id <$> d.*2) → Dict.get n d = Some p → get_name_in (obj_id p) d = Some n.
Proof.
  induction d as [|[k v] d IH]; simpl; [done|].
  intros [Hni Hnd]%NoDup_cons. case_decide as Hk.
  - intros [= ->]. subst. by rewrite decide_True.
  - intros Hget. case_decide as Hid; [|by apply IH].
    exfalso. apply Hni. rewrite <- Hid.
    apply get_Some_elem in Hget.
    apply list_elem_of_fmap. exists p. split; [done|].
    apply list_elem_of_fmap. by exists (n, p).
Qed.

Lemma with_blocked_id n s :
  n ∈ _blocked s → with_blocked (fun b => {[n]} ∪ b) s = s.
Proof.
  intros Hin. destruct s as [a b c d bl f g h]; unfold with_blocked; simpl in *.
  f_equal. apply subseteq_union_1_L. by apply singleton_subseteq_l.
Qed.

Section RemovePlugin.
Variable p : ObjId.
Let step := fun st name => alter_caller (_remove_plugin p) name st.

Lemma alter_caller_hooks_only f name s : hooks_only s (alter_caller f name s).
Proof.
  unfold alter_caller. destruct (Dict.get name (hook_dict s));
    [apply hooks_only_with | apply hooks_only_refl].
Qed.

Lemma alter_remove_impls name s h x :
  x ∈ impls_of (step s name) h ↔
  x ∈ impls_of s h ∧ (h = name → impl_plugin x ≠ p).
Proof.
  unfold step, alter_caller.
  destruct (Dict.get name (hook_dict s)) as [c|] eqn:Hc.
  - rewrite impls_of_set. case_decide as Hn.
    + subst h. rewrite elem_of_remove_plugin. unfold impls_of. rewrite Hc. naive_solver.
    + naive_solver.
  - split; [|naive_solver]. intros Hx. split; [done|]. intros ->.
    unfold impls_of in Hx. rewrite Hc in Hx. by apply elem_of_nil in Hx.
Qed.

Lemma alter_remove_spec name s h : spec_of (step s name) h = spec_of s h.
Proof.
  unfold step, alter_caller.
  destruct (Dict.get name (hook_dict s)) as [c|] eqn:Hc; [|done].
  rewrite spec_of_set. case_decide; [subst|done]. unfold spec_of. by rewrite Hc.
Qed.

Lemma foldl_remove_hooks_only l : ∀ s, hooks_only s (foldl step s l).
Proof.
  induction l as [|name l IH]; intros s; simpl; [apply hooks_only_refl|].
  eapply hooks_only_trans; [apply alter_caller_hooks_only | apply IH].
Qed.

Lemma foldl_remove_impls l : ∀ s h x,
  x ∈ impls_of (foldl step s l) h ↔
  x ∈ impls_of s h ∧ (h ∈ l → impl_plugin x ≠ p).
Proof.
  induction l as [|name l IH]; intros s h x; simpl.
  - split; [|tauto]. intros ?. split; [done|]. by intros ?%elem_of_nil.
  - rewrite IH, alter_remove_impls. rewrite elem_of_cons. naive_solver.
Qed.

Lemma foldl_remove_spec l : ∀ s h, spec_of (foldl step s l) h = spec_of s h.
Proof.
  induction l as [|name l IH]; intros s h; simpl; [done|].
  by rewrite IH, alter_remove_spec.
Qed.
End RemovePlugin.

Lemma register_obj_unblocked d0 o name s :
  is_blocked (plugin_name_of o name) s = false →
  (register_obj d0 o name s).1 ≠ Return None.
Proof.
  intros Hb. unfold register_obj. rewrite Hb.
  destruct (is_registered_name _ s); [done|].
  destruct (is_registered_obj _ s); [done|].
  unfold bind at 1. destruct (register_loop _ _ _ _ s) as [[hcs|e|] s1]; done.
Qed.

Lemma register_unblocked fuel env v name s :
  is_blocked (target_name v name) s = false →
  (register fuel env v name s).1 ≠ Return None.
Proof.
  intros Hb. unfold register. destruct v as [x|cls dct|o]; simpl; [done| |].
  - unfold _register_dict, bind.
    destruct (ensure_namespace_cases (relay_discover fuel env) cls (clean_dct dct) s)
      as [[_ (o & -> & Hid & Hnm & _)]|[(bad & _ & _ & ->)|(_ & _ & ->)]]; [|done|done].
    apply register_obj_unblocked.
    unfold plugin_name_of, get_canonical_name. by rewrite Hnm.
  - by apply register_obj_unblocked.
Qed.

Lemma plugin_name_of_orphan o name :
  obj_name o = Some "orphan" → plugin_name_of o name = str_or name "orphan".
Proof. unfold plugin_name_of, get_canonical_name. by intros ->. Qed.

Lemma register_blocked fuel env v name s :
  well_formed_namespace (interpreter env) v = true →
  is_blocked (target_name v name) s = true →
  register fuel env v name s = (Return None, s).
Proof.
  intros Hwf Hb. unfold register. destruct v as [x|cls dct|o]; simpl; [done| |].
  - unfold _register_dict, bind. simpl in Hwf. apply andb_true_iff in Hwf as [Hwf Hty].
    destruct (ensure_namespace_cases (relay_discover fuel env) cls (clean_dct dct) s)
      as [[_ (o & -> & Hid & Hnm & _)]|[(bad & Hne & Hbad & ->)|(_ & Hno & ->)]].
    + unfold register_obj. rewrite (plugin_name_of_orphan _ _ Hnm).
      simpl in Hb. by rewrite Hb.
    + exfalso. destruct bad as [|b bs]; [done|].
      unfold relay_discover in Hbad; cbn [rt_python] in Hbad.
      assert (b ∈ filter (λ k : string, isidentifier (interpreter env) k = false)
                    (clean_dct dct).*1) as Hin
        by (rewrite <- Hbad; left).
      apply list_elem_of_filter in Hin as [Hf Hin].
      apply (proj1 (List.forallb_forall _ _)) with (x := b) in Hwf;
        [congruence | by apply list_elem_of_In].
    + exfalso. simpl in Hno. rewrite Hno in Hty.
      apply bool_decide_eq_true in Hty. by destruct Hty.
  - unfold register_obj. simpl in Hb. by rewrite Hb.
Qed.

Lemma set_blocked_registered n p s :
  plugins_wf s → Dict.get n (plugins s) = Some p →
  set_blocked n true s =
    foldl (fun st name => alter_caller (_remove_plugin (obj_id p)) name st)
      (with_plugin2hookcallers (delete (obj_id p))
         (with_plugins (Dict.del n) (with_blocked (fun b => {[n]} ∪ b) s)))
      (default [] (_plugin2hookcallers s !! obj_id p)).
Proof.
  intros [Hk Hv] Hget. unfold set_blocked.
  assert (is_registered_name n (with_blocked (λ b, {[n]} ∪ b) s) = true) as ->.
  { unfold is_registered_name, Dict.mem; simpl. rewrite Hget. by apply bool_decide_eq_true. }
  unfold unregister, _ensure_plugin; simpl. rewrite Hget; simpl.
  unfold get_name; simpl. by rewrite (get_name_in_unique _ _ _ Hv Hget).
Qed.

(** *** The audit of pending hooks *)

Lemma check_pending_loop_quiet d0 s names :
  hook_needs_discovery s = false →
  (∀ n, n ∈ names → is_Some (Dict.get n (hook_dict s))) →
  ∃ o, check_pending_loop d0 names s = (o, s) ∧
    ((o = Return tt ∧ ∀ n i, n ∈ names → ¬ pending s n i) ∨
     (∃ n i, n ∈ names ∧ pending s n i ∧
        o = Raise (PluginValidationError i n UnknownHook))).
Proof.
  intros Hq. induction names as [|name rest IH]; intros Hkeys; simpl.
  - exists (Return tt). split; [done|]. left. split; [done|]. by intros n i ?%elem_of_nil.
  - assert (∀ n, n ∈ rest → is_Some (Dict.get n (hook_dict s))) as Hrest
      by (intros; apply Hkeys; by right).
    destruct (IH Hrest) as (o & Hrun & Ho).
    assert ((∀ i, ¬ pending s name i) →
      ∃ o, check_pending_loop d0 rest s = (o, s) ∧
        ((o = Return tt ∧ ∀ n i, n ∈ name :: rest → ¬ pending s n i) ∨
         (∃ n i, n ∈ name :: rest ∧ pending s n i ∧
            o = Raise (PluginValidationError i n UnknownHook)))) as Hskip.
    { intros Hno. exists o. split; [done|].
      destruct Ho as [[-> Hall]|(n & i & Hin & Hp & ->)].
      - left. split; [done|]. intros n i [->|?]%elem_of_cons; [apply Hno | by apply Hall].
      - right. exists n, i. split; [by right|done]. }
    destruct (startswith name "_") eqn:Hus.
    { apply Hskip. intros i [? _]. congruence. }
    unfold bind at 1. rewrite relay_getattr_quiet by done.
    destruct (Hkeys name) as [hook Hhook]; [left|].
    assert (relay_lookup d0 name s = Some (Caller hook)) as ->.
    { unfold relay_lookup.
      rewrite bool_decide_eq_false_2 by (by apply startswith_private).
      by rewrite Hhook. }
    destruct (has_spec hook) eqn:Hsp.
    { apply Hskip. intros i (_ & Hs & _). unfold spec_of in Hs. rewrite Hhook in Hs.
      simpl in Hs. unfold has_spec in Hsp. by rewrite Hs in Hsp. }
    destruct (List.find _ (get_hookimpls hook)) as [i|] eqn:Hfind.
    + eexists. split; [reflexivity|].
      right. exists name, i. split; [left|]. split; [|done].
      apply List.find_some in Hfind as [Hin Hopt].
      split; [done|]. split; [|split].
      * unfold spec_of. rewrite Hhook. simpl. unfold has_spec in Hsp.
        by destruct (hc_spec hook).
      * unfold impls_of. rewrite Hhook. by apply list_elem_of_In.
      * by apply negb_true_iff.
    + apply Hskip. intros i (_ & _ & Hin & Hopt).
      unfold impls_of in Hin. rewrite Hhook in Hin.
      apply list_elem_of_In in Hin.
      pose proof (List.find_none _ _ Hfind _ Hin) as Hf. simpl in Hf.
      rewrite Hopt in Hf. done.
Qed.

(** *** Registration, with a discovery that may be pending *)

Section WithDiscovery.
Variable fuel : nat.
Variable env : Environment.
Let d := relay_discover (S fuel) env.

Lemma register_impl_access pn i0 s :
  impl_specname i0 ∉ relay_private →
  ∃ s1, frame s s1 ∧
        hook_needs_discovery s1 = false ∧
        (hook_needs_discovery s = false → s1 = s) ∧
        register_impl d pn i0 s = register_impl d pn i0 s1 ∧
        relay_access d (impl_specname i0) s = (Return tt, s1).
Proof.
  intros Hn.
  destruct (relay_access_spec fuel env (impl_specname i0) s Hn) as (s1 & Ha & F & Q & Hs & _).
  exists s1. split_and!; try done.
  unfold register_impl, relay_getattr, bind. fold d in Ha. cbn [impl_specname with_plugin_name].
  rewrite Ha. by rewrite (relay_access_quiet d _ s1 Q).
Qed.

(** The two private attributes of the relay are read without a
    discovery, and neither is a hook caller. *)
Lemma register_impl_private pn i0 s :
  impl_specname i0 ∈ relay_private →
  register_impl d pn i0 s = (Raise AttributeError, s).
Proof.
  intros Hn. unfold register_impl, relay_getattr, bind.
  cbn [impl_specname with_plugin_name].
  rewrite relay_access_private by done. unfold gets, relay_lookup.
  by rewrite bool_decide_eq_true_2.
Qed.

Lemma register_loop_gen pn impls hcs s out s' :
  register_loop d pn impls hcs s = (out, s') →
  ∃ s1, frame s s1 ∧ (hook_needs_discovery s = false → s1 = s) ∧
        hooks_only s1 s' ∧ frame s s' ∧
        match out with
        | Return hcs' =>
            hcs' = hcs ++ (impl_specname <$> impls) ∧ registered_all pn impls s s'
        | Raise e =>
            rejected_at pn impls e s s' ∨ stopped_at (interpreter env) pn impls e s'
        | OutOfFuel => False
        end.
Proof.
  destruct impls as [|i0 rest].
  - simpl. intros [= <- <-]. exists s.
    split_and!; [apply frame_refl|done|apply hooks_only_refl|apply frame_refl
                |by rewrite app_nil_r|by intros j ?%elem_of_nil].
  - destruct (decide (impl_specname i0 ∈ relay_private)) as [Hp|Hp].
    { cbn [register_loop]. unfold bind at 1. rewrite register_impl_private by done.
      intros [= <- <-]. exists s.
      split_and!; [apply frame_refl|done|apply hooks_only_refl|apply frame_refl|].
      right. exists [], i0, rest. split_and!; [done|done| |by intros j ?%elem_of_nil].
      unfold is_relay_attribute. by rewrite bool_decide_eq_true_2. }
    destruct (register_impl_access pn i0 s Hp) as (s1 & F & Q & Hs & Heq & _).
    cbn [register_loop]. unfold bind at 1. rewrite Heq. intros Hrun.
    assert (register_loop d pn (i0 :: rest) hcs s1 = (out, s')) as Hrun1 by done.
    destruct (register_loop_quiet d _ _ _ _ _ _ Q Hrun1) as (Hho & Hg & HI & Hout).
    assert (frame s1 s') as F1 by (by apply hooks_only_frame).
    destruct F as (Fc & Fb & Fg & FI).
    assert (∀ n, spec_of s1 n = spec_of s n) as Hsp by apply Fg.
    exists s1. split_and!; try done.
    { by eapply frame_trans. }
    destruct out as [hcs'|e|]; [| |done].
    + destruct Hout as [-> Hall]. split; [done|].
      intros j Hj. destruct (Hall j Hj) as [Hv Hin].
      by rewrite Hsp in Hv.
    + destruct Hout as [(pre & j0 & post & hook & why & Himpls & -> & Hno & Hpre)|Hst].
      * left. exists pre, j0, post, hook, why. split_and!; try done. by rewrite Hsp in Hno.
      * by right.
Qed.

Lemma register_obj_gen o name s out s' :
  register_obj d o name s = (out, s') →
  let pn := plugin_name_of o name in
  frame s s' ∧
  match out with
  | Return None => is_blocked pn s = true ∧ s' = s
  | Return (Some pn') =>
      pn' = pn ∧ is_blocked pn s = false ∧
      registered_all pn (iter_implementations o) s s' ∧
      Dict.get pn (plugins s') = Some o ∧
      is_Some (_plugin2hookcallers s' !! obj_id o)
  | Raise e =>
      is_blocked pn s = false ∧
      ((∃ why, e = ValueError why ∧ s' = s ∧
          (is_registered_name pn s = true ∨ is_registered_obj (obj_id o) s = true)) ∨
       ((rejected_at pn (iter_implementations o) e s s' ∨
         stopped_at (interpreter env) pn (iter_implementations o) e s') ∧
        is_registered_name pn s = false ∧ is_registered_obj (obj_id o) s = false ∧
        ∃ s1, frame s s1 ∧ (hook_needs_discovery s = false → s1 = s) ∧
              hooks_only s1 s'))
  | OutOfFuel => False
  end.
Proof.
  intros Hrun pn. revert Hrun. unfold register_obj. fold pn.
  destruct (is_blocked pn s) eqn:Hb.
  { intros [= <- <-]. split; [apply frame_refl|done]. }
  destruct (is_registered_name pn s) eqn:Hn.
  { intros [= <- <-]. split; [apply frame_refl|]. split; [done|]. left. eauto. }
  destruct (is_registered_obj _ s) eqn:Ho.
  { intros [= <- <-]. split; [apply frame_refl|]. split; [done|]. left. eauto. }
  unfold bind at 1.
  destruct (register_loop d pn _ [] s) as [o1 s2] eqn:Hloop.
  destruct (register_loop_gen _ _ _ _ _ _ Hloop) as (s1 & F1 & Hs & Hho & F2 & Hout).
  destruct o1 as [hcs|e|]; [| |done].
  - unfold bind, modify, ret; simpl. intros [= <- <-]. split.
    + eapply frame_trans; [done|]. by apply frame_same_hooks.
    + destruct Hout as [_ Hout]. split_and!; try done.
      * simpl. apply get_set_eq.
      * simpl. rewrite lookup_insert_eq. eauto.
  - intros [= <- <-]. split; [done|]. split; [done|]. right. split_and!; try done.
    exists s1. done.
Qed.

Lemma register_gen v name s out s' :
  register (S fuel) env v name s = (out, s') →
  frame s s' ∧ out ≠ OutOfFuel.
Proof.
  unfold register. fold d. destruct v as [x|cls dct|o]; simpl.
  - intros [= <- <-]. split; [apply frame_refl|done].
  - unfold _register_dict, bind.
    destruct (ensure_namespace_cases d cls (clean_dct dct) s)
      as [[_ (o & -> & _)]|[(bad & _ & _ & ->)|(_ & _ & ->)]].
    + intros Hrun. destruct (register_obj_gen _ _ _ _ _ Hrun) as [F Hout].
      split; [done|]. by destruct out.
    + intros [= <- <-]. split; [apply frame_refl|done].
    + intros [= <- <-]. split; [apply frame_refl|done].
  - intros Hrun. destruct (register_obj_gen _ _ _ _ _ Hrun) as [F Hout].
    split; [done|]. by destruct out.
Qed.
End WithDiscovery.

(** *** Declaration of specifications *)

Section DeclareOne.
Variable fuel : nat.
Variable env : Environment.
Let d := relay_discover (S fuel) env.

Lemma add_hookspec_gen name m opts s out s' :
  add_hookspec d name m opts s = (out, s') →
  ∃ s1, frame s s1 ∧
    (hook_needs_discovery s = false → s1 = s) ∧
    match relay_lookup d name s1 with
    | None =>
        out = Return tt ∧
        s' = with_hook_dict (Dict.set name (new_caller_with_spec name m opts)) s1
    | Some NotACaller => out = Raise AttributeError ∧ s' = s1
    | Some (Caller c) =>
        Dict.get name (hook_dict s1) = Some c ∧
        match hc_spec c with
        | Some _ => out = Raise AssertionError ∧ s' = s1
        | None =>
            s' = with_hook_dict (Dict.set name (bind_spec m opts c)) s1 ∧
            ((Forall (verify_ok (Some (new_spec m opts))) (hc_impls c) ∧
                out = Return tt) ∨
             (∃ i why, i ∈ hc_impls c ∧ ¬ verify_ok (Some (new_spec m opts)) i ∧
                out = Raise (PluginValidationError i (hc_name c) why)))
        end
    end.
Proof.
  destruct (relay_getattr_spec fuel env name s) as (s1 & Ha & F & Hs & _).
  fold d in Ha. intros Hrun. exists s1. split_and!; try done.
  revert Hrun. unfold add_hookspec, bind. rewrite Ha.
  destruct (relay_lookup d name s1) as [[c|]|] eqn:Hc.
  - assert (Dict.get name (hook_dict s1) = Some c) as Hget.
    { destruct (relay_lookup_cases d name s1) as [Hl|[_ Hl]]; [congruence|].
      rewrite Hc in Hl. destruct (Dict.get name (hook_dict s1)); [|done].
      simpl in Hl. congruence. }
    split; [done|]. revert Hrun.
    unfold set_specification. destruct (hc_spec c) as [sp|] eqn:Hsp.
    + by intros [= <- <-].
    + unfold relay_setattr, modify. fold (bind_spec m opts c).
      set (s2 := with_hook_dict _ s1).
      destruct (verify_all_cases (bind_spec m opts c) (get_hookimpls (bind_spec m opts c)) s2)
        as [[Hall ->]|(i & why & Hin & Hno & ->)]; intros [= <- <-].
      * split; [done|]. by left.
      * split; [done|]. right. exists i, why. done.
  - by intros [= <- <-].
  - unfold relay_setattr, modify. by intros [= <- <-].
Qed.

(** What one declaration keeps, and how it ends on a hook that was
    not bound. *)
Lemma add_hookspec_facts name m opts s out s' :
  add_hookspec d name m opts s = (out, s') →
  same_config s s' ∧ _blocked s ⊆ _blocked s' ∧
  (∀ n, n ≠ name → spec_of s' n = spec_of s n) ∧
  (∀ n, impls_of s n ⊆ impls_of s' n) ∧
  (out ≠ OutOfFuel) ∧
  ((∀ e, out = Raise e → is_validation_failure e = false) → Inv s → Inv s') ∧
  (spec_of s name = None →
     (out = Return tt ∧ spec_of s' name = Some (new_spec m opts) ∧
      ∀ i, i ∈ impls_of s' name → verify_ok (Some (new_spec m opts)) i) ∨
     (∃ i hook why, out = Raise (PluginValidationError i hook why) ∧
           spec_of s' name = Some (new_spec m opts) ∧
           i ∈ impls_of s' name ∧ ¬ verify_ok (Some (new_spec m opts)) i) ∨
     (out = Raise AttributeError ∧ is_relay_attribute (interpreter env) name = true)) ∧
  (∀ e, out = Raise e → is_validation_failure e = false →
        frame s s' ∧ (hook_needs_discovery s = false → s' = s)).
Proof.
  intros Hrun.
  destruct (add_hookspec_gen _ _ _ _ _ _ Hrun) as (s1 & F & Hq & Hcase).
  pose proof F as (Fc & Fb & (Fs & Fi & Fe) & FI).
  assert (∀ c', (∀ c, Dict.get name (hook_dict s1) = Some c → hc_impls c' = hc_impls c) →
                (Dict.get name (hook_dict s1) = None → hc_impls c' = []) →
                ∀ n, impls_of s n ⊆ impls_of (with_hook_dict (Dict.set name c') s1) n)
    as Himpls.
  { intros c' Hsome Hnone n x Hx. apply Fi in Hx. rewrite impls_of_set.
    case_decide; [subst n|done]. unfold impls_of in Hx.
    destruct (Dict.get name (hook_dict s1)) as [c|] eqn:Hc.
    - by rewrite (Hsome c).
    - by apply elem_of_nil in Hx. }
  assert (∀ c', ∀ n, n ≠ name →
            spec_of (with_hook_dict (Dict.set name c') s1) n = spec_of s n) as Hspec.
  { intros c' n Hne. rewrite spec_of_set, decide_False by done. apply Fs. }
  assert (∀ c', (∀ sp i, hc_spec c' = Some sp → i ∈ hc_impls c' → args_within i sp) →
            Inv s → Inv (with_hook_dict (Dict.set name c') s1)) as HInv.
  { intros c' Hc' HI n sp i. rewrite spec_of_set, impls_of_set.
    case_decide; [by apply Hc'|]. by apply FI. }
  destruct (relay_lookup d name s1) as [[c|]|] eqn:Hl.
  - destruct Hcase as [Hc Hcase].
    destruct (hc_spec c) as [sp|] eqn:Hsp.
    + destruct Hcase as [-> ->].
      refine (conj Fc (conj Fb (conj _ (conj Fi (conj _ (conj _ (conj _ _))))))).
      * intros n _. apply Fs.
      * done.
      * intros Hno. by specialize (Hno _ eq_refl).
      * intros Hnone. rewrite <- Fs in Hnone. unfold spec_of in Hnone.
        rewrite Hc in Hnone. simpl in Hnone. congruence.
      * intros e [= <-] _. done.
    + destruct Hcase as [-> Hout].
      assert (hc_impls c = impls_of s1 name) as Hci by (unfold impls_of; by rewrite Hc).
      assert (impls_of (with_hook_dict (Dict.set name (bind_spec m opts c)) s1) name
              = hc_impls c) as Hci'.
      { rewrite impls_of_set. by rewrite decide_True. }
      refine (conj Fc (conj Fb (conj _ (conj _ (conj _ (conj _ (conj _ _))))))).
      * by apply Hspec.
      * apply Himpls; [|intros; congruence].
        intros c0 Hc0. rewrite Hc in Hc0. by injection Hc0 as <-.
      * by destruct Hout as [[_ ->]|(? & ? & _ & _ & ->)].
      * intros Hno. apply HInv. simpl. intros sp i [= <-] Hin.
        destruct Hout as [[Hall _]|(i' & why & _ & _ & ->)].
        -- rewrite Forall_forall in Hall. by destruct (Hall i Hin).
        -- by specialize (Hno _ eq_refl).
      * intros _.
        assert (spec_of (with_hook_dict (Dict.set name (bind_spec m opts c)) s1) name
                = Some (new_spec m opts)) as Hnew.
        { rewrite spec_of_set. by rewrite decide_True. }
        destruct Hout as [[Hall ->]|(i' & why & Hin' & Hno' & ->)].
        -- left. split; [done|]. split; [done|]. intros i Hi.
           rewrite Hci' in Hi. rewrite Forall_forall in Hall. by apply Hall.
        -- right; left. exists i', (hc_name c), why. rewrite Hci'. done.
      * intros e He Hv. destruct Hout as [[_ ->]|(i' & why & _ & _ & ->)]; [done|].
        injection He as <-. done.
  - destruct Hcase as [-> ->].
    refine (conj Fc (conj Fb (conj _ (conj Fi (conj _ (conj _ (conj _ _))))))).
    + intros n _. apply Fs.
    + done.
    + intros _. apply FI.
    + intros _. right; right. split; [done|].
      by apply (relay_lookup_NotACaller d) in Hl.
    + intros e _ _. done.
  - destruct Hcase as [-> ->].
    assert (Dict.get name (hook_dict s1) = None) as Hc.
    { destruct (relay_lookup_cases d name s1) as [Hl'|[_ Hl']]; [congruence|].
      rewrite Hl in Hl'. by destruct (Dict.get name (hook_dict s1)). }
    refine (conj Fc (conj Fb (conj _ (conj _ (conj _ (conj _ (conj _ _))))))).
    + by apply Hspec.
    + apply Himpls; [|done]. intros c Hc'. congruence.
    + done.
    + intros _. apply HInv. simpl. by intros sp i _ ?%elem_of_nil.
    + intros _. left. split; [done|]. split.
      * rewrite spec_of_set. by rewrite decide_True.
      * intros i Hi. rewrite impls_of_set, decide_True in Hi by done.
        by apply elem_of_nil in Hi.
    + intros e [=].
Qed.

Lemma add_hookspec_rejects name m opts s i out s' :
  spec_of s name = None →
  i ∈ impls_of s name →
  ¬ verify_ok (Some (new_spec m opts)) i →
  add_hookspec d name m opts s = (out, s') →
  ∃ e, out = Raise e ∧
       ((is_validation_failure e = true ∧
         spec_of s' name = Some (new_spec m opts) ∧ i ∈ impls_of s' name) ∨
        (e = AttributeError ∧ is_relay_attribute (interpreter env) name = true)).
Proof.
  intros Hnone Hi Hno Hrun.
  destruct (add_hookspec_facts _ _ _ _ _ _ Hrun) as (_ & _ & _ & Hin & _ & _ & Hcase & _).
  destruct (Hcase Hnone) as [(-> & _ & Hall)|[(i' & hook & why & -> & Hs & _)|[-> Hat]]].
  - destruct Hno. apply Hall. by apply Hin.
  - eexists. split; [done|]. left. split_and!; try done. by apply Hin.
  - eexists. split; [done|]. by right.
Qed.
End DeclareOne.

Section DeclareLoop.
Variable fuel : nat.
Variable env : Environment.
Let d := relay_discover (S fuel) env.

Lemma declares_hooks_tail py a rest :
  declares_hooks py (a :: rest) → declares_hooks py rest.
Proof. intros H n m opts [Hin Hsp]. apply (H n m opts). split; [by right|done]. Qed.

Lemma undeclared_tail a rest s : undeclared (a :: rest) s → undeclared rest s.
Proof. intros H n m opts [Hin Hsp]. apply (H n m opts). split; [by right|done]. Qed.

Lemma add_hookspecs_loop_rejects attrs : ∀ names s n m opts i,
  NoDup attrs.*1 → declares attrs n m opts → undeclared attrs s →
  i ∈ impls_of s n → ¬ verify_ok (Some (new_spec m opts)) i →
  ∃ e s', add_hookspecs_loop d attrs names s = (Raise e, s') ∧
          (is_validation_failure e = true ∨
           (e = AttributeError ∧ ¬ declares_hooks (interpreter env) attrs)).
Proof.
  induction attrs as [|[name a] rest IH];
    intros names s n m opts i Hnd [Hin Hsp] Hun Hi Hno.
  { by apply elem_of_nil in Hin. }
  apply NoDup_cons in Hnd as [Hfresh Hnd].
  assert (∀ n' m', (n', ARoutine m') ∈ rest → n' ≠ name) as Hne.
  { intros n' m' Hin' ->. apply Hfresh. apply list_elem_of_fmap. by exists (name, ARoutine m'). }
  pose proof (undeclared_tail _ _ _ Hun) as Hun'.
  assert (∀ e, (is_validation_failure e = true ∨
                (e = AttributeError ∧ ¬ declares_hooks (interpreter env) rest)) →
               (is_validation_failure e = true ∨
                (e = AttributeError ∧
                 ¬ declares_hooks (interpreter env) ((name, a) :: rest)))) as Hlift.
  { intros e [?|[-> Hnd']]; [by left|right]. split; [done|].
    intros H. by apply Hnd', (declares_hooks_tail _ _ _ H). }
  assert (∀ names s, undeclared rest s → i ∈ impls_of s n → (n, ARoutine m) ∈ rest →
            ∃ e s', add_hookspecs_loop d rest names s = (Raise e, s') ∧
              (is_validation_failure e = true ∨
               (e = AttributeError ∧
                ¬ declares_hooks (interpreter env) ((name, a) :: rest)))) as Hrest.
  { intros names0 s0 Hun0 Hi0 Hin0.
    destruct (IH names0 s0 n m opts i Hnd (conj Hin0 Hsp) Hun0 Hi0 Hno) as (e & s' & Hr & He).
    exists e, s'. split; [done|]. by apply Hlift. }
  apply elem_of_cons in Hin as [[= <- <-]|Hin].
  - (* the head is the declaration of [n] *)
    simpl. rewrite Hsp. unfold bind at 1.
    destruct (add_hookspec d n m opts s) as [out s1] eqn:Hrun.
    destruct (add_hookspec_rejects fuel env _ _ _ _ i _ _
                (Hun n m opts (conj (list_elem_of_here _ _) Hsp)) Hi Hno Hrun)
      as (e & -> & [(He & _)|[-> Hat]]).
    + eauto.
    + exists AttributeError, s1. split; [done|]. right. split; [done|].
      intros H. rewrite (H n m opts) in Hat; [done|]. split; [left|done].
  - destruct a as [|m']; simpl; [by apply Hrest|].
    destruct (fn_spec m') as [opts'|] eqn:Hsp'; [|by apply Hrest].
    unfold bind at 1.
    destruct (add_hookspec d name m' opts' s) as [out s1] eqn:Hrun.
    destruct (add_hookspec_facts fuel env _ _ _ _ _ _ Hrun)
      as (_ & _ & Hspec & Himpls & Hfuel & _ & Hcase & _).
    destruct (Hcase (Hun name m' opts' (conj (list_elem_of_here _ _) Hsp')))
      as [(-> & _)|[(i' & hook & why & -> & _)|[-> Hat]]].
    + apply Hrest; [|by apply Himpls|done].
      intros n' m'' o' [Hin' Hsp'']. rewrite Hspec by by eapply Hne.
      by apply (Hun' n' m'' o').
    + eauto.
    + exists AttributeError, s1. split; [done|]. right. split; [done|].
      intros H. rewrite (H name m' opts') in Hat; [done|]. split; [left|done].
Qed.

(** How the loop ends on hooks that were not bound: it returns, or it
    stops at a declared hook with a validation failure for an
    implementation that is attached to it and that the new
    specification does not admit. *)
Lemma add_hookspecs_loop_stops attrs : ∀ names s out s',
  NoDup attrs.*1 → undeclared attrs s → declares_hooks (interpreter env) attrs →
  add_hookspecs_loop d attrs names s = (out, s') →
  match out with
  | Return _ => True
  | Raise e =>
      ∃ n m opts i hook why,
        declares attrs n m opts ∧ e = PluginValidationError i hook why ∧
        spec_of s' n = Some (new_spec m opts) ∧
        i ∈ impls_of s' n ∧ ¬ verify_ok (Some (new_spec m opts)) i
  | OutOfFuel => False
  end.
Proof.
  induction attrs as [|[name a] rest IH]; intros names s out s' Hnd Hun Hdh.
  { simpl. by intros [= <- <-]. }
  apply NoDup_cons in Hnd as [Hfresh Hnd].
  pose proof (undeclared_tail _ _ _ Hun) as Hun'.
  pose proof (declares_hooks_tail _ _ _ Hdh) as Hdh'.
  assert (∀ out s', add_hookspecs_loop d rest names s = (out, s') →
            match out with
            | Return _ => True
            | Raise e =>
                ∃ n m opts i hook why,
                  declares ((name, a) :: rest) n m opts ∧
                  e = PluginValidationError i hook why ∧
                  spec_of s' n = Some (new_spec m opts) ∧
                  i ∈ impls_of s' n ∧ ¬ verify_ok (Some (new_spec m opts)) i
            | OutOfFuel => False
            end) as Hskip.
  { intros out0 s0 Hrun. specialize (IH _ _ _ _ Hnd Hun' Hdh' Hrun).
    destruct out0 as [?|e|]; [done| |done].
    destruct IH as (n & m & opts & i & hook & why & [Hin Hsp] & IH).
    exists n, m, opts, i, hook, why. split; [|done]. split; [by right|done]. }
  simpl. destruct a as [|m]; [apply Hskip|].
  destruct (fn_spec m) as [opts|] eqn:Hsp; [|apply Hskip].
  unfold bind at 1.
  destruct (add_hookspec d name m opts s) as [o1 s1] eqn:Hrun.
  destruct (add_hookspec_facts fuel env _ _ _ _ _ _ Hrun)
    as (_ & _ & Hspec & Himpls & Hfuel & _ & Hcase & _).
  destruct (Hcase (Hun name m opts (conj (list_elem_of_here _ _) Hsp)))
    as [(-> & _)|[(i' & hook & why & -> & Hb & Hi' & Hno')|[_ Hat]]];
    [| |by rewrite (Hdh name m opts (conj (list_elem_of_here _ _) Hsp)) in Hat].
  - intros Hloop.
    assert (undeclared rest s1) as Hun1.
    { intros n' m'' o' [Hin' Hsp'']. rewrite Hspec; [by apply (Hun' n' m'' o')|].
      intros ->. apply Hfresh. apply list_elem_of_fmap. by exists (name, ARoutine m''). }
    specialize (IH _ _ _ _ Hnd Hun1 Hdh' Hloop).
    destruct out as [?|e|]; [done| |done].
    destruct IH as (n & m0 & opts0 & i & hook & why & [Hin Hsp0] & IH).
    exists n, m0, opts0, i, hook, why. split; [|done]. split; [by right|done].
  - intros [= <- <-]. exists name, m, opts, i', hook, why.
    split; [split; [left|done]|done].
Qed.

Lemma add_hookspecs_loop_Inv attrs : ∀ names s out s',
  add_hookspecs_loop d attrs names s = (out, s') →
  out ≠ OutOfFuel ∧
  ((∀ e, out = Raise e → is_validation_failure e = false) → Inv s → Inv s').
Proof.
  induction attrs as [|[name a] rest IH]; intros names s out s'; simpl.
  { by intros [= <- <-]. }
  destruct a as [|m]; [apply IH|].
  destruct (fn_spec m) as [opts|]; [|apply IH].
  unfold bind at 1.
  destruct (add_hookspec d name m opts s) as [o1 s1] eqn:Hrun.
  destruct (add_hookspec_facts fuel env _ _ _ _ _ _ Hrun)
    as (_ & _ & _ & _ & Hfuel & HI & _ & _).
  destruct o1 as [[]|e|]; [| |done].
  - intros Hloop. destruct (IH _ _ _ _ Hloop) as [Hf HI']. split; [done|].
    intros Hno Hs. apply HI'; [done|]. by apply HI.
  - intros [= <- <-]. split; [done|]. intros Hno Hs. apply HI; [|done].
    intros e' [= <-]. by apply Hno.
Qed.

Lemma add_hookspecs_Inv ns s out s' :
  add_hookspecs (S fuel) env ns s = (out, s') →
  out ≠ OutOfFuel ∧
  ((∀ e, out = Raise e → is_validation_failure e = false) → Inv s → Inv s').
Proof.
  unfold add_hookspecs, add_hookspecs_body. fold d. unfold bind at 1.
  destruct (add_hookspecs_loop d (obj_dir ns) [] s) as [o1 s1] eqn:Hloop.
  destruct (add_hookspecs_loop_Inv _ _ _ _ _ Hloop) as [Hf HI].
  destruct o1 as [names|e|]; [| |done].
  - destruct names; intros [= <- <-]; (split; [done|]); intros _; by apply HI.
  - intros [= <- <-]. split; [done|]. intros Hno. apply HI.
    intros e' [= <-]. by apply Hno.
Qed.

Lemma add_hookspecs_rejects ns s n m opts i :
  NoDup (obj_dir ns).*1 → declares (obj_dir ns) n m opts →
  undeclared (obj_dir ns) s →
  i ∈ impls_of s n → ¬ verify_ok (Some (new_spec m opts)) i →
  ∃ e s', add_hookspecs (S fuel) env ns s = (Raise e, s') ∧
          (is_validation_failure e = true ∨
           (e = AttributeError ∧ ¬ declares_hooks (interpreter env) (obj_dir ns))).
Proof.
  intros Hnd Hdec Hun Hi Hno.
  unfold add_hookspecs, add_hookspecs_body. fold d. unfold bind at 1.
  destruct (add_hookspecs_loop_rejects _ [] s n m opts i Hnd Hdec Hun Hi Hno)
    as (e & s' & -> & He).
  eauto.
Qed.
End DeclareLoop.

Section DeclareBinds.
Variable fuel : nat.
Variable env : Environment.
Let d := relay_discover (S fuel) env.

Lemma add_hookspecs_loop_keeps attrs : ∀ names s names' s' n,
  add_hookspecs_loop d attrs names s = (Return names', s') →
  n ∉ attrs.*1 → spec_of s' n = spec_of s n.
Proof.
  induction attrs as [|[name a] rest IH]; intros names s names' s' n; simpl.
  { by intros [= <- <-]. }
  intros Hrun [Hne Hni]%not_elem_of_cons. revert Hrun.
  destruct a as [|m]; [by eauto|].
  destruct (fn_spec m) as [opts|]; [|by eauto].
  unfold bind at 1.
  destruct (add_hookspec d name m opts s) as [o1 s1] eqn:Hrun.
  destruct (add_hookspec_facts fuel env _ _ _ _ _ _ Hrun) as (_ & _ & Hspec & _).
  destruct o1 as [[]|e|]; [|done|done].
  intros Hloop. rewrite (IH _ _ _ _ _ Hloop Hni). by apply Hspec.
Qed.

Lemma add_hookspecs_loop_binds attrs : ∀ names s names' s' n m opts,
  NoDup attrs.*1 → undeclared attrs s → declares_hooks (interpreter env) attrs →
  declares attrs n m opts →
  add_hookspecs_loop d attrs names s = (Return names', s') →
  spec_of s' n = Some (new_spec m opts) ∧
  ∀ i, i ∈ impls_of s n → verify_ok (Some (new_spec m opts)) i.
Proof.
  induction attrs as [|[name a] rest IH];
    intros names s names' s' n m opts Hnd Hun Hdh [Hin Hsp].
  { by apply elem_of_nil in Hin. }
  apply NoDup_cons in Hnd as [Hfresh Hnd]. simpl in Hfresh.
  pose proof (undeclared_tail _ _ _ Hun) as Hun'.
  pose proof (declares_hooks_tail _ _ _ Hdh) as Hdh'.
  apply elem_of_cons in Hin as [[= <- <-]|Hin].
  - simpl. rewrite Hsp. unfold bind at 1.
    destruct (add_hookspec d n m opts s) as [o1 s1] eqn:Hrun.
    destruct (add_hookspec_facts fuel env _ _ _ _ _ _ Hrun)
      as (_ & _ & _ & Himpls & _ & _ & Hcase & _).
    destruct (Hcase (Hun n m opts (conj (list_elem_of_here _ _) Hsp)))
      as [(-> & Hnew & Hall)|[(i' & hook & why & -> & _)|[-> _]]]; [|done|done].
    intros Hloop. split; [|intros i Hi; by apply Hall, Himpls].
    by rewrite (add_hookspecs_loop_keeps _ _ _ _ _ _ Hloop Hfresh).
  - assert (n ≠ name) as Hne.
    { intros ->. apply Hfresh. apply list_elem_of_fmap. by exists (name, ARoutine m). }
    simpl. destruct a as [|m']; [by apply IH|].
    destruct (fn_spec m') as [opts'|] eqn:Hsp'; [|by apply IH].
    unfold bind at 1.
    destruct (add_hookspec d name m' opts' s) as [o1 s1] eqn:Hrun.
    destruct (add_hookspec_facts fuel env _ _ _ _ _ _ Hrun)
      as (_ & _ & Hspec & Himpls & _ & _ & _).
    destruct o1 as [[]|e|]; [|done|done].
    intros Hloop.
    assert (undeclared rest s1) as Hun1.
    { intros n' m'' o' [Hin' Hsp'']. rewrite Hspec; [by apply (Hun' n' m'' o')|].
      intros ->. apply Hfresh. apply list_elem_of_fmap. by exists (name, ARoutine m''). }
    destruct (IH _ _ _ _ n m opts Hnd Hun1 Hdh' (conj Hin Hsp) Hloop) as [Hnew Hall].
    split; [done|]. intros i Hi. by apply Hall, Himpls.
Qed.
End DeclareBinds.

(** *** The invariant under unregistration and blocking *)

Lemma Inv_shrinks s s' :
  (∀ n, spec_of s' n = spec_of s n) → (∀ n, impls_of s' n ⊆ impls_of s n) →
  Inv s → Inv s'.
Proof. intros Hs Hi HI n sp i Hsp Hin. rewrite Hs in Hsp. apply Hi in Hin. by eapply HI. Qed.

Lemma Inv_unregister v s : Inv s → Inv (unregister v s).2.
Proof.
  unfold unregister. destruct (_ensure_plugin v s) as [p|]; [|done]. simpl.
  apply Inv_shrinks.
  - intros n. rewrite foldl_remove_spec. by destruct (get_name (obj_id p) s).
  - intros n x Hx. apply foldl_remove_impls in Hx as [Hx _].
    by destruct (get_name (obj_id p) s).
Qed.

Lemma Inv_set_blocked name b s : Inv s → Inv (set_blocked name b s).
Proof.
  unfold set_blocked. destruct b.
  - destruct (is_registered_name _ _); [|done].
    intros HI. by apply (Inv_unregister (PStr name) (with_blocked _ s)).
  - by destruct (is_blocked name s).
Qed.

(** *** The loaders *)

Lemma unregister_blocked v s : _blocked (unregister v s).2 = _blocked s.
Proof.
  unfold unregister. destruct (_ensure_plugin v s) as [p|]; [|done]. simpl.
  match goal with |- context [foldl ?f ?a ?l] =>
    pose proof (foldl_remove_hooks_only (obj_id p) l a) as Hho end.
  destruct (hooks_only_fields _ _ Hho) as (_ & _ & -> & _). simpl.
  by destruct (get_name (obj_id p) s).
Qed.

Lemma set_blocked_blocked name s :
  _blocked (set_blocked name true s) = {[name]} ∪ _blocked s.
Proof.
  unfold set_blocked. destruct (is_registered_name _ _); [|done].
  by rewrite unregister_blocked.
Qed.

Lemma is_blocked_set_blocked name s : is_blocked name (set_blocked name true s) = true.
Proof.
  unfold is_blocked. rewrite set_blocked_blocked. apply bool_decide_eq_true. set_solver.
Qed.

Section Loaders.
Variable d0 : Runtime.

Lemma _load_and_register_PluginError t pn s e s1 :
  _load_and_register d0 t pn s = (Raise e, s1) → is_PluginError e = true.
Proof.
  unfold _load_and_register. destruct (tgt_load t) as [module|]; [|by intros [= <- _]].
  unfold bind at 1, try_except at 1.
  destruct (is_registered module s) as [[b|e0|] s0]; [| |done].
  - destruct b; [done|]. destruct (is_class_or_module module); [|by intros [= <- _]].
    unfold try_except.
    destruct (register_body d0 module pn s0) as [[x|e1|] s2]; [done| |done].
    destruct (is_PluginError e1) eqn:He; intros [= <- _]; done.
  - by intros [= <- _].
Qed.

Lemma load_candidate_raise t name ie count errors k s e s1 :
  _load_and_register d0 t (Some name) s = (Raise e, s1) →
  load_candidate d0 t name ie count errors k s =
    if ie then k count (errors ++ [e]) (set_blocked name true s1)
    else (Raise e, set_blocked name true s1).
Proof.
  intros Hrun. unfold load_candidate. rewrite Hrun.
  by rewrite (_load_and_register_PluginError _ _ _ _ _ Hrun).
Qed.
End Loaders.

Section LoadersGen.
Variable fuel : nat.
Variable env : Environment.
Let d := relay_discover (S fuel) env.

Lemma _load_and_register_blocked t pn s out s' :
  _load_and_register d t pn s = (out, s') → _blocked s ⊆ _blocked s'.
Proof.
  unfold _load_and_register. destruct (tgt_load t) as [module|]; [|by intros [= _ <-]].
  unfold bind at 1, try_except at 1.
  assert (∃ r, is_registered module s = (r, s)) as [r ->]
    by (destruct module; simpl; unfold gets, raise; eauto).
  destruct r as [b|e0|]; [|by intros [= _ <-]|by intros [= _ <-]].
  destruct b; [by intros [= _ <-]|].
  destruct (is_class_or_module module); [|by intros [= _ <-]].
  unfold try_except.
  destruct (register_body d module pn s) as [o1 s1] eqn:Hreg.
  destruct (register_gen fuel env module pn s o1 s1 Hreg) as [(_ & Hb & _) _].
  destruct o1 as [x|e1|]; [by intros [= _ <-]| |by intros [= _ <-]].
  destruct (is_PluginError e1); by intros [= _ <-].
Qed.

Lemma load_candidate_persists t name ie count errors k s r s' :
  (∀ c e s1 r s', k c e s1 = (Return r, s') → e `prefix_of` r.2 ∧ _blocked s1 ⊆ _blocked s') →
  load_candidate d t name ie count errors k s = (Return r, s') →
  errors `prefix_of` r.2 ∧ _blocked s ⊆ _blocked s'.
Proof.
  intros Hk. unfold load_candidate.
  destruct (_load_and_register d t (Some name) s) as [o1 s1] eqn:Hrun.
  pose proof (_load_and_register_blocked _ _ _ _ _ Hrun) as Hb.
  destruct o1 as [x|e|]; [| |done].
  - intros Hrest. destruct (Hk _ _ _ _ _ Hrest) as [Hp Hb']. split; [done|set_solver].
  - destruct (is_PluginError e); [|done]. destruct ie; [|done].
    intros Hrest. destruct (Hk _ _ _ _ _ Hrest) as [Hp Hb']. split.
    + etrans; [|done]. by apply prefix_app_r.
    + rewrite set_blocked_blocked in Hb'. set_solver.
Qed.

Lemma load_entrypoints_loop_persists group nm ie eps : ∀ count errors s r s',
  load_entrypoints_loop d group nm ie eps count errors s = (Return r, s') →
  errors `prefix_of` r.2 ∧ _blocked s ⊆ _blocked s'.
Proof.
  induction eps as [|ep rest IH]; intros count errors s r s'; simpl.
  - by intros [= <- <-].
  - destruct (ep_skipped group nm ep s); [apply IH|].
    apply load_candidate_persists. apply IH.
Qed.

Lemma load_modules_loop_persists prefix ie mods : ∀ count errors s r s',
  load_modules_loop d prefix ie mods count errors s = (Return r, s') →
  errors `prefix_of` r.2 ∧ _blocked s ⊆ _blocked s'.
Proof.
  induction mods as [|m rest IH]; intros count errors s r s'; simpl.
  - by intros [= <- <-].
  - destruct (module_skipped prefix m s); [apply IH|].
    apply load_candidate_persists. apply IH.
Qed.
End LoadersGen.

(** *** Lemmas for the further properties *)

Section DictMore.
Context {V : Type}.
Implicit Types d : list (string * V).

Lemma set_fresh k (v : V) d :
  Dict.get k d = None → Dict.set k v d = d ++ [(k, v)].
Proof.
  induction d as [|[k' v'] d IH]; simpl; [done|].
  destruct (decide (k = k')); [done|]. intros H. by rewrite IH.
Qed.

Lemma del_absent k d : Dict.get k d = None → Dict.del k d = d.
Proof.
  induction d as [|[k' v'] d IH]; simpl; [done|].
  destruct (decide (k = k')); [done|]. intros H. by rewrite IH.
Qed.

Lemma del_app_fresh k (v : V) d :
  Dict.get k d = None → Dict.del k (d ++ [(k, v)]) = d.
Proof.
  induction d as [|[k' v'] d IH]; simpl.
  - by rewrite decide_True.
  - destruct (decide (k = k')); [done|]. intros H. by rewrite IH.
Qed.

Lemma del_sublist k d : sublist (Dict.del k d) d.
Proof.
  induction d as [|[k' v'] d IH]; simpl; [done|].
  destruct (decide (k = k')).
  - by apply sublist_cons.
  - by apply sublist_skip.
Qed.

Lemma get_elem_NoDup k (v : V) d :
  NoDup d.*1 → (k, v) ∈ d → Dict.get k d = Some v.
Proof.
  induction d as [|[k' v'] d IH]; simpl; intros Hnd Hin.
  - by apply elem_of_nil in Hin.
  - apply NoDup_cons in Hnd as [Hk Hnd].
    apply elem_of_cons in Hin as [Heq|Hin].
    + injection Heq as -> ->. by rewrite decide_True.
    + destruct (decide (k = k')) as [->|]; [|by apply IH].
      exfalso. apply Hk. apply list_elem_of_fmap. by exists (k', v).
Qed.

Lemma elem_of_del k d x :
  NoDup d.*1 → x ∈ Dict.del k d ↔ x ∈ d ∧ x.1 ≠ k.
Proof.
  induction d as [|[k' v'] d IH]; simpl; intros Hnd.
  - split; [intros H; by apply elem_of_nil in H|intros [H _]; by apply elem_of_nil in H].
  - apply NoDup_cons in Hnd as [Hk Hnd].
    destruct (decide (k = k')) as [<-|Hne].
    + split.
      * intros Hx. split; [by apply elem_of_cons; right|].
        intros Heq. apply Hk. rewrite <- Heq. apply list_elem_of_fmap. by exists x.
      * intros [Hx Hne]. apply elem_of_cons in Hx as [->|Hx]; [done|done].
    + rewrite !elem_of_cons, IH by done. split.
      * intros [->|[Hx Hn]]; [split; [by left|simpl; congruence]|split; [by right|done]].
      * intros [[->|Hx] Hn]; [by left|by right].
Qed.
End DictMore.

Section Unregister.
Implicit Types d : list (string * Obj).

Lemma get_name_in_Some id d n :
  get_name_in id d = Some n → ∃ p, (n, p) ∈ d ∧ obj_id p = id.
Proof.
  induction d as [|[k v] d IH]; simpl; [done|].
  destruct (decide (id = obj_id v)) as [->|].
  - intros [= ->]. exists v. split; [by left|done].
  - intros H. destruct (IH H) as (p & Hp & Hid). exists p. split; [by right|done].
Qed.

Lemma get_name_in_None id d :
  get_name_in id d = None ↔ id ∉ obj_id <$> d.*2.
Proof.
  induction d as [|[k v] d IH]; simpl.
  - split; [intros _ H; by apply elem_of_nil in H|done].
  - destruct (decide (id = obj_id v)) as [->|Hne].
    + split; [done|]. intros H. exfalso. apply H. by left.
    + rewrite IH. rewrite not_elem_of_cons. naive_solver.
Qed.

Lemma get_name_in_elem p d n :
  (n, p) ∈ d → is_Some (get_name_in (obj_id p) d).
Proof.
  intros Hin. destruct (get_name_in (obj_id p) d) eqn:E; [done|].
  apply get_name_in_None in E. exfalso. apply E.
  apply list_elem_of_fmap. exists p. split; [done|].
  apply list_elem_of_fmap. by exists (n, p).
Qed.

(** [self.get_name(plugin)] in [unregister] always finds a name. *)
Lemma _ensure_plugin_get_name v s p :
  _ensure_plugin v s = Some p → is_Some (get_name (obj_id p) s).
Proof.
  unfold _ensure_plugin. intros H.
  apply bind_Some in H as (n & _ & Hget).
  apply get_Some_elem in Hget. by eapply get_name_in_elem.
Qed.

Lemma _ensure_plugin_wf v s p :
  tables_wf s → _ensure_plugin v s = Some p →
  ∃ n, Dict.get n (plugins s) = Some p ∧ get_name (obj_id p) s = Some n ∧
       names_plugin v n p.
Proof.
  intros (Hk & Hi & _ & _) H. unfold _ensure_plugin in H.
  apply bind_Some in H as (n & Hn & Hget).
  exists n. split; [done|]. split; [by apply get_name_in_unique|].
  destruct v as [n0|cls items|o]; simpl in *.
  - by injection Hn as ->.
  - done.
  - apply get_name_in_Some in Hn as (p' & Hp' & Hid).
    apply (get_elem_NoDup _ _ _ Hk) in Hp'. congruence.
Qed.

Lemma _ensure_plugin_known v s :
  tables_wf s →
  is_registered v s = (Return true, s) ↔ is_Some (_ensure_plugin v s).
Proof.
  intros (Hk & Hi & Hc & _).
  destruct v as [n|cls items|o]; unfold _ensure_plugin; simpl.
  - unfold gets, is_registered_name, Dict.mem.
    destruct (Dict.get n (plugins s)) eqn:E.
    + rewrite bool_decide_eq_true_2 by done. done.
    + rewrite bool_decide_eq_false_2 by (by intros [??]).
      split; [done|by intros [??]].
  - unfold raise. split; [done|by intros [??]].
  - unfold gets. destruct (is_registered_obj (obj_id o) s) eqn:E.
    + split; [intros _|done]. apply Hc in E.
      destruct (get_name (obj_id o) s) as [n|] eqn:En.
      * simpl. apply get_name_in_Some in En as (p & Hp & _).
        apply (get_elem_NoDup _ _ _ Hk) in Hp. by rewrite Hp.
      * by apply get_name_in_None in En.
    + split; [done|]. intros [p Hp]. exfalso.
      apply bind_Some in Hp as (n & Hn & Hget).
      apply get_name_in_Some in Hn as (p' & Hp' & Hid).
      assert (is_registered_obj (obj_id o) s = true); [|congruence].
      apply Hc. apply list_elem_of_fmap. exists p'. split; [done|].
      apply list_elem_of_fmap. by exists (n, p').
Qed.

Lemma filter_idemp {A} (P : A → Prop) `{∀ x, Decision (P x)} (l : list A) :
  filter P (filter P l) = filter P l.
Proof.
  induction l as [|x l IH]; [done|].
  rewrite filter_cons. destruct (decide (P x)).
  - rewrite filter_cons, decide_True by done. by rewrite IH.
  - done.
Qed.

Lemma filter_all {A} (P : A → Prop) `{∀ x, Decision (P x)} (l : list A) :
  (∀ x, x ∈ l → P x) → filter P l = l.
Proof.
  induction l as [|x l IH]; intros Hall; [done|].
  rewrite filter_cons, decide_True by (apply Hall; by left).
  rewrite IH; [done|]. intros y Hy. apply Hall. by right.
Qed.

Lemma alter_remove_impls_eq p name s h :
  impls_of (alter_caller (_remove_plugin p) name s) h =
  if decide (h = name) then filter (fun i => impl_plugin i ≠ p) (impls_of s h)
  else impls_of s h.
Proof.
  unfold alter_caller. destruct (Dict.get name (hook_dict s)) as [c|] eqn:E.
  - rewrite impls_of_set. destruct (decide (name = h)) as [<-|Hne].
    + rewrite decide_True by done. unfold impls_of. by rewrite E.
    + by rewrite decide_False by congruence.
  - destruct (decide (h = name)) as [->|]; [|done].
    unfold impls_of. by rewrite E.
Qed.

Lemma foldl_remove_impls_eq p l s h :
  impls_of (foldl (fun st name => alter_caller (_remove_plugin p) name st) s l) h =
  without_plugin p l s h.
Proof.
  unfold without_plugin. revert s. induction l as [|name l IH]; intros s; simpl.
  - done.
  - rewrite IH, alter_remove_impls_eq.
    destruct (decide (h = name)) as [->|Hne].
    + rewrite (decide_True (P := name ∈ name :: l)) by (by left).
      destruct (decide (name ∈ l)); [by rewrite filter_idemp|done].
    + destruct (decide (h ∈ l)).
      * by rewrite decide_True by (by right).
      * rewrite decide_False; [done|]. rewrite elem_of_cons. naive_solver.
Qed.
End Unregister.

Section UnregisterWf.

Lemma tables_wf_fields s s' :
  plugins s' = plugins s → _plugin2hookcallers s' = _plugin2hookcallers s →
  _blocked s' = _blocked s → tables_wf s → tables_wf s'.
Proof.
  unfold tables_wf, is_registered_obj, is_blocked, is_registered_name.
  intros -> -> ->. done.
Qed.

Lemma tables_wf_hooks_only s s' : hooks_only s s' → tables_wf s → tables_wf s'.
Proof.
  intros H. apply hooks_only_fields in H as (? & ? & ? & _).
  by apply tables_wf_fields.
Qed.

Lemma removed_fields n p s :
  plugins (removed n p s) = Dict.del n (plugins s) ∧
  _plugin2hookcallers (removed n p s) = delete (obj_id p) (_plugin2hookcallers s) ∧
  _blocked (removed n p s) = _blocked s ∧
  hook_needs_discovery (removed n p s) = hook_needs_discovery s ∧
  discover_calls (removed n p s) = discover_calls s ∧
  same_config s (removed n p s).
Proof.
  unfold removed.
  match goal with |- context [foldl ?f ?s0 ?l] =>
    pose proof (foldl_remove_hooks_only (obj_id p) l s0) as H end.
  unfold same_config. rewrite H. simpl. done.
Qed.

Lemma unregister_wf_eq v s p :
  tables_wf s → _ensure_plugin v s = Some p →
  ∃ n, Dict.get n (plugins s) = Some p ∧ names_plugin v n p ∧
       unregister v s = (Some p, removed n p s).
Proof.
  intros Hwf He. destruct (_ensure_plugin_wf _ _ _ Hwf He) as (n & Hget & Hn & Hv).
  exists n. split; [done|]. split; [done|].
  unfold unregister, removed. by rewrite He, Hn.
Qed.

Lemma same_entry (d : list (string * Obj)) k q n p :
  NoDup d.*1 → NoDup (obj_id <$> d.*2) →
  (k, q) ∈ d → (n, p) ∈ d → obj_id q = obj_id p → k = n.
Proof.
  intros Hk Hi Hq Hp Hid.
  apply (get_elem_NoDup _ _ _ Hk) in Hq, Hp.
  apply (get_name_in_unique _ _ _ Hi) in Hq, Hp. congruence.
Qed.

Lemma mem_del_ids (d : list (string * Obj)) n p o :
  NoDup d.*1 → NoDup (obj_id <$> d.*2) → Dict.get n d = Some p →
  o ∈ obj_id <$> (Dict.del n d).*2 ↔ o ∈ obj_id <$> d.*2 ∧ o ≠ obj_id p.
Proof.
  intros Hk Hi Hget. split.
  - intros Ho. apply list_elem_of_fmap in Ho as (q & -> & Hq).
    apply list_elem_of_fmap in Hq as ([k q'] & -> & Hq). simpl.
    apply elem_of_del in Hq as [Hq Hne]; [|done]. simpl in Hne. split.
    + apply list_elem_of_fmap. exists q'. split; [done|].
      apply list_elem_of_fmap. by exists (k, q').
    + intros Heq. apply Hne.
      eapply same_entry; [done|done|done|by apply get_Some_elem|done].
  - intros [Ho Hne]. apply list_elem_of_fmap in Ho as (q & -> & Hq).
    apply list_elem_of_fmap in Hq as ([k q'] & -> & Hq). simpl in *.
    apply list_elem_of_fmap. exists q'. split; [done|].
    apply list_elem_of_fmap. exists (k, q'). split; [done|].
    apply elem_of_del; [done|]. split; [done|]. simpl. intros ->.
    apply (get_elem_NoDup _ _ _ Hk) in Hq. congruence.
Qed.

Lemma tables_wf_removed n p s :
  tables_wf s → Dict.get n (plugins s) = Some p → tables_wf (removed n p s).
Proof.
  intros (Hk & Hi & Hc & Hb) Hget.
  destruct (removed_fields n p s) as (Hp & Hh & Hbl & _).
  unfold tables_wf, is_registered_obj, is_blocked, is_registered_name.
  rewrite Hp, Hh, Hbl. refine (conj _ (conj _ (conj _ _))).
  - eapply sublist_NoDup; [exact Hk|]. apply fmap_sublist, del_sublist.
  - eapply sublist_NoDup; [exact Hi|]. apply fmap_sublist, fmap_sublist, del_sublist.
  - intros o. rewrite (mem_del_ids _ _ _ _ Hk Hi Hget).
    rewrite <- Hc. unfold is_registered_obj.
    rewrite !bool_decide_eq_true.
    destruct (decide (o = obj_id p)) as [->|Hne].
    + rewrite lookup_delete_eq. split; [by intros [??]|by intros [_ ?]].
    + rewrite lookup_delete_ne by done. naive_solver.
  - intros n' Hn'. specialize (Hb n' Hn').
    unfold is_registered_name, Dict.mem in *.
    apply bool_decide_eq_false in Hb. apply bool_decide_eq_false.
    intros Hs. apply Hb. destruct (decide (n = n')) as [<-|Hne].
    + by rewrite get_del_eq in Hs by done.
    + by rewrite get_del_ne in Hs by done.
Qed.

Lemma tables_wf_unregister v s : tables_wf s → tables_wf (unregister v s).2.
Proof.
  intros Hwf. destruct (_ensure_plugin v s) as [p|] eqn:He.
  - destruct (unregister_wf_eq _ _ _ Hwf He) as (n & Hget & _ & ->).
    by apply tables_wf_removed.
  - unfold unregister. by rewrite He.
Qed.

Lemma tables_wf_set_blocked n b s : tables_wf s → tables_wf (set_blocked n b s).
Proof.
  intros Hwf. pose proof Hwf as (Hk & Hi & Hc & Hb).
  unfold set_blocked. destruct b.
  - destruct (is_registered_name n _) eqn:Hr.
    + unfold is_registered_name, Dict.mem in Hr. simpl in Hr.
      apply bool_decide_eq_true in Hr as [p Hp].
      assert (Hwf1 : NoDup (plugins s).*1 ∧ NoDup (obj_id <$> (plugins s).*2) ∧
               (∀ o, is_registered_obj o s = true ↔ o ∈ obj_id <$> (plugins s).*2))
        by done.
      set (s1 := with_blocked (fun b => {[n]} ∪ b) s).
      assert (He : _ensure_plugin (PStr n) s1 = Some p) by done.
      assert (Hn : get_name (obj_id p) s1 = Some n)
        by (by apply get_name_in_unique).
      unfold unregister. rewrite He, Hn. simpl.
      change (tables_wf (removed n p s1)).
      destruct (removed_fields n p s1) as (Hp' & Hh' & Hbl' & _).
      destruct (removed_fields n p s) as (Hp0 & Hh0 & Hbl0 & _).
      pose proof (tables_wf_removed n p s Hwf Hp) as (Hk2 & Hi2 & Hc2 & Hb2).
      unfold tables_wf, is_registered_obj, is_blocked, is_registered_name in *.
      rewrite Hp', Hh', Hbl'. rewrite Hp0, Hh0, Hbl0 in *. simpl.
      refine (conj Hk2 (conj Hi2 (conj Hc2 _))).
      intros n' Hn'. apply bool_decide_eq_true in Hn'.
      apply elem_of_union in Hn' as [Hn'|Hn'].
      * apply elem_of_singleton in Hn' as ->.
        apply bool_decide_eq_false. unfold Dict.mem.
        rewrite get_del_eq by done. by intros [??].
      * apply Hb2. by apply bool_decide_eq_true.
    + unfold tables_wf, is_registered_obj, is_blocked, is_registered_name in *.
      simpl in *. refine (conj Hk (conj Hi (conj Hc _))).
      intros n' Hn'. apply bool_decide_eq_true in Hn'.
      apply elem_of_union in Hn' as [Hn'|Hn'].
      * by apply elem_of_singleton in Hn' as ->.
      * apply Hb. by apply bool_decide_eq_true.
  - destruct (is_blocked n s); [|done].
    unfold tables_wf, is_registered_obj, is_blocked, is_registered_name in *.
    simpl. refine (conj Hk (conj Hi (conj Hc _))).
    intros n' Hn'. apply bool_decide_eq_true in Hn'.
    apply elem_of_difference in Hn' as [Hn' _].
    apply Hb. by apply bool_decide_eq_true.
Qed.
End UnregisterWf.

Section RegisterExact.
Variable d0 : Runtime.

Lemma NoDup_snoc_fresh {A} (l : list A) (x : A) :
  NoDup l → x ∉ l → NoDup (l ++ [x]).
Proof.
  intros Hl Hx. apply NoDup_app. split; [done|]. split.
  - intros y Hy Hy'. apply list_elem_of_singleton in Hy' as ->. done.
  - apply NoDup_singleton.
Qed.

Lemma filter_insert_before {P : HookImplementation → Prop}
    `{∀ x, Decision (P x)} stop x l :
  ¬ P x → filter P (insert_before stop x l) = filter P l.
Proof.
  intros Hx. induction l as [|y l IH]; simpl.
  - by rewrite filter_cons, decide_False.
  - destruct (stop y).
    + by rewrite (filter_cons _ x), decide_False.
    + rewrite !(filter_cons _ y). destruct (decide (P y)); by rewrite IH.
Qed.

Lemma filter_add_hookimpl p x c :
  impl_plugin x = p →
  filter (fun i => impl_plugin i ≠ p) (hc_impls (_add_hookimpl x c)) =
  filter (fun i => impl_plugin i ≠ p) (hc_impls c).
Proof.
  intros Hx. unfold _add_hookimpl; simpl.
  destruct (impl_priority x).
  - rewrite filter_cons, decide_False; [done|]. intros H. by apply H.
  - apply filter_insert_before. intros H. by apply H.
  - apply filter_insert_before. intros H. by apply H.
Qed.

Lemma attach_impls_eq n i s h :
  impls_of (attach n i s) h =
  if decide (n = h) then hc_impls (_add_hookimpl i (caller_at s n))
  else impls_of s h.
Proof. unfold attach. by rewrite impls_of_set. Qed.

Lemma attach_filter p n i s h :
  impl_plugin i = p →
  filter (fun j => impl_plugin j ≠ p) (impls_of (attach n i s) h) =
  filter (fun j => impl_plugin j ≠ p) (impls_of s h).
Proof.
  intros Hi. rewrite attach_impls_eq. destruct (decide (n = h)) as [<-|]; [|done].
  rewrite filter_add_hookimpl by done. by rewrite impls_of_caller_at.
Qed.

Lemma register_loop_exact pn p impls hcs0 s hcs s1 :
  hook_needs_discovery s = false →
  (∀ j, j ∈ impls → impl_plugin j = p) →
  register_loop d0 pn impls hcs0 s = (Return hcs, s1) →
  (∀ h, filter (fun i => impl_plugin i ≠ p) (impls_of s1 h) =
        filter (fun i => impl_plugin i ≠ p) (impls_of s h)) ∧
  (∀ h, h ∉ impl_specname <$> impls → impls_of s1 h = impls_of s h).
Proof.
  revert hcs0 s. induction impls as [|i0 impls IH]; intros hcs0 s Hq Hp; simpl.
  - intros [= <- <-]. done.
  - unfold bind at 1.
    destruct (register_impl_quiet d0 pn i0 s Hq)
      as [(_ & _ & ->)|[(_ & _ & hook & why & ->)|[_ ->]]]; [|done|done].
    intros Hrun. apply IH in Hrun as [Hf Hn]; [| |].
    + split.
      * intros h. rewrite Hf. apply attach_filter. simpl. apply Hp. by left.
      * intros h Hh. apply not_elem_of_cons in Hh as [Hne Hh].
        rewrite Hn by done. rewrite attach_impls_eq.
        by rewrite decide_False by congruence.
    + by rewrite attach_hooks_only.
    + intros j Hj. apply Hp. by right.
Qed.

Lemma iter_implementations_plugin o j :
  j ∈ iter_implementations o → impl_plugin j = obj_id o.
Proof.
  unfold iter_implementations. intros Hj.
  apply list_elem_of_omap in Hj as ([n a] & _ & Hj). simpl in Hj.
  destruct a as [|m]; [done|]. destruct (fn_impl m); [|done].
  by injection Hj as <-.
Qed.

(** A successful [register], seen step by step. *)
Lemma register_obj_success o name s pn s' :
  hook_needs_discovery s = false →
  register_obj d0 o name s = (Return (Some pn), s') →
  pn = plugin_name_of o name ∧ is_blocked pn s = false ∧
  is_registered_name pn s = false ∧ is_registered_obj (obj_id o) s = false ∧
  ∃ s1, hooks_only s s1 ∧ grows s s1 ∧ s' = filed pn o s1 ∧
    registered_all pn (iter_implementations o) s s1 ∧
    (∀ h, filter (fun i => impl_plugin i ≠ obj_id o) (impls_of s1 h) =
          filter (fun i => impl_plugin i ≠ obj_id o) (impls_of s h)) ∧
    (∀ h, h ∉ hook_names o → impls_of s1 h = impls_of s h).
Proof.
  intros Hq. unfold register_obj.
  destruct (is_blocked _ s) eqn:Hb; [done|].
  destruct (is_registered_name _ s) eqn:Hn; [done|].
  destruct (is_registered_obj _ s) eqn:Ho; [done|].
  unfold bind at 1.
  destruct (register_loop d0 _ _ [] s) as [o1 s1] eqn:Hloop.
  destruct (register_loop_quiet d0 _ _ _ _ _ _ Hq Hloop) as (Hho & Hg & HI & Hout).
  destruct o1 as [hcs|e|]; [| |done].
  - unfold bind, modify, ret; simpl. intros [= <- <-].
    destruct Hout as [-> Hall].
    pose proof (register_loop_exact _ (obj_id o) _ _ _ _ _ Hq
                  (iter_implementations_plugin o) Hloop) as [Hf Hn'].
    do 4 (split; [done|]). exists s1. done.
  - done.
Qed.

Lemma tables_wf_filed pn o s s1 :
  tables_wf s → hooks_only s s1 →
  is_blocked pn s = false → is_registered_name pn s = false →
  is_registered_obj (obj_id o) s = false →
  plugins (filed pn o s1) = plugins s ++ [(pn, o)] ∧ tables_wf (filed pn o s1).
Proof.
  intros (Hk & Hi & Hc & Hb) Hho Hbl Hn Ho.
  destruct (hooks_only_fields _ _ Hho) as (Hp & Hp2 & Hbl' & _).
  assert (Hget : Dict.get pn (plugins s) = None).
  { unfold is_registered_name, Dict.mem in Hn. apply bool_decide_eq_false in Hn.
    destruct (Dict.get pn (plugins s)); [|done]. exfalso. by apply Hn. }
  assert (Hpl : plugins (filed pn o s1) = plugins s ++ [(pn, o)]).
  { unfold filed; simpl. rewrite Hp. by apply set_fresh. }
  split; [done|].
  unfold tables_wf, is_registered_obj, is_blocked, is_registered_name.
  rewrite Hpl. unfold filed; simpl. rewrite Hp2, Hbl'.
  rewrite !fmap_app. simpl. refine (conj _ (conj _ (conj _ _))).
  - apply NoDup_snoc_fresh; [done|]. by apply get_None_keys.
  - apply NoDup_snoc_fresh; [done|]. intros Hin. apply Hc in Hin. congruence.
  - intros x. rewrite elem_of_app, list_elem_of_singleton, <- Hc.
    unfold is_registered_obj. rewrite !bool_decide_eq_true.
    destruct (decide (x = obj_id o)) as [->|Hne].
    + rewrite lookup_insert_eq. split; [by right|done].
    + rewrite lookup_insert_ne by done. split; [by left|by intros [?|?]].
  - intros n Hn'. specialize (Hb n Hn'). apply bool_decide_eq_false.
    unfold is_registered_name, Dict.mem in Hb. apply bool_decide_eq_false in Hb.
    unfold Dict.mem. rewrite <- set_fresh by done. rewrite get_set.
    destruct (decide (pn = n)) as [<-|]; [|done].
    unfold is_blocked in Hbl. congruence.
Qed.

Lemma tables_wf_register_obj o name s out s' :
  hook_needs_discovery s = false →
  register_obj d0 o name s = (out, s') → tables_wf s → tables_wf s'.
Proof.
  intros Hq Hrun Hwf.
  destruct out as [[pn|]|e|].
  - apply register_obj_success in Hrun as (-> & Hb & Hn & Ho & s1 & Hho & _ & -> & _);
      [|done].
    by eapply tables_wf_filed.
  - apply register_obj_quiet in Hrun as (_ & _ & _ & ->); done.
  - apply register_obj_quiet in Hrun as (_ & _ & Hho & _); [|done].
    by eapply tables_wf_hooks_only.
  - apply register_obj_quiet in Hrun as (_ & _ & []); done.
Qed.

Lemma tables_wf_register_body v name s out s' :
  hook_needs_discovery s = false →
  register_body d0 v name s = (out, s') → tables_wf s → tables_wf s'.
Proof.
  intros Hq. destruct v as [n|cls dct|o]; simpl.
  - by intros [= <- <-].
  - unfold _register_dict, bind.
    destruct (ensure_namespace_cases d0 cls (clean_dct dct) s)
      as [(_ & ns & -> & _)|[(bad & _ & _ & ->)|(_ & _ & ->)]].
    + by apply tables_wf_register_obj.
    + by intros [= <- <-].
    + by intros [= <- <-].
  - by apply tables_wf_register_obj.
Qed.
End RegisterExact.

Section Candidates.
Variable d0 : Runtime.

Lemma load_candidate_ext t name ie count errors k k' s :
  (∀ c e s1, k c e s1 = k' c e s1) →
  load_candidate d0 t name ie count errors k s =
  load_candidate d0 t name ie count errors k' s.
Proof.
  intros Hk. unfold load_candidate.
  destruct (_load_and_register d0 t (Some name) s) as [[r|e|] s1]; [by rewrite Hk| |done].
  destruct (is_PluginError e); [|done]. destruct ie; [by rewrite Hk|done].
Qed.

Lemma load_entrypoints_loop_candidates group name ie eps count errors s :
  load_entrypoints_loop d0 group name ie eps count errors s =
  load_loop d0 ie (ep_candidates group name eps) count errors s.
Proof.
  revert count errors s. induction eps as [|ep eps IH]; intros count errors s; [done|].
  simpl. unfold ep_skipped, ep_candidates. simpl.
  destruct (bool_decide (ep_group ep ≠ group)
            || nonempty name && bool_decide (ep_name ep ≠ name)) eqn:E; simpl.
  - apply IH.
  - fold (ep_candidates group name eps).
    destruct (is_registered_name (ep_name ep) s); simpl; [apply IH|].
    destruct (is_blocked (ep_name ep) s); simpl; [apply IH|].
    apply load_candidate_ext. intros; apply IH.
Qed.

Lemma load_modules_loop_candidates prefix ie mods count errors s :
  load_modules_loop d0 prefix ie mods count errors s =
  load_loop d0 ie (module_candidates prefix mods) count errors s.
Proof.
  revert count errors s. induction mods as [|m mods IH]; intros count errors s; [done|].
  simpl. unfold module_skipped, module_candidates. simpl.
  destruct (startswith (tgt_name (mc_target m)) prefix) eqn:E; simpl.
  - fold (module_candidates prefix mods).
    destruct (is_registered_name (module_plugin_name m) s); simpl; [apply IH|].
    destruct (is_blocked (module_plugin_name m) s); simpl; [apply IH|].
    apply load_candidate_ext. intros; apply IH.
  - apply IH.
Qed.

Lemma load_entrypoints_body_candidates env group name ie s :
  load_entrypoints_body env d0 group name ie s =
  load_loop d0 ie (entry_candidates env group name) 0 [] s.
Proof.
  unfold load_entrypoints_body, entry_candidates.
  destruct (negb (nonempty group) || DISABLE_ENTRYPOINT_PLUGINS env); [done|].
  apply load_entrypoints_loop_candidates.
Qed.

Lemma load_modules_by_prefix_body_candidates env prefix ie s :
  load_modules_by_prefix_body env d0 prefix ie s =
  load_loop d0 ie (prefix_candidates env prefix) 0 [] s.
Proof.
  unfold load_modules_by_prefix_body, prefix_candidates.
  destruct (DISABLE_PREFIX_PLUGINS env || negb (nonempty prefix)); [done|].
  apply load_modules_loop_candidates.
Qed.
End Candidates.

Section Names.
Lemma pretty_N_go_nonempty x s : s ≠ "" → pretty_N_go x s ≠ "".
Proof.
  revert s. induction (N.lt_wf_0 x) as [x _ IH]; intros s Hs.
  assert (x = 0 ∨ 0 < x)%N as [->|Hx] by lia.
  - by rewrite pretty_N_go_0.
  - rewrite pretty_N_go_step by done. apply IH; [|done].
    apply N.div_lt; lia.
Qed.

Lemma pretty_nat_nonempty (n : nat) : pretty n ≠ "".
Proof.
  unfold pretty, pretty_nat, pretty, pretty_N.
  destruct (decide (N.of_nat n = 0%N)); [done|].
  rewrite pretty_N_go_step by lia. by apply pretty_N_go_nonempty.
Qed.

Lemma str_or_nonempty x y : y ≠ "" → str_or x y ≠ "".
Proof.
  intros Hy. destruct x as [n|]; simpl; [|done]. by destruct (decide (n = "")).
Qed.

(** The name under which [register] files a namespace is never
    empty. *)
Lemma plugin_name_of_nonempty o name : plugin_name_of o name ≠ "".
Proof.
  unfold plugin_name_of, get_canonical_name.
  apply str_or_nonempty, str_or_nonempty, pretty_nat_nonempty.
Qed.
End Names.

Section Growth.
Lemma tables_grow_refl s : tables_grow s s.
Proof. by unfold tables_grow. Qed.

Lemma tables_grow_trans s1 s2 s3 :
  tables_grow s1 s2 → tables_grow s2 s3 → tables_grow s1 s3.
Proof.
  intros (A1 & A2 & A3) (B1 & B2 & B3). refine (conj _ (conj _ _)).
  - intros n H. by apply B1, A1.
  - intros o H. by apply B2, A2.
  - set_solver.
Qed.

Lemma tables_grow_fields s s' :
  plugins s' = plugins s → _plugin2hookcallers s' = _plugin2hookcallers s →
  _blocked s ⊆ _blocked s' → tables_grow s s'.
Proof.
  intros Hp Hh Hb. unfold tables_grow, is_registered_name, is_registered_obj.
  rewrite Hp, Hh. done.
Qed.

Lemma tables_grow_hooks_only s s' : hooks_only s s' → tables_grow s s'.
Proof.
  intros H. apply hooks_only_fields in H as (Hp & Hh & Hb & _).
  apply tables_grow_fields; [done|done|by rewrite Hb].
Qed.

Lemma tables_grow_filed pn o s s1 :
  hooks_only s s1 → tables_grow s (filed pn o s1).
Proof.
  intros H. apply hooks_only_fields in H as (Hp & Hh & Hb & _).
  unfold tables_grow, is_registered_name, is_registered_obj, filed; simpl.
  rewrite Hp, Hh, Hb. refine (conj _ (conj _ _)); [| |done].
  - intros n. unfold Dict.mem. rewrite !bool_decide_eq_true, get_set.
    by destruct (decide (pn = n)).
  - intros x. rewrite !bool_decide_eq_true.
    destruct (decide (x = obj_id o)) as [->|Hne].
    + by rewrite lookup_insert_eq.
    + by rewrite lookup_insert_ne.
Qed.

Lemma is_blocked_mono n s s' :
  _blocked s ⊆ _blocked s' → is_blocked n s = true → is_blocked n s' = true.
Proof.
  unfold is_blocked. rewrite !bool_decide_eq_true. set_solver.
Qed.

Lemma settled_mono c s s' :
  tables_grow s s' → settled c s = true → settled c s' = true.
Proof.
  intros (Hn & Ho & Hb). unfold settled, already_loaded.
  rewrite !orb_true_iff. intros [[H|H]|H].
  - left; left. by apply Hn.
  - left; right. by eapply is_blocked_mono.
  - right. destruct (tgt_load c.1) as [[n|cls items|o]|]; [by apply Hn|done| |done].
    apply orb_true_iff in H as [H|H]; apply orb_true_iff; [left; by apply Ho|right].
    apply andb_true_iff in H as [H1 H2]. apply andb_true_iff. split; [done|].
    by eapply is_blocked_mono.
Qed.
End Growth.

Section Loading.
Variable d0 : Runtime.

(** A target that is already loaded is passed over. *)
Lemma already_loaded_run t name s :
  already_loaded t name s = true →
  _load_and_register d0 t (Some name) s = (Return None, s).
Proof.
  unfold already_loaded, _load_and_register.
  destruct (tgt_load t) as [[n|cls items|o]|]; [| | |done]; intros H.
  - unfold bind, try_except, is_registered, gets. by rewrite H.
  - done.
  - unfold bind, try_except, is_registered, gets.
    destruct (is_registered_obj (obj_id o) s) eqn:Ho; [done|].
    rewrite orb_false_l in H.
    apply andb_true_iff in H as [Hk Hb]. rewrite Hk.
    unfold register_body, register_obj. by rewrite Hb.
Qed.

(** One call of [_load_and_register] while no discovery is pending. *)
Lemma _load_and_register_cases t name s out s' :
  hook_needs_discovery s = false →
  _load_and_register d0 t (Some name) s = (out, s') →
  match out with
  | Return None => s' = s ∧ already_loaded t name s = true
  | Return (Some pn) =>
      pn ≠ "" ∧ is_registered_name pn s = false ∧ is_blocked pn s = false ∧
      ∃ o s1, tgt_load t = Some (PObj o) ∧ is_class_or_module (PObj o) = true ∧
              pn = plugin_name_of o (Some name) ∧
              is_registered_obj (obj_id o) s = false ∧
              registered_all pn (iter_implementations o) s s1 ∧
              hooks_only s s1 ∧ s' = filed pn o s1
  | Raise e => hooks_only s s' ∧ is_PluginError e = true
  | OutOfFuel => False
  end.
Proof.
  intros Hq. unfold _load_and_register, already_loaded.
  destruct (tgt_load t) as [[n|cls items|o]|].
  - unfold bind, try_except, is_registered, gets.
    destruct (is_registered_name n s) eqn:Hn.
    + by intros [= <- <-].
    + intros [= <- <-]. split; [apply hooks_only_refl|done].
  - intros [= <- <-]. split; [apply hooks_only_refl|done].
  - unfold bind, try_except, is_registered, gets.
    destruct (is_registered_obj (obj_id o) s) eqn:Ho.
    { by intros [= <- <-]. }
    destruct (is_class_or_module (PObj o)) eqn:Hk.
    2:{ intros [= <- <-]. split; [apply hooks_only_refl|done]. }
    unfold register_body.
    destruct (register_obj d0 o (Some name) s) as [o1 s1] eqn:Hrun.
    destruct o1 as [[pn|]|e|].
    + intros [= <- <-].
      apply register_obj_success in Hrun
        as (-> & Hb & Hn & _ & s2 & Hho & _ & -> & Hall & _); [|done].
      split; [apply plugin_name_of_nonempty|]. do 2 (split; [done|]).
      exists o, s2. done.
    + intros [= <- <-].
      apply register_obj_quiet in Hrun as (_ & _ & Hb & ->); [|done].
      split; [done|]. by rewrite Hb.
    + apply register_obj_quiet in Hrun as (_ & _ & Hho & _); [|done].
      destruct (is_PluginError e) eqn:He; intros [= <- <-]; by split.
    + by apply register_obj_quiet in Hrun as (_ & _ & []).
  - intros [= <- <-]. split; [apply hooks_only_refl|done].
Qed.

(** A pass over candidates that are all settled does nothing. *)
Lemma load_loop_settled ie cands count errors s :
  Forall (fun c => settled c s = true) cands →
  load_loop d0 ie cands count errors s = (Return (count, errors), s).
Proof.
  induction cands as [|[t name] cands IH]; intros Hall; [done|].
  apply Forall_cons in Hall as [Hc Hall]. simpl.
  unfold settled in Hc. simpl in Hc.
  destruct (is_registered_name name s || is_blocked name s); [by apply IH|].
  simpl in Hc. unfold load_candidate.
  rewrite (already_loaded_run _ _ _ Hc). simpl. by apply IH.
Qed.

Lemma loaded_refl count errors s : loaded count errors s (count, errors) s.
Proof.
  exists [], []. simpl. rewrite !app_nil_r. split; [done|]. split; [lia|].
  split; [done|lia].
Qed.

Lemma size_block n (b : gset string) : n ∉ b → size ({[n]} ∪ b) = S (size b).
Proof.
  intros Hn. rewrite size_union by set_solver. by rewrite size_singleton.
Qed.

Lemma filed_fields pn o s s1 :
  hooks_only s s1 → is_registered_name pn s = false →
  plugins (filed pn o s1) = plugins s ++ [(pn, o)] ∧
  _blocked (filed pn o s1) = _blocked s ∧
  hook_needs_discovery (filed pn o s1) = hook_needs_discovery s ∧
  discover_calls (filed pn o s1) = discover_calls s ∧
  is_registered_obj (obj_id o) (filed pn o s1) = true.
Proof.
  intros Hho Hn. destruct (hooks_only_fields _ _ Hho) as (Hp & Hp2 & Hbl & Hf & Hd).
  unfold filed, is_registered_obj; simpl. rewrite Hp, Hbl, Hf, Hd.
  split; [|split; [done|split; [done|split; [done|]]]].
  - apply set_fresh. unfold is_registered_name, Dict.mem in Hn.
    apply bool_decide_eq_false in Hn.
    destruct (Dict.get pn (plugins s)); [|done]. exfalso. by apply Hn.
  - apply bool_decide_eq_true. by rewrite lookup_insert_eq.
Qed.

Lemma blocked_fields name s s1 :
  hooks_only s s1 → is_registered_name name s = false →
  let sb := set_blocked name true s1 in
  sb = with_blocked (fun b => {[name]} ∪ b) s1 ∧
  plugins sb = plugins s ∧ _plugin2hookcallers sb = _plugin2hookcallers s ∧
  _blocked sb = {[name]} ∪ _blocked s ∧
  hook_needs_discovery sb = hook_needs_discovery s ∧
  discover_calls sb = discover_calls s.
Proof.
  intros Hho Hn sb. destruct (hooks_only_fields _ _ Hho) as (Hp & Hp2 & Hbl & Hf & Hd).
  assert (Hsb : sb = with_blocked (fun b => {[name]} ∪ b) s1).
  { apply set_blocked_unregistered. unfold is_registered_name in *. by rewrite Hp. }
  split; [done|]. rewrite Hsb. simpl. by rewrite Hbl.
Qed.

(** A pass over the candidates while no discovery is pending. *)
Lemma load_loop_pass ie cands count errors s out s' :
  hook_needs_discovery s = false →
  load_loop d0 ie cands count errors s = (out, s') →
  hook_needs_discovery s' = false ∧ discover_calls s' = discover_calls s ∧
  tables_grow s s' ∧ (tables_wf s → tables_wf s') ∧
  match out with
  | Return r =>
      loaded count errors s r s' ∧ Forall (fun c => settled c s' = true) cands ∧
      (ie = false → r.2 = errors)
  | Raise e => ie = false ∧ is_PluginError e = true
  | OutOfFuel => False
  end.
Proof.
  revert count errors s.
  induction cands as [|[t name] cands IH]; intros count errors s Hq; simpl.
  { intros [= <- <-]. split; [done|]. split; [done|]. split; [apply tables_grow_refl|].
    split; [done|]. split; [apply loaded_refl|done]. }
  destruct (is_registered_name name s) eqn:Hn; simpl.
  { intros Hrun. destruct (IH _ _ _ Hq Hrun) as (H1 & H2 & H3 & H4 & H5).
    do 4 (split; [done|]). destruct out as [r|e|]; [|done|done].
    destruct H5 as (H5 & H6 & H7). split; [done|]. split; [|done].
    apply Forall_cons. split; [|done].
    apply (settled_mono _ s); [done|]. unfold settled; simpl. by rewrite Hn. }
  destruct (is_blocked name s) eqn:Hb; simpl.
  { intros Hrun. destruct (IH _ _ _ Hq Hrun) as (H1 & H2 & H3 & H4 & H5).
    do 4 (split; [done|]). destruct out as [r|e|]; [|done|done].
    destruct H5 as (H5 & H6 & H7). split; [done|]. split; [|done].
    apply Forall_cons. split; [|done].
    apply (settled_mono _ s); [done|]. unfold settled; simpl.
    by rewrite Hb, orb_true_r. }
  unfold load_candidate.
  destruct (_load_and_register d0 t (Some name) s) as [o1 s1] eqn:Hlar.
  pose proof (_load_and_register_cases _ _ _ _ _ Hq Hlar) as Hc.
  destruct o1 as [[pn|]|e|]; [| | |done].
  - (* a plugin was registered *)
    destruct Hc as (Hne & Hpn & Hpb & o & s2 & Ht & Hkind & Hpneq & Ho & _ & Hho & ->).
    unfold truthy. rewrite decide_False by done.
    destruct (filed_fields pn o s s2 Hho Hpn) as (Fp & Fb & Ff & Fd & Fo).
    intros Hrun. apply IH in Hrun as (H1 & H2 & H3 & H4 & H5); [|congruence].
    split; [done|]. split; [congruence|].
    split; [eapply tables_grow_trans; [by apply tables_grow_filed|done]|].
    split.
    { intros Hwf. apply H4. by eapply tables_wf_filed. }
    destruct out as [r|e|]; [|done|done]. destruct H5 as (H5 & H6 & H7).
    split; [|split; [|done]].
    + destruct H5 as (added & errs & Hp & Hc1 & Hc2 & Hsz).
      exists ((pn, o) :: added), errs. rewrite Hp, Fp, <- app_assoc. simpl.
      split; [done|]. split; [lia|]. split; [done|]. by rewrite <- Fb.
    + apply Forall_cons. split; [|done].
      apply (settled_mono _ (filed pn o s2)); [done|].
      unfold settled, already_loaded; simpl. rewrite Ht, Fo.
      by rewrite orb_true_r.
  - (* nothing to register *)
    destruct Hc as [-> Hal]. simpl.
    intros Hrun. destruct (IH _ _ _ Hq Hrun) as (H1 & H2 & H3 & H4 & H5).
    do 4 (split; [done|]). destruct out as [r|e|]; [|done|done].
    destruct H5 as (H5 & H6 & H7). split; [done|]. split; [|done].
    apply Forall_cons. split; [|done].
    apply (settled_mono _ s); [done|]. unfold settled; simpl.
    by rewrite Hal, orb_true_r.
  - (* the candidate failed and is blocked *)
    destruct Hc as [Hho He]. rewrite He.
    destruct (blocked_fields name s s1 Hho Hn) as (Bs & Bp & Bh & Bb & Bf & Bd).
    assert (Hgrow : tables_grow s (set_blocked name true s1)).
    { apply tables_grow_fields; [done|done|]. rewrite Bb. set_solver. }
    assert (Hwf : tables_wf s → tables_wf (set_blocked name true s1)).
    { intros Hwf. apply tables_wf_set_blocked. by eapply tables_wf_hooks_only. }
    assert (Hsz : size (_blocked (set_blocked name true s1)) = S (size (_blocked s))).
    { rewrite Bb. apply size_block. unfold is_blocked in Hb.
      by apply bool_decide_eq_false in Hb. }
    destruct ie.
    + intros Hrun. apply IH in Hrun as (H1 & H2 & H3 & H4 & H5); [|congruence].
      split; [done|]. split; [congruence|].
      split; [by eapply tables_grow_trans|]. split; [by auto|].
      destruct out as [r|e'|]; [|by destruct H5|done]. destruct H5 as (H5 & H6 & H7).
      split; [|split; [|done]].
      * destruct H5 as (added & errs & Hp & Hc1 & Hc2 & Hsz').
        exists added, (e :: errs). rewrite Hp, Bp, Hc2, <- app_assoc. simpl.
        split; [done|]. split; [done|]. split; [done|]. lia.
      * apply Forall_cons. split; [|done].
        apply (settled_mono _ (set_blocked name true s1)); [done|].
        assert (Hbn : is_blocked name (set_blocked name true s1) = true).
        { unfold is_blocked. rewrite Bb. apply bool_decide_eq_true. set_solver. }
        unfold settled. cbn [fst snd]. by rewrite Hbn, orb_true_r.
    + intros Hrun. injection Hrun as <- Hs'.
      change (set_blocked name true s1 = s') in Hs'. subst s'.
      split; [congruence|]. split; [congruence|]. done.
Qed.
End Loading.

Section DiscoverPass.

Lemma discover_unfold fuel env ep pf ie s :
  discover (S fuel) env ep pf ie s =
  discover_loads env (relay_discover fuel env)
    (str_or ep (discover_entry_point s)) (str_or pf (discover_prefix s)) ie
    (with_needs_discovery false (count_discover s)).
Proof. reflexivity. Qed.

Lemma loaded_trans s s1 s' r1 r2 :
  loaded 0 [] s r1 s1 → loaded 0 [] s1 r2 s' →
  loaded 0 [] s (r1.1 + r2.1, r1.2 ++ r2.2) s'.
Proof.
  intros (a1 & e1 & Hp1 & Hc1 & He1 & Hs1) (a2 & e2 & Hp2 & Hc2 & He2 & Hs2).
  exists (a1 ++ a2), (e1 ++ e2). simpl in *.
  rewrite Hp2, Hp1, Hc1, Hc2, He1, He2, Hs2, Hs1, !length_app, <- app_assoc.
  split; [done|]. split; [lia|]. split; [done|lia].
Qed.

Lemma discover_loads_pass env d0 epn pfx ie s out s' :
  hook_needs_discovery s = false →
  discover_loads env d0 epn pfx ie s = (out, s') →
  hook_needs_discovery s' = false ∧ discover_calls s' = discover_calls s ∧
  tables_grow s s' ∧ (tables_wf s → tables_wf s') ∧
  match out with
  | Return r =>
      loaded 0 [] s r s' ∧
      Forall (fun c => settled c s' = true) (discover_candidates env epn pfx) ∧
      (ie = false → r.2 = [])
  | Raise e => ie = false ∧ is_PluginError e = true
  | OutOfFuel => False
  end.
Proof.
  intros Hq. unfold discover_loads, discover_candidates.
  destruct (DISABLE_ALL_PLUGINS env).
  { intros [= <- <-]. split; [done|]. split; [done|]. split; [apply tables_grow_refl|].
    split; [done|]. split; [apply loaded_refl|done]. }
  unfold bind at 1. rewrite load_entrypoints_body_candidates.
  destruct (load_loop d0 ie (entry_candidates env epn "") 0 [] s) as [o1 s1] eqn:H1.
  destruct (load_loop_pass _ _ _ _ _ _ _ _ Hq H1) as (A1 & A2 & A3 & A4 & A5).
  destruct o1 as [r1|e|]; [| |done].
  2:{ intros [= <- <-]. done. }
  unfold bind at 1. rewrite load_modules_by_prefix_body_candidates.
  destruct (load_loop d0 ie (prefix_candidates env pfx) 0 [] s1) as [o2 s2] eqn:H2.
  destruct (load_loop_pass _ _ _ _ _ _ _ _ A1 H2) as (B1 & B2 & B3 & B4 & B5).
  destruct o2 as [r2|e|]; [| |done].
  2:{ intros [= <- <-]. split; [done|]. split; [congruence|].
      split; [by eapply tables_grow_trans|]. split; [by auto|done]. }
  intros [= <- <-]. split; [done|]. split; [congruence|].
  split; [by eapply tables_grow_trans|]. split; [by auto|].
  destruct A5 as (A5 & A6 & A7), B5 as (B5 & B6 & B7).
  split; [by eapply loaded_trans|]. split.
  - apply Forall_app. split; [|done].
    eapply Forall_impl; [exact A6|]. intros c Hc. by eapply settled_mono.
  - intros Hie. simpl. by rewrite A7, B7.
Qed.

Lemma started_fields s :
  let s0 := with_needs_discovery false (count_discover s) in
  plugins s0 = plugins s ∧ _plugin2hookcallers s0 = _plugin2hookcallers s ∧
  _blocked s0 = _blocked s ∧ hook_needs_discovery s0 = false ∧
  discover_calls s0 = S (discover_calls s).
Proof. done. Qed.

(** A discovery pass, whatever the relay's flag was. *)
Lemma discover_pass fuel env ep pf ie s out s' :
  discover (S fuel) env ep pf ie s = (out, s') →
  hook_needs_discovery s' = false ∧ discover_calls s' = S (discover_calls s) ∧
  tables_grow s s' ∧ (tables_wf s → tables_wf s') ∧
  match out with
  | Return r =>
      loaded 0 [] s r s' ∧
      Forall (fun c => settled c s' = true)
        (discover_candidates env (str_or ep (discover_entry_point s))
           (str_or pf (discover_prefix s))) ∧
      (ie = false → r.2 = [])
  | Raise e => ie = false ∧ is_PluginError e = true
  | OutOfFuel => False
  end.
Proof.
  rewrite discover_unfold. intros Hrun.
  apply discover_loads_pass in Hrun as (H1 & H2 & H3 & H4 & H5); [|done].
  split; [done|]. split; [done|].
  split.
  { eapply tables_grow_trans; [|exact H3]. by apply tables_grow_fields. }
  split.
  { intros Hwf. apply H4. revert Hwf. by apply tables_wf_fields. }
  destruct out as [r|e|]; [|done|done]. destruct H5 as (H5 & H6 & H7).
  split; [|done].
  destruct H5 as (a & e & Hp & Hc & He & Hs). by exists a, e.
Qed.

Lemma relay_access_pass fuel env n s :
  ∃ s1, relay_access (relay_discover (S fuel) env) n s = (Return tt, s1) ∧
        (n ∉ relay_private → hook_needs_discovery s1 = false) ∧
        tables_grow s s1 ∧ (tables_wf s → tables_wf s1).
Proof.
  unfold relay_access. case_bool_decide as Hn.
  { exists s. split; [done|]. split; [done|]. split; [apply tables_grow_refl|done]. }
  destruct (hook_needs_discovery s) eqn:Hq.
  - unfold bind, relay_discover; cbn [rt_discover].
    destruct (discover (S fuel) env None None true s) as [o s1] eqn:Hrun.
    apply discover_pass in Hrun as (H1 & H2 & H3 & H4 & H5).
    destruct o as [r|e|]; [|by destruct H5|done].
    exists s1. done.
  - exists s. split; [done|]. split; [done|]. split; [apply tables_grow_refl|done].
Qed.
End DiscoverPass.

Section DeclareTables.
Variables (fuel : nat) (env : Environment).

Lemma add_hookspec_tables name m opts s out s' :
  add_hookspec (relay_discover (S fuel) env) name m opts s = (out, s') →
  tables_grow s s' ∧ (tables_wf s → tables_wf s').
Proof.
  unfold add_hookspec, relay_getattr. unfold bind at 1. unfold bind at 1.
  destruct (relay_access_pass fuel env name s) as (s1 & -> & Hq & Hg & Hwf).
  unfold gets.
  assert (Hstep : ∀ f, tables_grow s (with_hook_dict f s1) ∧
                       (tables_wf s → tables_wf (with_hook_dict f s1))).
  { intros f. split.
    - eapply tables_grow_trans; [exact Hg|]. by apply tables_grow_fields.
    - intros H. apply Hwf in H. revert H. by apply tables_wf_fields. }
  destruct (relay_lookup _ name s1) as [[c|]|].
  - destruct (set_specification m opts c) as [c'|].
    + unfold bind, relay_setattr, modify.
      destruct (verify_all_cases c' (get_hookimpls c')
                  (with_hook_dict (Dict.set name c') s1))
        as [[_ ->]|(i & why & _ & _ & ->)]; intros [= <- <-]; apply Hstep.
    + intros [= <- <-]. done.
  - intros [= <- <-]. done.
  - unfold relay_setattr, modify. intros [= <- <-]. apply Hstep.
Qed.

Lemma add_hookspecs_loop_tables attrs names s out s' :
  add_hookspecs_loop (relay_discover (S fuel) env) attrs names s = (out, s') →
  tables_grow s s' ∧ (tables_wf s → tables_wf s').
Proof.
  revert names s. induction attrs as [|[n a] attrs IH]; intros names s; simpl.
  - intros [= <- <-]. split; [apply tables_grow_refl|done].
  - destruct a as [|m]; [apply IH|].
    destruct (fn_spec m) as [opts|]; [|apply IH].
    unfold bind at 1.
    destruct (add_hookspec _ n m opts s) as [o1 s1] eqn:H1.
    apply add_hookspec_tables in H1 as [G1 W1].
    destruct o1 as [[]|e|].
    + intros Hrun. apply IH in Hrun as [G2 W2].
      split; [by eapply tables_grow_trans|by auto].
    + by intros [= <- <-].
    + by intros [= <- <-].
Qed.

Lemma add_hookspecs_tables ns s :
  tables_grow s (add_hookspecs (S fuel) env ns s).2 ∧
  (tables_wf s → tables_wf (add_hookspecs (S fuel) env ns s).2).
Proof.
  unfold add_hookspecs, add_hookspecs_body, bind.
  destruct (add_hookspecs_loop _ (obj_dir ns) [] s) as [o1 s1] eqn:H1.
  apply add_hookspecs_loop_tables in H1.
  destruct o1 as [[|n names]|e|]; done.
Qed.

Lemma check_pending_tables s :
  tables_grow s (check_pending (S fuel) env s).2 ∧
  (tables_wf s → tables_wf (check_pending (S fuel) env s).2).
Proof.
  unfold check_pending, check_pending_body, bind.
  destruct (relay_access_pass fuel env "__dict__" s) as (s1 & -> & Hq & Hg & Hwf).
  unfold gets.
  assert (hook_needs_discovery s1 = false) as Hq1.
  { apply Hq. unfold relay_private. set_solver. }
  destruct (check_pending_loop_quiet (relay_discover (S fuel) env) s1
              ((hook_dict s1).*1) Hq1) as (o & -> & _).
  { intros n Hn. by apply elem_keys_get. }
  by destruct o.
Qed.
End DeclareTables.

Section Declare.
Variable d0 : Runtime.

Lemma add_hookspecs_loop_unmarked attrs names s :
  Forall unmarked attrs →
  add_hookspecs_loop d0 attrs names s = (Return names, s).
Proof.
  induction attrs as [|[n a] attrs IH]; intros Hall; [done|].
  apply Forall_cons in Hall as [Ha Hall]. simpl.
  destruct a as [|m]; [by apply IH|].
  unfold unmarked in Ha; simpl in Ha. rewrite Ha. by apply IH.
Qed.

Lemma add_hookspecs_loop_skip pre attrs names s :
  Forall unmarked pre →
  add_hookspecs_loop d0 (pre ++ attrs) names s = add_hookspecs_loop d0 attrs names s.
Proof.
  induction pre as [|[n a] pre IH]; intros Hall; [done|].
  apply Forall_cons in Hall as [Ha Hall]. simpl.
  destruct a as [|m]; [by apply IH|].
  unfold unmarked in Ha; simpl in Ha. rewrite Ha. by apply IH.
Qed.

(** Names are only added to the list that [add_hookspecs] checks in
    the end. *)
Lemma add_hookspecs_loop_names attrs names s names' s' :
  add_hookspecs_loop d0 attrs names s = (Return names', s') →
  names `prefix_of` names' ∧ (¬ Forall unmarked attrs → names' ≠ names).
Proof.
  revert names s. induction attrs as [|[n a] attrs IH]; intros names s; simpl.
  - intros [= <- <-]. split; [done|]. intros H. by destruct H.
  - destruct a as [|m].
    + intros Hrun. apply IH in Hrun as [Hp Hne]. split; [done|].
      intros H. apply Hne. intros Hall. apply H. by apply Forall_cons.
    + destruct (fn_spec m) as [opts|] eqn:Hm.
      * unfold bind at 1.
        destruct (add_hookspec d0 n m opts s) as [[[]|e|] s1]; [|done|done].
        intros Hrun. apply IH in Hrun as [Hp Hne].
        assert (names `prefix_of` names') as Hp'.
        { etrans; [|exact Hp]. by apply prefix_app_r. }
        split; [done|]. intros _ ->.
        apply prefix_length in Hp. rewrite length_app in Hp. simpl in Hp. lia.
      * intros Hrun. apply IH in Hrun as [Hp Hne]. split; [done|].
        intros H. apply Hne. intros Hall. apply H. by apply Forall_cons.
Qed.

End Declare.

Section DeclareRelay.
Variables (fuel : nat) (env : Environment).

(** One declaration: what it raises, and what it leaves bound. *)
Lemma add_hookspec_outcome name m opts s out s' :
  add_hookspec (relay_discover (S fuel) env) name m opts s = (out, s') →
  (hook_needs_discovery s = false → hooks_only s s') ∧
  (∀ h, is_Some (spec_of s h) → is_Some (spec_of s' h)) ∧
  match out with
  | Return _ => is_Some (spec_of s' name)
  | Raise e =>
      ((e = AssertionError ∨ e = AttributeError) ∧
       (hook_needs_discovery s = false → s' = s)) ∨
      is_validation_failure e = true
  | OutOfFuel => False
  end.
Proof.
  intros Hrun.
  destruct (add_hookspec_gen _ _ _ _ _ _ _ _ Hrun) as (s1 & Hf & Hs1 & Hcase).
  destruct Hf as (_ & _ & (Hsp & _ & _) & _).
  assert (Hho : ∀ f, hook_needs_discovery s = false → hooks_only s (with_hook_dict f s1)).
  { intros f Hq. rewrite (Hs1 Hq). unfold hooks_only. by destruct s. }
  destruct (relay_lookup _ name s1) as [[c|]|] eqn:Hget.
  - destruct Hcase as [Hc Hcase]. destruct (hc_spec c) as [sp|] eqn:Hsp'.
    + destruct Hcase as [-> ->].
      split. { intros Hq. rewrite (Hs1 Hq). apply hooks_only_refl. }
      split. { intros h. by rewrite Hsp. }
      left. split; [by left|done].
    + destruct Hcase as [-> Hcase]. split; [by auto|].
      assert (Hname : spec_of (with_hook_dict (Dict.set name (bind_spec m opts c)) s1) name
                      = Some (new_spec m opts)).
      { rewrite spec_of_set. by rewrite decide_True. }
      split.
      { intros h Hh. rewrite spec_of_set. destruct (decide (name = h)); [done|].
        by rewrite Hsp. }
      destruct Hcase as [[_ ->]|(i & why & _ & _ & ->)]; [by rewrite Hname|by right].
  - destruct Hcase as [-> ->].
    split. { intros Hq. rewrite (Hs1 Hq). apply hooks_only_refl. }
    split. { intros h. by rewrite Hsp. }
    left. split; [by right|done].
  - destruct Hcase as [-> ->]. split; [by auto|].
    split.
    { intros h Hh. rewrite spec_of_set. destruct (decide (name = h)); [done|].
      by rewrite Hsp. }
    rewrite spec_of_set. by rewrite decide_True.
Qed.

Lemma add_hookspecs_loop_outcome attrs names s out s' :
  add_hookspecs_loop (relay_discover (S fuel) env) attrs names s = (out, s') →
  (∀ h, is_Some (spec_of s h) → is_Some (spec_of s' h)) ∧
  match out with
  | Return _ => True
  | Raise e =>
      e = AssertionError ∨ e = AttributeError ∨ is_validation_failure e = true
  | OutOfFuel => False
  end.
Proof.
  revert names s. induction attrs as [|[n a] attrs IH]; intros names s; simpl.
  - by intros [= <- <-].
  - destruct a as [|m]; [apply IH|].
    destruct (fn_spec m) as [opts|]; [|apply IH].
    unfold bind at 1.
    destruct (add_hookspec _ n m opts s) as [o1 s1] eqn:H1.
    apply add_hookspec_outcome in H1 as (_ & Hsp & Hout).
    destruct o1 as [[]|e|]; [| |done].
    + intros Hrun. apply IH in Hrun as (Hsp' & Hout').
      split; [by auto|done].
    + intros [= <- <-]. split; [done|].
      destruct Hout as [([->| ->] & _)|Hv]; [by left|by right; left|by right; right].
Qed.
End DeclareRelay.

Section SysPathFacts.
Import SysPath.

Lemma enter_rev to_add sys_path : enter to_add sys_path = reverse to_add ++ sys_path.
Proof.
  unfold enter. revert sys_path. induction to_add as [|p l IH]; intros sp; [done|].
  simpl. rewrite IH, reverse_cons, <- app_assoc. done.
Qed.

(** [remove] takes one occurrence out of the part before [sys_path]. *)
Lemma remove_app_elem p l sp :
  p ∈ l → ∃ l', remove p (l ++ sp) = Some (l' ++ sp) ∧ l ≡ₚ p :: l'.
Proof.
  induction l as [|x l IH]; intros Hin; [by apply elem_of_nil in Hin|].
  simpl. destruct (decide (x = p)) as [->|Hne].
  - exists l. done.
  - apply elem_of_cons in Hin as [->|Hin]; [done|].
    destruct (IH Hin) as (l' & -> & Hperm). exists (x :: l'). split; [done|].
    rewrite Hperm. apply Permutation_swap.
Qed.

Lemma leave_perm to_add l sp :
  l ≡ₚ to_add → leave to_add (l ++ sp) = Some sp.
Proof.
  revert l. induction to_add as [|p rest IH]; intros l Hperm.
  - apply Permutation_nil_r in Hperm as ->. done.
  - simpl. destruct (remove_app_elem p l sp) as (l' & -> & Hl).
    { rewrite Hperm. by left. }
    apply IH. rewrite Hl in Hperm. by apply Permutation_cons_inv in Hperm.
Qed.

Lemma leave_enter to_add sys_path : leave to_add (enter to_add sys_path) = Some sys_path.
Proof. rewrite enter_rev. apply leave_perm. apply reverse_Permutation. Qed.
End SysPathFacts.

Section DeclareQuiet.
Variable d0 : Runtime.

Lemma add_hookspec_quiet name m opts s out s' :
  hook_needs_discovery s = false →
  add_hookspec d0 name m opts s = (out, s') →
  hooks_only s s' ∧ out ≠ OutOfFuel.
Proof.
  intros Hq. unfold add_hookspec. unfold bind at 1.
  rewrite relay_getattr_quiet by done.
  assert (Hho : ∀ f, hooks_only s (with_hook_dict f s)).
  { intros f. unfold hooks_only. by destruct s. }
  destruct (relay_lookup d0 name s) as [[c|]|].
  - destruct (set_specification m opts c) as [c'|].
    + unfold bind, relay_setattr, modify.
      destruct (verify_all_cases c' (get_hookimpls c')
                  (with_hook_dict (Dict.set name c') s))
        as [[_ ->]|(i & why & _ & _ & ->)]; intros [= <- <-]; split; done.
    + intros [= <- <-]. split; [apply hooks_only_refl|done].
  - intros [= <- <-]. split; [apply hooks_only_refl|done].
  - unfold relay_setattr, modify. intros [= <- <-]. split; done.
Qed.

Lemma add_hookspecs_loop_quiet attrs names s out s' :
  hook_needs_discovery s = false →
  add_hookspecs_loop d0 attrs names s = (out, s') →
  hooks_only s s' ∧ out ≠ OutOfFuel.
Proof.
  revert names s. induction attrs as [|[n a] attrs IH]; intros names s Hq; simpl.
  - intros [= <- <-]. split; [apply hooks_only_refl|done].
  - destruct a as [|m]; [by apply IH|].
    destruct (fn_spec m) as [opts|]; [|by apply IH].
    unfold bind at 1.
    destruct (add_hookspec d0 n m opts s) as [o1 s1] eqn:H1.
    apply add_hookspec_quiet in H1 as [Hho Hne]; [|done].
    destruct o1 as [[]|e|]; [| |done].
    + intros Hrun. apply IH in Hrun as [Hho' Hne'].
      * split; [by eapply hooks_only_trans|done].
      * apply hooks_only_fields in Hho as (_ & _ & _ & -> & _). done.
    + by intros [= <- <-].
Qed.

Lemma add_hookspecs_body_quiet ns s out s' :
  hook_needs_discovery s = false →
  add_hookspecs_body d0 ns s = (out, s') →
  hooks_only s s' ∧ out ≠ OutOfFuel.
Proof.
  intros Hq. unfold add_hookspecs_body, bind.
  destruct (add_hookspecs_loop d0 (obj_dir ns) [] s) as [o1 s1] eqn:H1.
  apply add_hookspecs_loop_quiet in H1 as [Hho Hne]; [|done].
  destruct o1 as [[|n names]|e|]; [| | |done]; by intros [= <- <-].
Qed.

Lemma check_pending_body_quiet s :
  hook_needs_discovery s = false →
  ∃ o, check_pending_body d0 s = (o, s) ∧ o ≠ OutOfFuel ∧
       (o = Return tt ↔ ∀ n i, ¬ pending s n i).
Proof.
  intros Hq. unfold check_pending_body, bind. rewrite relay_access_quiet by done.
  unfold gets.
  destruct (check_pending_loop_quiet d0 s ((hook_dict s).*1) Hq) as (o & -> & Ho).
  { intros n Hn. by apply elem_keys_get. }
  exists o. split; [done|].
  destruct Ho as [[-> Hno]|(n & i & Hn & Hp & ->)].
  - split; [done|]. split; [|done]. intros _ n i Hp. apply (Hno n i); [|done].
    destruct Hp as (_ & _ & Hi & _). unfold impls_of in Hi.
    destruct (Dict.get n (hook_dict s)) as [c|] eqn:E; [|by apply elem_of_nil in Hi].
    apply get_Some_elem in E. apply list_elem_of_fmap. by exists (n, c).
  - split; [done|]. split; [done|]. intros H. by destruct (H n i).
Qed.
End DeclareQuiet.

Section Sorting.
Context {A : Type}.

Lemma insert_sorted_perm k (v : A) l : insert_sorted k v l ≡ₚ (k, v) :: l.
Proof.
  induction l as [|[k' v'] l IH]; simpl; [done|].
  destruct (String.leb k k'); [done|].
  rewrite IH. apply Permutation_swap.
Qed.

Lemma sort_items_perm (l : list (string * A)) : sort_items l ≡ₚ l.
Proof.
  unfold sort_items. induction l as [|[k v] l IH]; simpl; [done|].
  rewrite insert_sorted_perm. by rewrite IH.
Qed.
End Sorting.

Section DictGet.
Context {V : Type}.

(** Filtering on the key keeps the lookups of the keys that pass. *)
Lemma get_filter_key (P : string → bool) (d : list (string * V)) n :
  Dict.get n (filter (fun kv : string * V => P kv.1 = false) d) =
  if P n then None else Dict.get n d.
Proof.
  induction d as [|[k v] d IH]; simpl.
  - by destruct (P n).
  - rewrite filter_cons. simpl. destruct (decide (P k = false)) as [Hk|Hk].
    + simpl. destruct (decide (n = k)) as [->|Hne]; [by rewrite Hk|done].
    + rewrite IH. destruct (decide (n = k)) as [->|Hne]; [|done].
      by destruct (P k).
Qed.
End DictGet.

Section DictNamespace.
Variable py : Interpreter.

Lemma isidentifier_nonempty k : isidentifier py k = true → k ≠ "".
Proof. by destruct k. Qed.

(** A mapping none of whose keys starts with two underscores becomes a
    class that has each function under its key. *)
Lemma class_dir_plain (obj : list (string * Routine)) :
  Forall (fun k => startswith k "__" = false) obj.*1 →
  class_dir py obj = Some (sort_items (prod_map id ARoutine <$> obj)).
Proof.
  induction obj as [|[k v] obj IH]; [done|].
  intros [Hk Hall]%Forall_cons. simpl in Hk. cbn [class_dir].
  unfold class_attr. rewrite Hk. by rewrite (IH Hall).
Qed.

(** The class that [ensure_namespace] makes of the functions of a
    mapping. *)
Lemma iter_implementations_dict cls dct o :
  Forall (fun k => isidentifier py k = true) (function_keys dct) →
  Forall (fun k => startswith k "__" = false) (function_keys dct) →
  obj_id o = cls →
  class_dir py (clean_dct dct) = Some (obj_dir o) →
  hook_names o ≡ₚ function_keys dct ∧
  ∀ k r, (k, DFunction r) ∈ dct →
    ∃ j, j ∈ iter_implementations o ∧ impl_specname j = k ∧
         impl_function j = mark_impl k r ∧ impl_plugin j = cls.
Proof.
  intros Hid Hplain Hcls Hdir.
  rewrite class_dir_plain in Hdir by done. injection Hdir as Hdir.
  assert (Hperm : obj_dir o ≡ₚ prod_map id ARoutine <$> clean_dct dct).
  { rewrite <- Hdir. apply sort_items_perm. }
  assert (Hkey : ∀ k m, (k, m) ∈ clean_dct dct →
            isidentifier py k = true ∧ ∃ r, (k, DFunction r) ∈ dct ∧ m = mark_impl k r).
  { intros k m Hin. split.
    - eapply (proj1 (Forall_forall _ _) Hid). apply list_elem_of_fmap.
      by exists (k, m).
    - unfold clean_dct in Hin. apply list_elem_of_omap in Hin as ([k' v] & Hin & Hv).
      simpl in Hv. destruct v as [r|]; [|done]. injection Hv as -> <-.
      by exists r. }
  assert (Hone : ∀ k m, (k, m) ∈ clean_dct dct →
            match fn_impl m with
            | Some opts => Some (new_hookimpl m o opts)
            | None => None
            end = Some (new_hookimpl m o (mkImplOpts false false Neutral (Some k))) ∧
            impl_specname (new_hookimpl m o (mkImplOpts false false Neutral (Some k))) = k).
  { intros k m Hin. destruct (Hkey k m Hin) as (Hk & r & _ & ->). simpl.
    split; [done|]. apply isidentifier_nonempty in Hk.
    by rewrite decide_False. }
  split.
  - unfold hook_names, iter_implementations, function_keys.
    rewrite Hperm. clear Hperm Hdir Hplain.
    induction (clean_dct dct) as [|[k m] l IH]; [done|].
    simpl. destruct (Hone k m) as [-> Hs]; [by left|]. simpl.
    simpl in Hs. rewrite Hs. apply Permutation_skip. apply IH.
    + intros k' m' Hin. apply Hkey. by right.
    + intros k' m' Hin. apply Hone. by right.
  - intros k r Hin.
    assert (Hc : (k, mark_impl k r) ∈ clean_dct dct).
    { unfold clean_dct. apply list_elem_of_omap. by exists (k, DFunction r). }
    destruct (Hone _ _ Hc) as [Hsome Hs].
    exists (new_hookimpl (mark_impl k r) o (mkImplOpts false false Neutral (Some k))).
    split; [|done].
    unfold iter_implementations. apply list_elem_of_omap.
    exists (k, ARoutine (mark_impl k r)). split; [|done].
    rewrite Hperm. apply list_elem_of_fmap. by exists (k, mark_impl k r).
Qed.
End DictNamespace.

Section RegisterGrows.
Variables (fuel : nat) (env : Environment).

Lemma tables_grow_file pn o hcs s :
  tables_grow s (with_plugins (Dict.set pn o)
                   (with_plugin2hookcallers (<[obj_id o := hcs]>) s)).
Proof.
  unfold tables_grow, is_registered_name, is_registered_obj; simpl.
  refine (conj _ (conj _ _)); [| |done].
  - intros n. unfold Dict.mem. rewrite !bool_decide_eq_true, get_set.
    by destruct (decide (pn = n)).
  - intros x. rewrite !bool_decide_eq_true.
    destruct (decide (x = obj_id o)) as [->|Hne].
    + by rewrite lookup_insert_eq.
    + by rewrite lookup_insert_ne.
Qed.

Lemma register_impl_tables pn i0 s out s' :
  register_impl (relay_discover (S fuel) env) pn i0 s = (out, s') →
  tables_grow s s'.
Proof.
  unfold register_impl, relay_getattr. unfold bind at 1. unfold bind at 1.
  cbn [impl_specname with_plugin_name].
  destruct (relay_access_pass fuel env (impl_specname i0) s) as (s1 & -> & _ & Hg & _).
  unfold gets.
  assert (∀ f, tables_grow s (with_hook_dict f s1)) as Hstep.
  { intros f. eapply tables_grow_trans; [exact Hg|]. by apply tables_grow_fields. }
  destruct (relay_lookup _ (impl_specname i0) s1) as [[c|]|].
  - destruct (has_spec c).
    + unfold bind at 1. unfold bind at 1.
      destruct (_verify_hook_cases c (with_plugin_name pn i0) s1)
        as [[_ ->]|[_ (why & ->)]]; intros [= <- <-]; [apply Hstep|done].
    + intros [= <- <-]. apply Hstep.
  - by intros [= <- <-].
  - unfold bind, relay_setattr, modify, ret; simpl. intros [= <- <-].
    eapply tables_grow_trans; [exact Hg|]. by apply tables_grow_fields.
Qed.

Lemma register_loop_tables pn impls hcs s out s' :
  register_loop (relay_discover (S fuel) env) pn impls hcs s = (out, s') →
  tables_grow s s'.
Proof.
  revert hcs s. induction impls as [|i0 impls IH]; intros hcs s; simpl.
  - intros [= <- <-]. apply tables_grow_refl.
  - unfold bind at 1.
    destruct (register_impl _ pn i0 s) as [o1 s1] eqn:H1.
    apply register_impl_tables in H1.
    destruct o1 as [n|e|].
    + intros Hrun. apply IH in Hrun. by eapply tables_grow_trans.
    + by intros [= <- <-].
    + by intros [= <- <-].
Qed.

Lemma register_obj_tables o name s out s' :
  register_obj (relay_discover (S fuel) env) o name s = (out, s') →
  tables_grow s s'.
Proof.
  unfold register_obj.
  destruct (is_blocked _ s); [intros [= <- <-]; apply tables_grow_refl|].
  destruct (is_registered_name _ s); [intros [= <- <-]; apply tables_grow_refl|].
  destruct (is_registered_obj _ s); [intros [= <- <-]; apply tables_grow_refl|].
  unfold bind at 1.
  destruct (register_loop _ _ _ [] s) as [o1 s1] eqn:Hloop.
  apply register_loop_tables in Hloop.
  destruct o1 as [hcs|e|].
  - unfold bind, modify, ret. intros [= <- <-].
    eapply tables_grow_trans; [exact Hloop|]. apply tables_grow_file.
  - by intros [= <- <-].
  - by intros [= <- <-].
Qed.

Lemma register_tables v name s :
  tables_grow s (register (S fuel) env v name s).2.
Proof.
  unfold register. destruct v as [n|cls dct|o]; simpl.
  - apply tables_grow_refl.
  - unfold _register_dict, bind.
    destruct (ensure_namespace_cases (relay_discover (S fuel) env) cls (clean_dct dct) s)
      as [(_ & ns & -> & _)|[(bad & _ & _ & ->)|(_ & _ & ->)]];
      [|apply tables_grow_refl|apply tables_grow_refl].
    destruct (register_obj _ ns name s) as [out s'] eqn:E.
    by apply register_obj_tables in E.
  - destruct (register_obj _ o name s) as [out s'] eqn:E.
    by apply register_obj_tables in E.
Qed.
End RegisterGrows.

Section Sourced.
Variable d0 : Runtime.

Lemma sourced_refl cands s : sourced cands s s.
Proof. exists []. rewrite app_nil_r. split; [done|]. split; [done|set_solver]. Qed.

Lemma from_candidate_weaken cands cands' po :
  cands ⊆ cands' → from_candidate cands po → from_candidate cands' po.
Proof. intros Hsub (t & name & Hin & H). exists t, name. split; [by apply Hsub|done]. Qed.

Lemma sourced_trans cands1 cands2 cands s1 s2 s3 :
  cands1 ⊆ cands → cands2 ⊆ cands →
  sourced cands1 s1 s2 → sourced cands2 s2 s3 → sourced cands s1 s3.
Proof.
  intros H1 H2 (a1 & Hp1 & Hf1 & Hb1) (a2 & Hp2 & Hf2 & Hb2).
  exists (a1 ++ a2). rewrite Hp2, Hp1, <- app_assoc. split; [done|]. split.
  - apply Forall_app. split; (eapply Forall_impl; [eassumption|]);
      intros po; by apply from_candidate_weaken.
  - assert (list_to_set cands1.*2 ⊆@{gset string} list_to_set cands.*2).
    { intros x. rewrite !elem_of_list_to_set, !list_elem_of_fmap.
      intros (c & -> & Hc). exists c. split; [done|by apply H1]. }
    assert (list_to_set cands2.*2 ⊆@{gset string} list_to_set cands.*2).
    { intros x. rewrite !elem_of_list_to_set, !list_elem_of_fmap.
      intros (c & -> & Hc). exists c. split; [done|by apply H2]. }
    set_solver.
Qed.

Lemma load_loop_sourced ie cands count errors s out s' :
  hook_needs_discovery s = false →
  load_loop d0 ie cands count errors s = (out, s') →
  sourced cands s s'.
Proof.
  revert count errors s.
  induction cands as [|[t name] cands IH]; intros count errors s Hq; simpl.
  { intros [= <- <-]. apply sourced_refl. }
  assert (Htail : cands ⊆ (t, name) :: cands) by (intros x Hx; by right).
  assert (Hskip : ∀ c e, load_loop d0 ie cands c e s = (out, s') →
                         sourced ((t, name) :: cands) s s').
  { intros c e Hrun. apply (sourced_trans [] cands _ s s s').
    - intros x Hx. by apply elem_of_nil in Hx.
    - done.
    - apply sourced_refl.
    - by eapply IH. }
  destruct (is_registered_name name s) eqn:Hn; simpl; [by apply Hskip|].
  destruct (is_blocked name s) eqn:Hb; simpl; [by apply Hskip|].
  unfold load_candidate.
  destruct (_load_and_register d0 t (Some name) s) as [o1 s1] eqn:Hlar.
  pose proof (_load_and_register_cases _ _ _ _ _ _ Hq Hlar) as Hc.
  destruct o1 as [[pn|]|e|]; [| | |done].
  - destruct Hc as (Hne & Hpn & Hpb & o & s2 & Ht & Hkind & Hpneq & Ho & _ & Hho & ->).
    destruct (filed_fields pn o s s2 Hho Hpn) as (Fp & Fb & Ff & Fd & Fo).
    intros Hrun. apply IH in Hrun; [|congruence].
    apply (sourced_trans [(t, name)] cands _ s (filed pn o s2) s'); [| | |done].
    + intros x Hx. apply list_elem_of_singleton in Hx as ->. by left.
    + done.
    + exists [(pn, o)]. split; [done|]. split.
      * apply Forall_singleton. exists t, name. split; [by left|]. split; [done|].
        split; [|done]. unfold class_or_module. simpl in Hkind. simpl.
        destruct (obj_kind o); [by right|by left|done].
      * rewrite Fb. set_solver.
  - destruct Hc as [-> _]. simpl. by apply Hskip.
  - destruct Hc as [Hho He]. rewrite He.
    destruct (blocked_fields name s s1 Hho Hn) as (Bs & Bp & Bh & Bb & Bf & Bd).
    assert (Hstep : sourced [(t, name)] s (set_blocked name true s1)).
    { exists []. rewrite app_nil_r. split; [done|]. split; [done|].
      rewrite Bb. simpl. set_solver. }
    assert (Hhead : [(t, name)] ⊆ (t, name) :: cands).
    { intros x Hx. apply list_elem_of_singleton in Hx as ->. by left. }
    destruct ie.
    + intros Hrun. apply IH in Hrun; [|congruence].
      by apply (sourced_trans [(t, name)] cands _ s (set_blocked name true s1) s').
    + intros Hrun. injection Hrun as <- Hs'.
      change (set_blocked name true s1 = s') in Hs'. subst s'.
      apply (sourced_trans [(t, name)] [] _ s (set_blocked name true s1)); [done| | |].
      * intros x Hx. by apply elem_of_nil in Hx.
      * done.
      * apply sourced_refl.
Qed.

Lemma elem_of_entry_candidates env group name t n :
  (t, n) ∈ entry_candidates env group name →
  ∃ ep, ep ∈ concat (distributions env) ∧ ep_group ep = group ∧
        t = ep_target ep ∧ n = ep_name ep.
Proof.
  unfold entry_candidates.
  destruct (negb (nonempty group) || DISABLE_ENTRYPOINT_PLUGINS env).
  { intros H. by apply elem_of_nil in H. }
  unfold ep_candidates. intros H. apply list_elem_of_omap in H as (ep & Hep & Hc).
  destruct (bool_decide (ep_group ep ≠ group)) eqn:Hg; [done|].
  apply bool_decide_eq_false in Hg. simpl in Hc.
  destruct (nonempty name && bool_decide (ep_name ep ≠ name)); [done|].
  injection Hc as <- <-. exists ep. split; [done|]. split; [|done].
  by destruct (decide (ep_group ep = group)).
Qed.

Lemma elem_of_prefix_candidates env prefix t n :
  (t, n) ∈ prefix_candidates env prefix →
  ∃ m, m ∈ iter_modules env ∧ startswith (tgt_name (mc_target m)) prefix = true ∧
       t = mc_target m ∧ n = module_plugin_name m.
Proof.
  unfold prefix_candidates.
  destruct (DISABLE_PREFIX_PLUGINS env || negb (nonempty prefix)).
  { intros H. by apply elem_of_nil in H. }
  unfold module_candidates. intros H. apply list_elem_of_omap in H as (m & Hm & Hc).
  destruct (startswith (tgt_name (mc_target m)) prefix) eqn:Hs; [|done].
  injection Hc as <- <-. exists m. done.
Qed.

Lemma from_candidate_offered env group prefix po :
  from_candidate (discover_candidates env group prefix) po →
  offered env group prefix po.
Proof.
  unfold discover_candidates. intros (t & name & Hin & Ht & Hn).
  destruct (DISABLE_ALL_PLUGINS env); [by apply elem_of_nil in Hin|].
  apply elem_of_app in Hin as [Hin|Hin].
  - apply elem_of_entry_candidates in Hin as (ep & Hep & Hg & -> & ->).
    left. exists ep. done.
  - apply elem_of_prefix_candidates in Hin as (m & Hm & Hs & -> & ->).
    right. exists m. done.
Qed.

Lemma discover_loads_sourced env epn pfx ie s out s' :
  hook_needs_discovery s = false →
  discover_loads env d0 epn pfx ie s = (out, s') →
  sourced (discover_candidates env epn pfx) s s'.
Proof.
  intros Hq. unfold discover_loads, discover_candidates.
  destruct (DISABLE_ALL_PLUGINS env).
  { intros [= <- <-]. apply sourced_refl. }
  unfold bind at 1. rewrite load_entrypoints_body_candidates.
  destruct (load_loop d0 ie (entry_candidates env epn "") 0 [] s) as [o1 s1] eqn:H1.
  pose proof (load_loop_sourced _ _ _ _ _ _ _ Hq H1) as S1.
  destruct (load_loop_pass _ _ _ _ _ _ _ _ Hq H1) as (A1 & _).
  assert (Hl : entry_candidates env epn "" ⊆
               entry_candidates env epn "" ++ prefix_candidates env pfx).
  { intros x Hx. apply elem_of_app. by left. }
  assert (Hr : prefix_candidates env pfx ⊆
               entry_candidates env epn "" ++ prefix_candidates env pfx).
  { intros x Hx. apply elem_of_app. by right. }
  assert (Hnil : [] ⊆ entry_candidates env epn "" ++ prefix_candidates env pfx).
  { intros x Hx. by apply elem_of_nil in Hx. }
  destruct o1 as [r1|e|].
  2,3: intros [= <- <-];
       by apply (sourced_trans _ [] _ s s1 s1 Hl Hnil S1 (sourced_refl _ _)).
  unfold bind at 1. rewrite load_modules_by_prefix_body_candidates.
  destruct (load_loop d0 ie (prefix_candidates env pfx) 0 [] s1) as [o2 s2] eqn:H2.
  pose proof (load_loop_sourced _ _ _ _ _ _ _ A1 H2) as S2.
  assert (sourced (entry_candidates env epn "" ++ prefix_candidates env pfx) s s2)
    by (apply (sourced_trans _ _ _ s s1 s2 Hl Hr S1 S2)).
  destruct o2 as [r2|e|]; by intros [= <- <-].
Qed.
End Sourced.

Section Offered.
Lemma candidate_offered_name env group prefix n :
  n ∈ (discover_candidates env group prefix).*2 → offered_name env group prefix n.
Proof.
  unfold discover_candidates. intros Hin.
  apply list_elem_of_fmap in Hin as ([t n'] & -> & Hin). simpl.
  destruct (DISABLE_ALL_PLUGINS env); [by apply elem_of_nil in Hin|].
  apply elem_of_app in Hin as [Hin|Hin].
  - apply elem_of_entry_candidates in Hin as (ep & Hep & Hg & -> & ->).
    left. exists ep. done.
  - apply elem_of_prefix_candidates in Hin as (m & Hm & Hs & -> & ->).
    right. exists m. done.
Qed.
End Offered.

Section Examples.
Lemma tables_wf_init entry_point prefix : tables_wf (init entry_point prefix).
Proof.
  unfold tables_wf, is_registered_obj, is_blocked; simpl.
  split; [apply NoDup_nil_2|]. split; [apply NoDup_nil_2|]. split.
  - intros o. rewrite bool_decide_eq_true, lookup_empty.
    split; [by intros [??]|intros H; by apply elem_of_nil in H].
  - intros n Hn. apply bool_decide_eq_true in Hn. set_solver.
Qed.

Lemma tables_wf_searched : tables_wf searched.
Proof.
  pose proof (discover_pass 0 empty_env None None true (init "" "")) as H.
  destruct (discover 1 empty_env None None true (init "" "")) as [o s] eqn:E.
  destruct (H _ _ eq_refl) as (_ & _ & _ & Hwf & _).
  unfold searched. rewrite E. apply Hwf, tables_wf_init.
Qed.

Lemma tables_wf_abc_state : tables_wf abc_state.
Proof.
  unfold abc_state.
  destruct (register 1 empty_env (PObj abc_plugin) (Some "abc") searched)
    as [o s] eqn:E.
  eapply tables_wf_register_body; [|exact E|exact tables_wf_searched]. reflexivity.
Qed.
End Examples.

Section DiscoverAgain.
Lemma discover_loads_settled env d0 epn pfx ie s :
  Forall (fun c => settled c s = true) (discover_candidates env epn pfx) →
  discover_loads env d0 epn pfx ie s = (Return (0, []), s).
Proof.
  unfold discover_loads, discover_candidates.
  destruct (DISABLE_ALL_PLUGINS env); [done|].
  intros H. apply Forall_app in H as [H1 H2].
  unfold bind. rewrite load_entrypoints_body_candidates.
  rewrite (load_loop_settled _ _ _ _ _ _ H1).
  rewrite load_modules_by_prefix_body_candidates.
  by rewrite (load_loop_settled _ _ _ _ _ _ H2).
Qed.

Lemma started_again s :
  hook_needs_discovery s = false →
  with_needs_discovery false (count_discover s) = count_discover s.
Proof. destruct s; simpl. by intros ->. Qed.
End DiscoverAgain.

Section DictRegistration.
Lemma ensure_namespace_success d0 cls obj s o s' :
  ensure_namespace d0 cls obj s = (Return o, s') →
  s' = s ∧ Forall (fun k => isidentifier (rt_python d0) k = true) obj.*1 ∧
  obj_id o = cls ∧ obj_kind o = KClass ∧ obj_name o = Some "orphan" ∧
  class_dir (rt_python d0) obj = Some (obj_dir o).
Proof.
  intros Hrun.
  destruct (ensure_namespace_cases d0 cls obj s)
    as [(Hid & _)|[(bad & _ & _ & Hr)|(_ & _ & Hr)]]; [|congruence|congruence].
  unfold ensure_namespace in Hrun.
  destruct (filter _ obj.*1); [|done].
  destruct (class_dir (rt_python d0) obj) as [dir|]; [|done].
  injection Hrun as <- <-. done.
Qed.
End DictRegistration.

(** [register] keeps the tables well formed only when no discovery is
    pending.  Its checks come before the first read of the relay; the
    discovery which that read starts registers the entry point "other",
    and [register] then files its own plugin under that name: the
    discovered module keeps its entry in [_plugin2hookcallers] and has
    none in [plugins]. *)
Lemma register_pending_breaks_tables :
  tables_wf (init "grp" "") ∧ ¬ tables_wf raced.
Proof.
  split; [apply tables_wf_init|].
  intros (_ & _ & Hc & _).
  assert (H : 20 ∈ obj_id <$> (plugins raced).*2) by (by apply Hc).
  vm_compute in H. apply list_elem_of_singleton in H. discriminate.
Qed.

(** *** Declaration while no discovery is pending *)

Section DeclareImpls.
Variables (fuel : nat) (env : Environment).

(** A declaration attaches and detaches nothing. *)
Lemma add_hookspec_impls name m opts s out s' :
  hook_needs_discovery s = false →
  add_hookspec (relay_discover (S fuel) env) name m opts s = (out, s') →
  hook_needs_discovery s' = false ∧ ∀ h, impls_of s' h = impls_of s h.
Proof.
  intros Hq Hrun.
  destruct (add_hookspec_gen _ _ _ _ _ _ _ _ Hrun) as (s1 & _ & Hs & Hcase).
  rewrite (Hs Hq) in Hcase. clear Hs s1.
  destruct (relay_lookup _ name s) as [[c|]|] eqn:Hl.
  - destruct Hcase as [Hc Hcase]. destruct (hc_spec c).
    + by destruct Hcase as [_ ->].
    + destruct Hcase as [-> _]. split; [done|]. intros h. rewrite impls_of_set.
      case_decide; [subst h|done]. unfold impls_of. by rewrite Hc.
  - by destruct Hcase as [_ ->].
  - destruct Hcase as [_ ->]. split; [done|]. intros h. rewrite impls_of_set.
    case_decide; [subst h|done]. simpl.
    destruct (relay_lookup_cases (relay_discover (S fuel) env) name s) as [Hl'|[_ Hl']];
      [congruence|].
    rewrite Hl in Hl'. unfold impls_of. by destruct (Dict.get name (hook_dict s)).
Qed.

Lemma add_hookspecs_loop_impls attrs : ∀ names s out s',
  hook_needs_discovery s = false →
  add_hookspecs_loop (relay_discover (S fuel) env) attrs names s = (out, s') →
  ∀ h, impls_of s' h = impls_of s h.
Proof.
  induction attrs as [|[n a] attrs IH]; intros names s out s' Hq; simpl.
  - by intros [= <- <-].
  - destruct a as [|m]; [by apply IH|].
    destruct (fn_spec m) as [opts|]; [|by apply IH].
    unfold bind at 1.
    destruct (add_hookspec _ n m opts s) as [o1 s1] eqn:H1.
    apply add_hookspec_impls in H1 as [Hq1 Hi1]; [|done].
    destruct o1 as [[]|e|].
    + intros Hrun h. rewrite (IH _ _ _ _ Hq1 Hrun h). apply Hi1.
    + by intros [= <- <-].
    + by intros [= <- <-].
Qed.
End DeclareImpls.

Lemma declares_marked attrs n m opts : declares attrs n m opts → ¬ Forall unmarked attrs.
Proof.
  intros [Hin Hsp] Hall. rewrite Forall_forall in Hall.
  specialize (Hall _ Hin). unfold unmarked in Hall; simpl in Hall. congruence.
Qed.

(** *** A discovery does not register what fails validation *)



Section Avoid.
Variable d0 : Runtime.
Variables (o : Obj) (i0 : HookImplementation).
Hypothesis Hi0 : i0 ∈ iter_implementations o.

End Avoid.




(** ** The properties of the specification *)

(** C1, as amended.  In every state reached from a fresh manager by
    [register], [add_hookspecs], [unregister] and [set_blocked], the
    calls of [add_hookspecs] that end in a validation failure left out,
    every implementation attached to a hook caller with a bound
    specification names only parameters of that specification.  (A call
    of [register] may fail; the check of a caller without specification
    waits for [add_hookspecs], see C3.) *)
Theorem reachable_args_within s : reachable true s → Inv s.
Proof.
  induction 1 as [ep pf|b s _ IH|fuel env v name s _ IH|fuel env ns s _ IH Hok
                  |v s _ IH|name b s _ IH].
  - intros n sp i Hsp. done.
  - done.
  - destruct (register (S fuel) env v name s) as [out s'] eqn:Hrun.
    destruct (register_gen _ _ _ _ _ _ _ Hrun) as [(_ & _ & _ & HI) _]. by apply HI.
  - destruct (add_hookspecs (S fuel) env ns s) as [out s'] eqn:Hrun.
    destruct (add_hookspecs_Inv _ _ _ _ _ _ Hrun) as [_ HI]. apply HI; [|done].
    by apply Hok.
  - by apply Inv_unregister.
  - by apply Inv_set_blocked.
Qed.

(** A state reached by declaring [he_method1(arg)] and then registering
    an implementation of it. *)
Lemma reachable_args_within_witness :
  reachable true (register 1 empty_env (PObj wrapper_plugin) None bound_state).2 ∧
  Inv (register 1 empty_env (PObj wrapper_plugin) None bound_state).2.
Proof.
  assert (reachable true (register 1 empty_env (PObj wrapper_plugin) None bound_state).2) as Hr.
  { apply reach_register. apply reach_add_hookspecs; [apply reach_init|].
    intros _ e He. vm_compute in He. discriminate He. }
  split; [exact Hr|]. exact (reachable_args_within _ Hr).
Defined.

(** C1 fails as stated: [add_hookspecs] binds the specification before
    it checks the implementations, so a call that ends in a validation
    failure leaves the specification bound and the offending
    implementation attached. *)
Lemma failed_binding_breaks_args_within :
  reachable false (add_hookspecs 1 empty_env HooksNs unbound_mismatch).2 ∧
  ¬ Inv (add_hookspecs 1 empty_env HooksNs unbound_mismatch).2.
Proof.
  split.
  - apply reach_add_hookspecs; [|done].
    apply (reach_register false 0 empty_env (PObj mismatch_plugin) None).
    apply reach_init.
  - intros HI.
    set (i := with_plugin_name "3"
                (new_hookimpl (impl_routine "he_method1" ["qlwkje"] false false)
                   mismatch_plugin (mkImplOpts false false Neutral None))).
    specialize (HI "he_method1" (new_spec (spec_routine "he_method1" ["arg"] false)
                                   (mkSpecOpts false false None)) i).
    assert ("qlwkje" ∈ (list_to_set ["arg"] : gset string)) as Hin.
    { apply HI; [reflexivity | vm_compute; left |]. simpl. set_solver. }
    set_solver.
Qed.



(** C3.  Let a namespace declare a specification for the hook [n],
    none of the hooks it declares being bound yet or named like an
    attribute of the relay.  If [add_hookspecs] returns, [n] is bound to
    the new specification, and every implementation that was attached
    to [n] is still attached and names only parameters of it; if one of
    them names a parameter the specification lacks, [add_hookspecs]
    itself raises a validation failure.  It raises nothing else: it
    returns, unless an implementation that is attached to one of the
    declared hooks does not pass the validation against the
    specification declared for it, which is then bound all the same.
    In particular it returns when no discovery is pending and the
    implementations attached to the declared hooks all pass. *)
Theorem add_hookspecs_validates_existing fuel env ns s n m opts :
  NoDup (obj_dir ns).*1 → declares (obj_dir ns) n m opts →
  undeclared (obj_dir ns) s → declares_hooks (interpreter env) (obj_dir ns) →
  let r := add_hookspecs (S fuel) env ns s in
  (r.1 = Return tt →
     spec_of r.2 n = Some (new_spec m opts) ∧
     ∀ i, i ∈ impls_of s n → i ∈ impls_of r.2 n ∧ args_within i (new_spec m opts)) ∧
  (∀ i, i ∈ impls_of s n → ¬ args_within i (new_spec m opts) →
     ∃ e, r.1 = Raise e ∧ is_validation_failure e = true) ∧
  (r.1 = Return tt ∨
   ∃ n' m' opts' i hook why,
     declares (obj_dir ns) n' m' opts' ∧
     r.1 = Raise (PluginValidationError i hook why) ∧
     spec_of r.2 n' = Some (new_spec m' opts') ∧
     i ∈ impls_of r.2 n' ∧ ¬ verify_ok (Some (new_spec m' opts')) i) ∧
  (hook_needs_discovery s = false →
   (∀ n' m' opts' i, declares (obj_dir ns) n' m' opts' → i ∈ impls_of s n' →
      verify_ok (Some (new_spec m' opts')) i) →
   r.1 = Return tt).
Proof.
  intros Hnd Hdec Hun Hdh r.
  assert (Hthird : r.1 = Return tt ∨
            ∃ n' m' opts' i hook why,
              declares (obj_dir ns) n' m' opts' ∧
              r.1 = Raise (PluginValidationError i hook why) ∧
              spec_of r.2 n' = Some (new_spec m' opts') ∧
              i ∈ impls_of r.2 n' ∧ ¬ verify_ok (Some (new_spec m' opts')) i).
  { subst r. unfold add_hookspecs, add_hookspecs_body, bind.
    destruct (add_hookspecs_loop _ (obj_dir ns) [] s) as [o1 s1] eqn:Hloop.
    pose proof (add_hookspecs_loop_stops fuel env _ _ _ _ _ Hnd Hun Hdh Hloop) as Hout.
    destruct o1 as [names|e|]; [| |done].
    - left. apply add_hookspecs_loop_names in Hloop as [_ Hne].
      destruct names; [|done]. by destruct (Hne (declares_marked _ _ _ _ Hdec)).
    - right. destruct Hout as (n' & m' & opts' & i & hook & why & H1 & -> & H2).
      by exists n', m', opts', i, hook, why. }
  split; [|split; [|split; [done|]]].
  - subst r. unfold add_hookspecs, add_hookspecs_body, bind.
    destruct (add_hookspecs_loop _ (obj_dir ns) [] s) as [[names|e|] s1] eqn:Hloop; [|done|done].
    destruct (add_hookspecs_loop_binds fuel env _ _ _ _ _ n m opts Hnd Hun Hdh Hdec Hloop)
      as [Hnew Hall].
    pose proof (add_hookspecs_loop_tables fuel env _ _ _ _ _ Hloop) as _.
    assert (∀ i, i ∈ impls_of s n → i ∈ impls_of s1 n) as Hkept.
    { clear -Hloop. revert Hloop. generalize (@nil string).
      revert s. induction (obj_dir ns) as [|[n0 a] attrs IH]; intros s names0; simpl.
      - by intros [= <- <-].
      - destruct a as [|m0]; [apply IH|].
        destruct (fn_spec m0) as [opts0|]; [|apply IH].
        unfold bind at 1.
        destruct (add_hookspec _ n0 m0 opts0 s) as [o1 s2] eqn:H1.
        destruct (add_hookspec_facts fuel env _ _ _ _ _ _ H1) as (_ & _ & _ & Hi & _).
        destruct o1 as [[]|e|]; [|done|done].
        intros Hrun i Hin. eapply IH; [exact Hrun|]. by apply Hi. }
    destruct names; [done|]. simpl. intros _. split; [done|].
    intros i Hi. split; [by apply Hkept|]. by destruct (Hall i Hi).
  - intros i Hi Hno.
    destruct (add_hookspecs_rejects fuel env ns s n m opts i Hnd Hdec Hun Hi)
      as (e & s' & Hrun & [He|[_ Hnot]]).
    { intros [_ ?]. done. }
    + subst r. rewrite Hrun. eauto.
    + by destruct Hnot.
  - intros Hq Hall. destruct Hthird as [?|(n' & m' & opts' & i & hook & why & Hd & Hr & _ & Hi & Hno)];
      [done|].
    exfalso. apply Hno, (Hall n' m' opts' i Hd).
    subst r. unfold add_hookspecs, add_hookspecs_body, bind in Hi, Hr.
    destruct (add_hookspecs_loop _ (obj_dir ns) [] s) as [o1 s1] eqn:Hloop.
    pose proof (add_hookspecs_loop_impls fuel env _ _ _ _ _ Hq Hloop n') as Heq.
    destruct o1 as [[|? ?]|e|]; simpl in Hi, Hr; try done.
    by rewrite <- Heq.
Qed.

(** [he_method1(qlwkje)] was registered before [he_method1(arg)] is
    declared: the declaration fails.  With the wrapper
    [he_method1(arg)] registered instead, it returns and leaves the
    specification bound. *)
Lemma add_hookspecs_validates_existing_witness :
  (∃ e, (add_hookspecs 1 empty_env HooksNs unbound_mismatch).1 = Raise e ∧
        is_validation_failure e = true) ∧
  (add_hookspecs 1 empty_env HooksNs unbound_wrapper).1 = Return tt ∧
  spec_of (add_hookspecs 1 empty_env HooksNs unbound_wrapper).2 "he_method1"
    = Some (new_spec (spec_routine "he_method1" ["arg"] false) (mkSpecOpts false false None)).
Proof.
  assert (NoDup (obj_dir HooksNs).*1) as Hnd by (simpl; apply NoDup_singleton).
  assert (declares (obj_dir HooksNs) "he_method1"
            (spec_routine "he_method1" ["arg"] false) (mkSpecOpts false false None)) as Hdec.
  { split; [left | reflexivity]. }
  assert (∀ s, spec_of s "he_method1" = None → undeclared (obj_dir HooksNs) s) as Hun.
  { intros s Hs n m opts [Hin _]. by apply list_elem_of_singleton in Hin as [= -> _]. }
  assert (declares_hooks (interpreter empty_env) (obj_dir HooksNs)) as Hdh.
  { intros n m opts [Hin _]. apply list_elem_of_singleton in Hin as [= -> _]. reflexivity. }
  split.
  - pose proof (add_hookspecs_validates_existing 0 empty_env HooksNs unbound_mismatch
                  _ _ _ Hnd Hdec (Hun unbound_mismatch eq_refl) Hdh) as (_ & H & _).
    apply (H (with_plugin_name "3"
                (new_hookimpl (impl_routine "he_method1" ["qlwkje"] false false)
                   mismatch_plugin (mkImplOpts false false Neutral None)))).
    + vm_compute. left.
    + unfold args_within. simpl. set_solver.
  - pose proof (add_hookspecs_validates_existing 0 empty_env HooksNs unbound_wrapper
                  _ _ _ Hnd Hdec (Hun unbound_wrapper eq_refl) Hdh) as (H1 & _ & _ & H4).
    assert ((add_hookspecs 1 empty_env HooksNs unbound_wrapper).1 = Return tt) as Hr.
    { apply H4; [reflexivity|].
      intros n' m' opts' i [Hin Hsp] Hi.
      apply list_elem_of_singleton in Hin. injection Hin as -> ->.
      simpl in Hsp. injection Hsp as <-.
      vm_compute in Hi. apply list_elem_of_singleton in Hi as ->.
      split; [reflexivity|]. unfold args_within. simpl. set_solver. }
    split; [exact Hr|]. by apply H1.
Defined.

(** C4.  [set_blocked(n)] does not always unregister the name [n].
    The module [twin_module] is installed as the entry point "b", and
    the host registers it as "a" while the first discovery is pending:
    the checks of [register] are passed before the relay starts the
    discovery, which registers the module as "b", and [register] then
    files it as "a" as well.  In this state [set_blocked("a")] blocks
    "a" and takes "b" out of the plugin table, the name that
    [get_name] finds for the module; "a" stays registered, and a second
    [set_blocked("a")] changes the state again. *)
Theorem set_blocked_keeps_registered :
  reachable true twin_state ∧
  (plugins twin_state).*1 = ["b"; "a"] ∧
  let s1 := set_blocked "a" true twin_state in
  is_blocked "a" s1 = true ∧
  is_registered_name "a" s1 = true ∧
  (plugins s1).*1 = ["a"] ∧
  is_blocked "b" s1 = false ∧
  set_blocked "a" true s1 ≠ s1.
Proof.
  split.
  { apply (reach_register true 0 twin_env (PObj twin_module) (Some "a")), reach_init. }
  split; [reflexivity|]. cbv zeta.
  split; [reflexivity|]. split; [reflexivity|]. split; [reflexivity|].
  split; [reflexivity|].
  intros H. apply (f_equal (fun s => length (plugins s))) in H.
  vm_compute in H. discriminate H.
Qed.

(** C5.  A registration that is neither blocked nor a duplicate raises
    an error when the namespace has a wrapper implementation for a
    historic hook, and [add_hookspecs] raises an error when it binds a
    historic specification to a hook that has a wrapper implementation
    attached: a validation failure, whenever the hooks that the
    namespace implements, or declares, are not named like an attribute
    of the relay (reading such a name off the relay ends in an
    [AttributeError]). *)
Theorem historic_rejects_hookwrapper fuel env :
  (∀ o name s i0,
     let pn := plugin_name_of o name in
     is_blocked pn s = false → is_registered_name pn s = false →
     is_registered_obj (obj_id o) s = false →
     i0 ∈ iter_implementations o → impl_hookwrapper i0 = true →
     historic_at s (impl_specname i0) →
     ∃ e s', register (S fuel) env (PObj o) name s = (Raise e, s') ∧
             (is_validation_failure e = true ∨ e = AttributeError) ∧
             (implements_hooks (interpreter env) o → is_validation_failure e = true)) ∧
  (∀ ns s n m opts i,
     NoDup (obj_dir ns).*1 → declares (obj_dir ns) n m opts →
     undeclared (obj_dir ns) s → so_historic opts = true →
     i ∈ impls_of s n → impl_hookwrapper i = true →
     ∃ e s', add_hookspecs (S fuel) env ns s = (Raise e, s') ∧
             (is_validation_failure e = true ∨ e = AttributeError) ∧
             (declares_hooks (interpreter env) (obj_dir ns) →
              is_validation_failure e = true)).
Proof.
  split.
  - intros o name s i0 pn Hb Hn Ho Hin Hw (sp & Hsp & Hh).
    unfold register; simpl.
    destruct (register_obj (relay_discover (S fuel) env) o name s) as [out s'] eqn:Hrun.
    destruct (register_obj_gen fuel env _ _ _ _ _ Hrun) as [_ Hout]. fold pn in Hout.
    destruct out as [[pn'|]|e|]; [| | |done].
    + exfalso. destruct Hout as (_ & _ & Hall & _).
      destruct (Hall i0 Hin) as [Hv _]. rewrite Hsp in Hv. destruct Hv as [Hv _].
      simpl in Hv. rewrite Hh, Hw in Hv. done.
    + destruct Hout as [? _]. congruence.
    + destruct Hout as [_ [(why & -> & _ & [?|?])
                          |[[(pre & j & post & hook & why & _ & -> & _)
                            |(pre & j & post & Himpls & -> & Hat & _)] _]]];
        [congruence|congruence| |].
      * exists (PluginValidationError (with_plugin_name pn j) hook why), s'.
        split; [done|]. split; [by left|done].
      * exists AttributeError, s'. split; [done|]. split; [by right|].
        intros Hih. rewrite (Hih j) in Hat; [done|].
        rewrite Himpls. apply elem_of_app. right. left.
  - intros ns s n m opts i Hnd Hdec Hun Hh Hi Hw.
    destruct (add_hookspecs_rejects fuel env ns s n m opts i Hnd Hdec Hun Hi)
      as (e & s' & Hrun & He).
    { intros [Hv _]. simpl in Hv. rewrite Hh, Hw in Hv. done. }
    exists e, s'. split; [done|].
    destruct He as [He|[-> Hnot]]; [by split; [left|]|].
    split; [by right|]. intros Hdh. by destruct Hnot.
Qed.

(** A wrapper for [he_method1], registered after and before the historic
    specification; and a plugin whose implementation is for a hook
    named [items], which the relay answers with its method. *)
Lemma historic_rejects_hookwrapper_witness :
  (∃ e s', register 1 empty_env (PObj wrapper_plugin) None historic_state = (Raise e, s') ∧
           is_validation_failure e = true) ∧
  (∃ e s', add_hookspecs 1 empty_env HistoricNs unbound_wrapper = (Raise e, s') ∧
           is_validation_failure e = true) ∧
  register 1 empty_env (PObj items_plugin) None (init "" "")
    = (Raise AttributeError, searched).
Proof.
  pose proof (historic_rejects_hookwrapper 0 empty_env) as [H1 H2]. split; [|split].
  - destruct (H1 wrapper_plugin None historic_state
                (new_hookimpl (impl_routine "he_method1" ["arg"] true false)
                   wrapper_plugin (mkImplOpts true false Neutral None)))
      as (e & s' & Hrun & _ & He); try reflexivity.
    + vm_compute. left.
    + eexists. split; reflexivity.
    + exists e, s'. split; [exact Hrun|]. apply He.
      intros i Hi. vm_compute in Hi. apply list_elem_of_singleton in Hi as ->. reflexivity.
  - destruct (H2 HistoricNs unbound_wrapper "he_method1"
                (spec_routine "he_method1" ["arg"] true) (mkSpecOpts true false None)
                (with_plugin_name "4"
                   (new_hookimpl (impl_routine "he_method1" ["arg"] true false)
                      wrapper_plugin (mkImplOpts true false Neutral None))))
      as (e & s' & Hrun & _ & He); try reflexivity.
    + simpl. apply NoDup_singleton.
    + split; [left | reflexivity].
    + intros n m opts [Hin _]. apply list_elem_of_singleton in Hin as [= -> _]. reflexivity.
    + vm_compute. left.
    + exists e, s'. split; [exact Hrun|]. apply He.
      intros n m opts [Hin _]. apply list_elem_of_singleton in Hin as [= -> _]. reflexivity.
  - reflexivity.
Defined.

(** C6.  Let loading a candidate that the loop does not skip raise [e].
    Then [e] is a plugin error and the candidate's name is blocked; with
    [ignore_errors] the loop goes on with the other candidates, [e]
    appended to the errors, and without it the loop raises [e]; in both
    cases from the state in which the name is blocked.  A blocked
    candidate is skipped.  The errors collected so far are a prefix of
    those returned, and names stay blocked to the end of the loop.  This
    holds of entry points and of modules found by prefix, whose loaders
    are these loops over what the environment lists. *)
Theorem loaders_collect_errors fuel env :
  let d := relay_discover (S fuel) env in
  (∀ group nm ep rest count errors s e s1,
     ep_skipped group nm ep s = false →
     _load_and_register d (ep_target ep) (Some (ep_name ep)) s = (Raise e, s1) →
     let sb := set_blocked (ep_name ep) true s1 in
     is_PluginError e = true ∧ is_blocked (ep_name ep) sb = true ∧
     load_entrypoints_loop d group nm true (ep :: rest) count errors s
       = load_entrypoints_loop d group nm true rest count (errors ++ [e]) sb ∧
     load_entrypoints_loop d group nm false (ep :: rest) count errors s
       = (Raise e, sb)) ∧
  (∀ prefix m rest count errors s e s1,
     module_skipped prefix m s = false →
     _load_and_register d (mc_target m) (Some (module_plugin_name m)) s = (Raise e, s1) →
     let sb := set_blocked (module_plugin_name m) true s1 in
     is_PluginError e = true ∧ is_blocked (module_plugin_name m) sb = true ∧
     load_modules_loop d prefix true (m :: rest) count errors s
       = load_modules_loop d prefix true rest count (errors ++ [e]) sb ∧
     load_modules_loop d prefix false (m :: rest) count errors s
       = (Raise e, sb)) ∧
  (∀ group nm ie ep rest count errors s,
     is_blocked (ep_name ep) s = true →
     load_entrypoints_loop d group nm ie (ep :: rest) count errors s
       = load_entrypoints_loop d group nm ie rest count errors s) ∧
  (∀ prefix ie m rest count errors s,
     is_blocked (module_plugin_name m) s = true →
     load_modules_loop d prefix ie (m :: rest) count errors s
       = load_modules_loop d prefix ie rest count errors s) ∧
  (∀ group nm ie eps count errors s r s',
     load_entrypoints_loop d group nm ie eps count errors s = (Return r, s') →
     errors `prefix_of` r.2 ∧ _blocked s ⊆ _blocked s') ∧
  (∀ prefix ie mods count errors s r s',
     load_modules_loop d prefix ie mods count errors s = (Return r, s') →
     errors `prefix_of` r.2 ∧ _blocked s ⊆ _blocked s') ∧
  (∀ group nm ie,
     nonempty group = true → DISABLE_ENTRYPOINT_PLUGINS env = false →
     load_entrypoints (S fuel) env group nm ie
       = load_entrypoints_loop d group nm ie (concat (distributions env)) 0 []) ∧
  (∀ prefix ie,
     nonempty prefix = true → DISABLE_PREFIX_PLUGINS env = false →
     load_modules_by_prefix (S fuel) env prefix ie
       = load_modules_loop d prefix ie (iter_modules env) 0 []).
Proof.
  intros d. split_and!.
  - intros group nm ep rest count errors s e s1 Hskip Hrun sb.
    split; [by eapply _load_and_register_PluginError|].
    split; [apply is_blocked_set_blocked|].
    cbn [load_entrypoints_loop]. rewrite Hskip.
    by rewrite !(load_candidate_raise _ _ _ _ _ _ _ _ _ _ Hrun).
  - intros prefix m rest count errors s e s1 Hskip Hrun sb.
    split; [by eapply _load_and_register_PluginError|].
    split; [apply is_blocked_set_blocked|].
    cbn [load_modules_loop]. rewrite Hskip.
    by rewrite !(load_candidate_raise _ _ _ _ _ _ _ _ _ _ Hrun).
  - intros group nm ie ep rest count errors s Hb. cbn [load_entrypoints_loop].
    unfold ep_skipped. rewrite Hb. by rewrite orb_true_r.
  - intros prefix ie m rest count errors s Hb. cbn [load_modules_loop].
    unfold module_skipped. rewrite Hb. by rewrite orb_true_r.
  - intros group nm ie eps count errors s r s'. apply load_entrypoints_loop_persists.
  - intros prefix ie mods count errors s r s'. apply load_modules_loop_persists.
  - intros group nm ie Hg Hd. unfold load_entrypoints, load_entrypoints_body.
    by rewrite Hg, Hd.
  - intros prefix ie Hp Hd. unfold load_modules_by_prefix, load_modules_by_prefix_body.
    by rewrite Hp, Hd.
Qed.

(** An entry point that fails to import: its error is returned and its
    name blocked. *)
Lemma loaders_collect_errors_witness :
  load_entrypoints_loop (relay_discover 1 empty_env) "grp" "" true
    [broken_entry_point] 0 [] (init "grp" "")
  = (Return (0, [PluginImportError (Some "broken")]),
     set_blocked "broken" true (init "grp" "")).
Proof.
  pose proof (loaders_collect_errors 0 empty_env) as (H & _).
  destruct (H "grp" "" broken_entry_point [] 0 [] (init "grp" "")
              (PluginImportError (Some "broken")) (init "grp" ""))
    as (_ & _ & -> & _); reflexivity.
Defined.

(** C7, as amended.  Registering a plain mapping raises a [ValueError]
    that names the key, and changes nothing, if a key whose value is a
    function is not a valid identifier. *)
Theorem register_dict_bad_key fuel env cls dct name s k r :
  (k, DFunction r) ∈ dct → isidentifier (interpreter env) k = false →
  ∃ bad, k ∈ bad ∧
    register fuel env (PDict cls dct) name s
      = (Raise (ValueError (InvalidIdentifiers bad)), s).
Proof.
  intros Hin Hk. unfold register; simpl. unfold _register_dict, bind.
  assert (k ∈ (clean_dct dct).*1) as Hkin.
  { apply list_elem_of_fmap. exists (k, mark_impl k r). split; [done|].
    unfold clean_dct. apply list_elem_of_omap. by exists (k, DFunction r). }
  destruct (ensure_namespace_cases (relay_discover fuel env) cls (clean_dct dct) s)
    as [[Hall _]|[(bad & _ & Hbad & ->)|(Hall & _)]].
  - rewrite Forall_forall in Hall. specialize (Hall _ Hkin). simpl in Hall. congruence.
  - exists bad. split; [|done]. rewrite Hbad. by apply list_elem_of_filter.
  - rewrite Forall_forall in Hall. specialize (Hall _ Hkin). simpl in Hall. congruence.
Qed.

(** The key "not-valid" with a function as its value. *)
Lemma register_dict_bad_key_witness :
  ∃ bad, "not-valid" ∈ bad ∧
    register 1 empty_env
      (PDict 9 [("not-valid", DFunction (mkRoutine "f" [] None None))]) None (init "" "")
      = (Raise (ValueError (InvalidIdentifiers bad)), init "" "").
Proof.
  apply (register_dict_bad_key 1 empty_env 9 _ None (init "" "") "not-valid"
           (mkRoutine "f" [] None None)).
  - left.
  - reflexivity.
Defined.

(** C7 fails as stated: the entries whose values are not functions are
    dropped before the keys are checked, so a key that is no identifier
    (for any interpreter: it is ASCII and has a hyphen) is let through
    when its value is, say, a builtin or a bound method. *)
Lemma register_dict_bad_key_accepted :
  let dct := [("not-valid", DNotFunction)] in
  (∃ k, k ∈ dct.*1 ∧ ∀ py, isidentifier py k = false) ∧
  (register 1 empty_env (PDict 9 dct) None (init "" "")).1 = Return (Some "orphan").
Proof.
  split; [|reflexivity]. exists "not-valid". split; [left | reflexivity].
Qed.

(** C8.  [check_pending] lets a hook pass that has no specification and
    an implementation that is not optional, when the name of the hook
    starts with an underscore: the loop skips every name of the
    relay's [__dict__] that does, which is how it passes over the two
    private attributes of the relay, and the hook callers are in that
    same [__dict__].  The plugin 7 implements [_hidden]; nothing
    declares [_hidden]; [check_pending] returns. *)
Theorem check_pending_skips_underscore :
  reachable true hidden_example ∧
  (∃ n i, unbound_nonoptional hidden_example n i) ∧
  check_pending 1 empty_env hidden_example = (Return tt, hidden_example).
Proof.
  split.
  { apply (reach_register true 0 empty_env
             (PObj (plugin 7 [("_hidden", ARoutine (impl_routine "_hidden" [] false false))]))
             None), reach_init. }
  split; [|reflexivity].
  exists "_hidden",
    (with_plugin_name "7"
       (new_hookimpl (impl_routine "_hidden" [] false false)
          (plugin 7 [("_hidden", ARoutine (impl_routine "_hidden" [] false false))])
          (mkImplOpts false false Neutral None))).
  split; [reflexivity|]. split; [|reflexivity]. vm_compute. left.
Qed.






(** ** Further properties of the code *)

(** X1.  In well-formed tables, [unregister] finds a plugin exactly when
    [is_registered] answers [True] for the same name or object;
    otherwise it returns [None] (the [KeyError] never escapes) and
    leaves the manager as it was. *)
Theorem unregister_unknown v s :
  tables_wf s →
  (is_registered v s = (Return true, s) → ∃ p s', unregister v s = (Some p, s')) ∧
  (is_registered v s ≠ (Return true, s) → unregister v s = (None, s)).
Proof.
  intros Hwf. pose proof (_ensure_plugin_known v s Hwf) as Hk. split.
  - intros H. apply Hk in H as [p Hp].
    destruct (unregister_wf_eq _ _ _ Hwf Hp) as (n & _ & _ & ->). eauto.
  - intros H. unfold unregister.
    destruct (_ensure_plugin v s) as [p|] eqn:E; [|done].
    exfalso. by apply H, Hk.
Qed.

(** An unknown name and an unknown object on a manager that holds one
    plugin. *)
Lemma unregister_unknown_witness :
  unregister (PStr "nope") abc_state = (None, abc_state) ∧
  unregister (PObj (plugin 77 [])) abc_state = (None, abc_state).
Proof.
  split.
  - apply (unregister_unknown (PStr "nope") abc_state tables_wf_abc_state).
    vm_compute. discriminate.
  - apply (unregister_unknown (PObj (plugin 77 [])) abc_state tables_wf_abc_state).
    vm_compute. discriminate.
Defined.

(** X2.  In well-formed tables, a successful [unregister] returns the
    plugin [p] that was registered under some name [n], the one its
    argument gives as a name or by identity.  Afterwards neither [n] nor
    [p] is registered, the other entries of both tables, the blocklist
    and every specification are as before, and the hook callers that
    [register] recorded for [p] have lost the implementations of [p],
    the others keeping their order. *)
Theorem unregister_removes v s p s' :
  tables_wf s → unregister v s = (Some p, s') →
  ∃ n,
    Dict.get n (plugins s) = Some p ∧ names_plugin v n p ∧
    plugins s' = Dict.del n (plugins s) ∧
    _plugin2hookcallers s' = delete (obj_id p) (_plugin2hookcallers s) ∧
    is_registered_name n s' = false ∧
    is_registered_obj (obj_id p) s' = false ∧
    (∀ n', n' ≠ n → Dict.get n' (plugins s') = Dict.get n' (plugins s)) ∧
    (∀ q, q ≠ obj_id p → get_hookcallers q s' = get_hookcallers q s) ∧
    _blocked s' = _blocked s ∧
    (∀ h, spec_of s' h = spec_of s h) ∧
    (∀ h, impls_of s' h =
          without_plugin (obj_id p) (default [] (get_hookcallers (obj_id p) s)) s h).
Proof.
  intros Hwf Hrun.
  assert (He : _ensure_plugin v s = Some p).
  { unfold unregister in Hrun. destruct (_ensure_plugin v s); [|done].
    by injection Hrun as -> _. }
  destruct (unregister_wf_eq _ _ _ Hwf He) as (n & Hget & Hn & Heq).
  rewrite Heq in Hrun. injection Hrun as <-.
  destruct (removed_fields n p s) as (Hp & Hh & Hb & _).
  destruct Hwf as (Hk & _).
  exists n. do 4 (split; [done|]). unfold get_hookcallers. rewrite Hp, Hh.
  unfold is_registered_name, is_registered_obj, Dict.mem. rewrite Hp, Hh.
  split. { apply bool_decide_eq_false. rewrite get_del_eq by done. by intros [??]. }
  split. { apply bool_decide_eq_false. rewrite lookup_delete_eq. by intros [??]. }
  split. { intros n' Hne. by apply get_del_ne. }
  split. { intros q Hne. by apply lookup_delete_ne. }
  split; [done|]. split.
  - intros h. unfold removed. by rewrite foldl_remove_spec.
  - intros h. unfold removed. by rewrite foldl_remove_impls_eq.
Qed.

(** Removing the plugin "abc" by name. *)
Lemma unregister_removes_witness :
  ∃ n, Dict.get n (plugins abc_state) = Some abc_plugin ∧
       is_registered_name n (unregister (PStr "abc") abc_state).2 = false.
Proof.
  destruct (unregister_removes (PStr "abc") abc_state abc_plugin
              (unregister (PStr "abc") abc_state).2 tables_wf_abc_state eq_refl)
    as (n & H1 & _ & _ & _ & H2 & _).
  exists n. split; [exact H1|exact H2].
Defined.

(** X3.  Let the tables be well formed and no discovery be pending.  A
    [register] that returns a name returns the non-empty canonical name
    of the plugin, appends the plugin under that name to [plugins], so
    that [get_name] and [is_registered] find it, and records for it one
    hook caller per implementation, in the order of [dir]
    ([get_hookcallers]).  Every implementation passed validation and is
    attached; the other plugins, the blocklist, the specifications and
    the callers of other hooks are as before. *)
Theorem register_records fuel env o name s pn s' :
  tables_wf s → hook_needs_discovery s = false →
  register fuel env (PObj o) name s = (Return (Some pn), s') →
  pn = plugin_name_of o name ∧ pn ≠ "" ∧
  plugins s' = plugins s ++ [(pn, o)] ∧
  get_name (obj_id o) s' = Some pn ∧
  is_registered (PStr pn) s' = (Return true, s') ∧
  is_registered (PObj o) s' = (Return true, s') ∧
  get_hookcallers (obj_id o) s' = Some (hook_names o) ∧
  (∀ q, q ≠ obj_id o → get_hookcallers q s' = get_hookcallers q s) ∧
  _blocked s' = _blocked s ∧
  (∀ h, spec_of s' h = spec_of s h) ∧
  registered_all pn (iter_implementations o) s s' ∧
  (∀ h, h ∉ hook_names o → impls_of s' h = impls_of s h).
Proof.
  intros Hwf Hq Hrun. unfold register, register_body in Hrun.
  apply register_obj_success in Hrun
    as (Hpn & Hb & Hn & Ho & s1 & Hho & Hg & -> & Hall & _ & Hrest); [|done].
  destruct (filed_fields pn o s s1 Hho Hn) as (Fp & Fb & _ & _ & Fo).
  destruct (tables_wf_filed pn o s s1 Hwf Hho Hb Hn Ho) as [_ (Hk' & Hi' & _)].
  destruct (hooks_only_fields _ _ Hho) as (_ & Hp2 & _).
  assert (Hget : Dict.get pn (plugins (filed pn o s1)) = Some o).
  { unfold filed; simpl. apply get_set_eq. }
  split; [done|]. split; [subst pn; apply plugin_name_of_nonempty|].
  split; [done|]. split; [by apply get_name_in_unique|].
  split. { unfold is_registered, gets, is_registered_name, Dict.mem.
           by rewrite Hget, bool_decide_eq_true_2. }
  split. { unfold is_registered, gets. by rewrite Fo. }
  unfold get_hookcallers. split; [unfold filed; simpl; by rewrite lookup_insert_eq|].
  split. { intros q Hne. unfold filed; simpl. rewrite lookup_insert_ne by done.
           by rewrite Hp2. }
  split; [done|]. split; [apply Hg|]. done.
Qed.

(** Registering the plugin 5 as "abc". *)
Lemma register_records_witness :
  plugins abc_state = plugins searched ++ [("abc", abc_plugin)] ∧
  get_hookcallers 5 abc_state = Some ["he_method1"].
Proof.
  pose proof (register_records 1 empty_env abc_plugin (Some "abc") searched "abc"
                abc_state tables_wf_searched eq_refl eq_refl)
    as (_ & _ & H1 & _ & _ & _ & H2 & _).
  split; [exact H1|exact H2].
Defined.

(** X4.  Let the tables be well formed and no discovery be pending.
    After a [register] that returned a name, [unregister], by that name
    or by the object, returns the plugin and restores both plugin
    tables, the blocklist and every specification; the hooks the plugin
    implements have lost what carried its identity, so when nothing did
    before, every hook has its implementations back, in their order. *)
Theorem register_unregister fuel env o name s pn s' v :
  tables_wf s → hook_needs_discovery s = false →
  register fuel env (PObj o) name s = (Return (Some pn), s') →
  v = PStr pn ∨ v = PObj o →
  ∃ s'', unregister v s' = (Some o, s'') ∧
    plugins s'' = plugins s ∧
    _plugin2hookcallers s'' = _plugin2hookcallers s ∧
    _blocked s'' = _blocked s ∧
    (∀ h, spec_of s'' h = spec_of s h) ∧
    (∀ h, impls_of s'' h = without_plugin (obj_id o) (hook_names o) s h) ∧
    (no_leftovers (obj_id o) s → ∀ h, impls_of s'' h = impls_of s h).
Proof.
  intros Hwf Hq Hrun Hv. unfold register, register_body in Hrun.
  apply register_obj_success in Hrun
    as (Hpn & Hb & Hn & Ho & s1 & Hho & Hg & -> & Hall & Hfil & Hrest); [|done].
  destruct (filed_fields pn o s s1 Hho Hn) as (Fp & Fb & _ & _ & Fo).
  destruct (tables_wf_filed pn o s s1 Hwf Hho Hb Hn Ho) as [_ Hwf'].
  destruct (hooks_only_fields _ _ Hho) as (_ & Hp2 & _).
  assert (Hnone : Dict.get pn (plugins s) = None).
  { unfold is_registered_name, Dict.mem in Hn. apply bool_decide_eq_false in Hn.
    destruct (Dict.get pn (plugins s)); [|done]. exfalso. by apply Hn. }
  assert (Hget : Dict.get pn (plugins (filed pn o s1)) = Some o).
  { unfold filed; simpl. apply get_set_eq. }
  assert (He : _ensure_plugin v (filed pn o s1) = Some o).
  { destruct Hv as [->| ->]; unfold _ensure_plugin; simpl; [done|].
    destruct Hwf' as (_ & Hi' & _).
    unfold get_name. rewrite (get_name_in_unique _ pn o Hi' Hget). exact Hget. }
  destruct (unregister_wf_eq _ _ _ Hwf' He) as (n & Hget' & _ & ->).
  assert (n = pn) as ->.
  { destruct Hwf' as (Hk' & Hi' & _).
    apply (get_name_in_unique _ _ _ Hi') in Hget, Hget'. congruence. }
  exists (removed pn o (filed pn o s1)). split; [done|].
  destruct (removed_fields pn o (filed pn o s1)) as (Rp & Rh & Rb & _).
  assert (Himpls : ∀ h, impls_of (removed pn o (filed pn o s1)) h =
                        without_plugin (obj_id o) (hook_names o) s h).
  { intros h. unfold removed. rewrite foldl_remove_impls_eq.
    unfold filed at 1; simpl. rewrite lookup_insert_eq. simpl.
    unfold without_plugin.
    change (impls_of (filed pn o s1) h) with (impls_of s1 h).
    destruct (decide (h ∈ hook_names o)); [apply Hfil|by apply Hrest]. }
  split. { rewrite Rp, Fp. by apply del_app_fresh. }
  split. { rewrite Rh. unfold filed; simpl. rewrite Hp2.
           apply delete_insert_id. unfold is_registered_obj in Ho.
           apply bool_decide_eq_false in Ho.
           destruct (_plugin2hookcallers s !! obj_id o); [|done].
           exfalso. by apply Ho. }
  split; [by rewrite Rb|]. split.
  { intros h. unfold removed. rewrite foldl_remove_spec. apply Hg. }
  split; [done|].
  intros Hno h. rewrite Himpls. unfold without_plugin.
  destruct (decide (h ∈ hook_names o)); [|done].
  apply filter_all. intros i Hi. by eapply Hno.
Qed.

(** Registering the plugin 5 as "abc" and removing it again, by name
    and by object. *)
Lemma register_unregister_witness :
  (∃ s'', unregister (PStr "abc") abc_state = (Some abc_plugin, s'') ∧
          plugins s'' = plugins searched ∧ impls_of s'' "he_method1" = []) ∧
  (∃ s'', unregister (PObj abc_plugin) abc_state = (Some abc_plugin, s'') ∧
          plugins s'' = plugins searched ∧ impls_of s'' "he_method1" = []).
Proof.
  assert (Hno : no_leftovers 5 searched).
  { intros h i Hi. vm_compute in Hi. by apply elem_of_nil in Hi. }
  split.
  - destruct (register_unregister 1 empty_env abc_plugin (Some "abc") searched "abc"
                abc_state (PStr "abc") tables_wf_searched eq_refl eq_refl
                (or_introl eq_refl))
      as (s'' & H1 & H2 & _ & _ & _ & _ & H3).
    exists s''. split; [exact H1|]. split; [exact H2|]. exact (H3 Hno "he_method1").
  - destruct (register_unregister 1 empty_env abc_plugin (Some "abc") searched "abc"
                abc_state (PObj abc_plugin) tables_wf_searched eq_refl eq_refl
                (or_intror eq_refl))
      as (s'' & H1 & H2 & _ & _ & _ & _ & H3).
    exists s''. split; [exact H1|]. split; [exact H2|]. exact (H3 Hno "he_method1").
Defined.

(** X5.  The plugin tables of a fresh manager are well formed, and they
    stay so under [unregister], [set_blocked], [discover],
    [add_hookspecs] and [check_pending], and under [register] when no
    discovery is pending: names and identities stay unique,
    [_plugin2hookcallers] has an entry for exactly the registered
    objects, and no blocked name is registered. *)
Theorem tables_wf_preserved fuel env :
  (∀ entry_point prefix, tables_wf (init entry_point prefix)) ∧
  (∀ s, tables_wf s →
     (∀ v name, hook_needs_discovery s = false →
                tables_wf (register fuel env v name s).2) ∧
     (∀ v, tables_wf (unregister v s).2) ∧
     (∀ n b, tables_wf (set_blocked n b s)) ∧
     (∀ ep pf ie, tables_wf (discover (S fuel) env ep pf ie s).2) ∧
     (∀ ns, tables_wf (add_hookspecs (S fuel) env ns s).2) ∧
     tables_wf (check_pending (S fuel) env s).2).
Proof.
  split; [apply tables_wf_init|]. intros s Hwf.
  refine (conj _ (conj _ (conj _ (conj _ (conj _ _))))).
  - intros v name Hq.
    destruct (register fuel env v name s) as [o s'] eqn:E.
    by eapply tables_wf_register_body.
  - intros v. by apply tables_wf_unregister.
  - intros n b. by apply tables_wf_set_blocked.
  - intros ep pf ie.
    destruct (discover (S fuel) env ep pf ie s) as [o s'] eqn:E.
    apply discover_pass in E as (_ & _ & _ & H & _). by apply H.
  - intros ns. by apply add_hookspecs_tables.
  - by apply check_pending_tables.
Qed.

(** The tables after a discovery, a registration and a blocking. *)
Lemma tables_wf_preserved_witness :
  tables_wf (set_blocked "abc" true abc_state).
Proof.
  destruct (tables_wf_preserved 0 empty_env) as [Hinit Hstep].
  assert (tables_wf searched) as H1.
  { apply (Hstep (init "" "") (Hinit "" "")). }
  assert (tables_wf abc_state) as H2.
  { apply (proj2 (tables_wf_preserved 1 empty_env) searched H1). reflexivity. }
  apply (Hstep abc_state H2).
Defined.

(** X6.  Once [discover] has returned, a second [discover] with the
    same arguments finds every candidate registered, blocked or already
    loaded: it returns the count 0 and no error, and changes nothing but
    the count of its own calls. *)
Theorem discover_twice fuel fuel' env ep pf ie ie' s r s' :
  discover (S fuel) env ep pf ie s = (Return r, s') →
  discover (S fuel') env ep pf ie' s' = (Return (0, []), count_discover s').
Proof.
  intros Hrun.
  pose proof (discover_spec _ _ _ _ _ _ _ _ Hrun) as ([[Hc1 Hc2] _] & _).
  apply discover_pass in Hrun as (Hq & _ & _ & _ & _ & Hall & _).
  rewrite discover_unfold, Hc1, Hc2, (started_again _ Hq).
  apply discover_loads_settled.
  eapply Forall_impl; [exact Hall|]. intros c Hc. exact Hc.
Qed.

(** A second discovery of the one installed entry point. *)
Lemma discover_twice_witness :
  discover 1 one_entry_point None None true discovered
  = (Return (0, []), count_discover discovered).
Proof.
  apply (discover_twice 0 0 one_entry_point None None true true (init "grp" "")
           (1, []) discovered).
  reflexivity.
Defined.

(** X7.  The count that [discover] returns is the number of plugins it
    appended to [plugins], every error it returns blocked one further
    name, and without [ignore_errors] it returns no error at all. *)
Theorem discover_counts fuel env ep pf ie s count errors s' :
  discover (S fuel) env ep pf ie s = (Return (count, errors), s') →
  ∃ added,
    plugins s' = plugins s ++ added ∧ length added = count ∧
    size (_blocked s') = size (_blocked s) + length errors ∧
    (ie = false → errors = []).
Proof.
  intros Hrun.
  apply discover_pass in Hrun as (_ & _ & _ & _ & Hl & _ & Hie).
  destruct Hl as (added & errs & Hp & Hc & He & Hs). simpl in *. subst.
  exists added. done.
Qed.

(** The first discovery of the one installed entry point. *)
Lemma discover_counts_witness :
  ∃ added, plugins discovered = [] ++ added ∧ length added = 1.
Proof.
  destruct (discover_counts 0 one_entry_point None None true (init "grp" "")
              1 [] discovered eq_refl) as (added & H1 & H2 & _).
  exists added. split; [exact H1|exact H2].
Defined.

(** X8.  [add_hookspecs] raises the [ValueError] "did not find any
    hooks" exactly for a namespace none of whose attributes carries a
    specification marker.  It then leaves the manager untouched: not
    even a pending discovery is started. *)
Theorem add_hookspecs_no_hooks fuel env ns s :
  (Forall unmarked (obj_dir ns) →
     add_hookspecs fuel env ns s = (Raise (ValueError NoHooksFound), s)) ∧
  (¬ Forall unmarked (obj_dir ns) →
     ∀ why, (add_hookspecs (S fuel) env ns s).1 ≠ Raise (ValueError why)).
Proof.
  split.
  - intros Hall. unfold add_hookspecs, add_hookspecs_body, bind.
    by rewrite add_hookspecs_loop_unmarked.
  - intros Hsome why. unfold add_hookspecs, add_hookspecs_body, bind.
    destruct (add_hookspecs_loop _ (obj_dir ns) [] s) as [o1 s1] eqn:Hrun.
    destruct o1 as [names|e|].
    + apply add_hookspecs_loop_names in Hrun as [_ Hne].
      destruct names; [by destruct (Hne Hsome)|done].
    + apply add_hookspecs_loop_outcome in Hrun as (_ & [->|[->|He]]); [done|done|].
      simpl. intros [= ->]. done.
    + done.
Qed.

(** A class with a constant and a plain method, on a manager whose
    discovery is still pending. *)
Lemma add_hookspecs_no_hooks_witness :
  add_hookspecs 1 one_entry_point PlainNs (init "grp" "")
  = (Raise (ValueError NoHooksFound), init "grp" "").
Proof.
  apply (add_hookspecs_no_hooks 1 one_entry_point PlainNs (init "grp" "")).
  repeat constructor.
Defined.

(** X11.  [set_blocked(name, False)] takes the name off the blocklist
    and touches nothing else: the plugin that blocking unregistered is
    not brought back.  It is the identity on a name that is not blocked,
    and it undoes the blocking of a name that was neither blocked nor
    registered. *)
Theorem set_blocked_unblock n s :
  let s' := set_blocked n false s in
  is_blocked n s' = false ∧
  _blocked s' = _blocked s ∖ {[n]} ∧
  s' = with_blocked (fun _ => _blocked s') s ∧
  (is_blocked n s = false → s' = s) ∧
  (is_blocked n s = false → is_registered_name n s = false →
     set_blocked n false (set_blocked n true s) = s).
Proof.
  assert (Hs' : set_blocked n false s =
                if is_blocked n s then with_blocked (fun b => b ∖ {[n]}) s else s)
    by reflexivity.
  cbv zeta. rewrite Hs'. clear Hs'.
  destruct (is_blocked n s) eqn:Hb.
  - split. { apply bool_decide_eq_false. simpl. set_solver. }
    split; [done|]. split; [by destruct s|]. split; [done|done].
  - unfold is_blocked in Hb. apply bool_decide_eq_false in Hb.
    split. { by apply bool_decide_eq_false. }
    split. { set_solver. }
    split; [by destruct s|]. split; [done|].
    intros _ Hn. rewrite set_blocked_unregistered by done.
    unfold set_blocked, is_blocked; simpl.
    rewrite bool_decide_eq_true_2 by set_solver.
    destruct s; unfold with_blocked; simpl in *. f_equal. set_solver.
Qed.

(** Blocking and unblocking the name "nope" on a manager that holds
    another plugin. *)
Lemma set_blocked_unblock_witness :
  set_blocked "nope" false (set_blocked "nope" true abc_state) = abc_state.
Proof.
  apply (set_blocked_unblock "nope" abc_state); reflexivity.
Defined.

(** X12.  In well-formed tables [get_name] is the inverse of the lookup
    in [plugins]: the name it returns for an object is the one under
    which that object is filed, and it returns [None] exactly for the
    objects that [is_registered] does not know. *)
Theorem get_name_lookup s :
  tables_wf s →
  (∀ n p, Dict.get n (plugins s) = Some p → get_name (obj_id p) s = Some n) ∧
  (∀ id n, get_name id s = Some n →
           ∃ p, Dict.get n (plugins s) = Some p ∧ obj_id p = id) ∧
  (∀ id, get_name id s = None ↔ is_registered_obj id s = false).
Proof.
  intros (Hk & Hi & Hc & _). refine (conj _ (conj _ _)).
  - intros n p. by apply get_name_in_unique.
  - intros id n Hn. apply get_name_in_Some in Hn as (p & Hp & Hid).
    exists p. split; [by apply get_elem_NoDup|done].
  - intros id. unfold get_name. rewrite get_name_in_None.
    split.
    + intros Hn. destruct (is_registered_obj id s) eqn:E; [|done].
      by apply Hc in E.
    + intros Hr Hin. apply Hc in Hin. congruence.
Qed.

(** The plugin 5 is filed as "abc". *)
Lemma get_name_lookup_witness :
  get_name 5 abc_state = Some "abc" ∧ get_name 6 abc_state = None.
Proof.
  destruct (get_name_lookup abc_state tables_wf_abc_state) as (H1 & _ & H3).
  split.
  - apply (H1 "abc" abc_plugin). reflexivity.
  - apply (H3 6). reflexivity.
Defined.

(** X13.  Under [discovery_blocked], [register], [add_hookspecs],
    [check_pending] and reading a hook start no discovery, whatever the
    relay's flag says, and the flag is afterwards what it was before,
    also when the body raises. *)
Theorem discovery_blocked_quiet fuel env :
  (∀ v name, starts_no_discovery (register fuel env v name)) ∧
  (∀ ns, starts_no_discovery (add_hookspecs fuel env ns)) ∧
  starts_no_discovery (check_pending fuel env) ∧
  (∀ name, starts_no_discovery (hook_getattr fuel env name)).
Proof.
  assert (Hstep : ∀ A (body : M A),
            (∀ s out s', hook_needs_discovery s = false → body s = (out, s') →
                         discover_calls s' = discover_calls s ∧ out ≠ OutOfFuel) →
            starts_no_discovery body).
  { intros A body Hbody s. unfold discovery_blocked. simpl.
    destruct (body (with_needs_discovery false s)) as [out s'] eqn:E.
    apply Hbody in E as [Hd Hne]; [|done]. simpl. done. }
  refine (conj _ (conj _ (conj _ _))).
  - intros v name. apply Hstep. intros s out s' Hq Hrun.
    apply register_body_quiet in Hrun as ((_ & _ & Hd) & _ & Hout); [|done].
    split; [done|]. by destruct out as [[]| |].
  - intros ns. apply Hstep. intros s out s' Hq Hrun.
    apply add_hookspecs_body_quiet in Hrun as [Hho Hne]; [|done].
    apply hooks_only_fields in Hho as (_ & _ & _ & _ & Hd). done.
  - apply Hstep. intros s out s' Hq Hrun.
    destruct (check_pending_body_quiet (relay_discover fuel env) s Hq)
      as (o & Ho & Hne & _).
    unfold check_pending in Hrun. rewrite Ho in Hrun. by injection Hrun as <- <-.
  - intros name. apply Hstep. intros s out s' Hq Hrun.
    unfold hook_getattr in Hrun. rewrite relay_getattr_quiet in Hrun by done.
    by injection Hrun as <- <-.
Qed.

(** Declaring specifications under [discovery_blocked] on a fresh
    manager leaves the discovery pending. *)
Lemma discovery_blocked_quiet_witness :
  hook_needs_discovery pending_discovery = true ∧
  discover_calls pending_discovery = 0.
Proof.
  destruct (discovery_blocked_quiet 1 one_entry_point) as (_ & H & _).
  destruct (H HooksNs (init "grp" "")) as (H1 & H2 & _).
  split; [exact H1|exact H2].
Defined.

(** X14.  [temp_path_additions] restores [sys.path]: when the block
    leaves [sys.path] as it received it, the list is afterwards exactly
    what it was before, in the same order.  Inside the block every
    given path is on [sys.path]: the ones that were missing are put in
    front, the last one first, and a path that was there already is
    neither added nor removed. *)
Theorem temp_path_additions_restores {A} path
    (body : list string → A * list string) sys_path :
  let to_add := SysPath.to_add path sys_path in
  let inside := SysPath.enter to_add sys_path in
  (body inside).2 = inside →
  SysPath.temp_path_additions path body sys_path = Some ((body inside).1, sys_path) ∧
  inside = reverse to_add ++ sys_path ∧
  (∀ p, p ∈ SysPath.normalise path → p ∈ inside) ∧
  (∀ p, p ∈ sys_path → p ∉ to_add).
Proof.
  intros to_add inside Hbody. refine (conj _ (conj _ (conj _ _))).
  - unfold SysPath.temp_path_additions. fold to_add. fold inside.
    rewrite Hbody. unfold inside. by rewrite leave_enter.
  - apply enter_rev.
  - intros p Hp. unfold inside. rewrite enter_rev.
    destruct (decide (p ∈ sys_path)) as [Hin|Hout].
    + apply elem_of_app. by right.
    + apply elem_of_app. left. apply elem_of_reverse.
      unfold to_add, SysPath.to_add. by apply list_elem_of_filter.
  - intros p Hp Hin. unfold to_add, SysPath.to_add in Hin.
    apply list_elem_of_filter in Hin as [Hn _]. done.
Qed.

(** Three paths, one of them twice and one on [sys.path] already. *)
Lemma temp_path_additions_restores_witness :
  SysPath.temp_path_additions (SysPath.Paths ["a"; "b"; "a"])
    (fun l => (length l, l)) ["b"; "c"]
  = Some (4, ["b"; "c"]).
Proof.
  apply (temp_path_additions_restores (SysPath.Paths ["a"; "b"; "a"])
           (fun l => (length l, l)) ["b"; "c"]).
  reflexivity.
Defined.

(** X15.  Let no discovery be pending.  When [register] takes a
    mapping and returns a name, that name is the one given, or else
    "orphan"; the keys of the functions in the mapping are identifiers,
    and the plugin is the class that [type] makes of them, filed under
    that name.  When none of these keys starts with two underscores
    (names that [type] may read itself), the hook callers of the plugin
    are those keys, and every function is attached to the hook named by
    its key, as an implementation of that plugin. *)
Theorem register_dict_records fuel env cls dct name s pn s' :
  hook_needs_discovery s = false →
  register fuel env (PDict cls dct) name s = (Return (Some pn), s') →
  pn = str_or name "orphan" ∧
  Forall (fun k => isidentifier (interpreter env) k = true) (function_keys dct) ∧
  (∃ ns, Dict.get pn (plugins s') = Some ns ∧ obj_id ns = cls ∧ obj_kind ns = KClass ∧
         class_dir (interpreter env) (clean_dct dct) = Some (obj_dir ns)) ∧
  (Forall (fun k => startswith k "__" = false) (function_keys dct) →
   (∃ names, get_hookcallers cls s' = Some names ∧ names ≡ₚ function_keys dct) ∧
   (∀ k r, (k, DFunction r) ∈ dct →
      ∃ i, i ∈ impls_of s' k ∧ impl_function i = mark_impl k r ∧
           impl_plugin i = cls ∧ impl_plugin_name i = Some pn)).
Proof.
  intros Hq Hrun. unfold register, register_body, _register_dict in Hrun.
  unfold bind at 1 in Hrun.
  destruct (ensure_namespace _ cls (clean_dct dct) s) as [[o|e|] s0] eqn:Hns;
    [|done|done].
  apply ensure_namespace_success in Hns as (-> & Hid & Hcls & Hkind & Hname & Hdir).
  apply register_obj_success in Hrun
    as (Hpn & _ & _ & _ & s1 & _ & _ & -> & Hall & _); [|done].
  simpl in Hid, Hdir.
  split. { rewrite Hpn. by apply plugin_name_of_orphan. }
  split; [done|].
  split. { exists o. split; [|done]. unfold filed; simpl. apply get_set_eq. }
  intros Hplain.
  destruct (iter_implementations_dict (interpreter env) cls dct o Hid Hplain Hcls Hdir)
    as [Hperm Himpl].
  split. { exists (hook_names o). split; [|done].
           unfold get_hookcallers, filed; simpl. by rewrite Hcls, lookup_insert_eq. }
  intros k r Hin. destruct (Himpl k r Hin) as (j & Hj & Hs & Hf & Hp).
  destruct (Hall j Hj) as [_ Hatt]. rewrite Hs in Hatt.
  exists (with_plugin_name pn j). done.
Qed.

(** A mapping registered as "reader". *)
Lemma register_dict_records_witness :
  ∃ i, i ∈ impls_of (register 1 empty_env (PDict 9 reader_dict) (Some "reader")
                       searched).2 "he_method1" ∧
       impl_plugin i = 9 ∧ impl_plugin_name i = Some "reader".
Proof.
  destruct (register_dict_records 1 empty_env 9 reader_dict (Some "reader") searched
              "reader" _ eq_refl eq_refl) as (_ & _ & _ & H).
  destruct H as [_ H]. { repeat constructor. }
  destruct (H "he_method1" (mkRoutine "read" ["arg"] None None)) as (i & H1 & _ & H2 & H3).
  { left. }
  exists i. split; [exact H1|]. split; [exact H2|exact H3].
Defined.

(** X16.  [hook.items()] lists the hook callers whose names do not
    start with an underscore, [hook.values()] their callers, and these
    are the callers that [check_pending] audits: discovery done, it
    returns exactly when every listed caller without a specification
    has only optional implementations. *)
Theorem check_pending_items fuel env s :
  ∃ its s1,
    hook_items (S fuel) env s = (Return its, s1) ∧
    hook_values (S fuel) env s = (Return its.*2, s1) ∧
    (check_pending (S fuel) env s).2 = s1 ∧
    (∀ n, Dict.get n its = if startswith n "_" then None else Dict.get n (hook_dict s1)) ∧
    ((check_pending (S fuel) env s).1 = Return tt ↔
       ∀ n c i, Dict.get n its = Some c → hc_spec c = None → i ∈ hc_impls c →
                impl_optionalhook i = true).
Proof.
  destruct relay_public_names as (Hitems & Hvalues & Hdict).
  destruct (relay_access_spec fuel env "__dict__" s Hdict) as (s1 & Hacc & _ & Hq & _).
  set (its := filter (fun kv : string * HookCaller => startswith kv.1 "_" = false)
                (hook_dict s1)).
  assert (Hget : ∀ n, Dict.get n its =
                      if startswith n "_" then None else Dict.get n (hook_dict s1)).
  { intros n. apply (get_filter_key (fun k => startswith k "_")). }
  exists its, s1.
  unfold hook_items, hook_values, relay_items, relay_values, check_pending.
  unfold check_pending_body, bind.
  rewrite (relay_access_public _ "items" "__dict__" s Hitems Hdict).
  rewrite (relay_access_public _ "values" "__dict__" s Hvalues Hdict).
  rewrite Hacc.
  rewrite (relay_access_quiet _ _ _ Hq). unfold gets, ret.
  split; [done|]. split; [done|].
  destruct (check_pending_body_quiet (relay_discover (S fuel) env) s1 Hq)
    as (o & Ho & _ & Hiff).
  unfold check_pending_body, bind in Ho. rewrite (relay_access_quiet _ _ _ Hq) in Ho.
  unfold gets in Ho. rewrite Ho. simpl.
  split; [done|]. split; [done|]. rewrite Hiff. split.
  - intros Hno n c i Hc Hsp Hi. rewrite Hget in Hc.
    destruct (startswith n "_") eqn:Hn; [done|].
    destruct (impl_optionalhook i) eqn:Hopt; [done|].
    exfalso. apply (Hno n i). unfold pending, spec_of, impls_of. rewrite Hc. done.
  - intros Hall n i (Hn & Hsp & Hi & Hopt).
    unfold spec_of, impls_of in *.
    destruct (Dict.get n (hook_dict s1)) as [c|] eqn:Hc; [|by apply elem_of_nil in Hi].
    simpl in Hsp. rewrite (Hall n c i) in Hopt; [done| |done|done].
    by rewrite Hget, Hn.
Qed.

(** X17.  The outcome of [_load_and_register], case by case.  A target
    that cannot be imported, or whose value is not hashable (a
    mapping), gives a [PluginImportError].  A value that is registered
    already gives [None].  Any other value that is not a class or a
    module (a string, a plain instance) gives a
    [PluginRegistrationError].  These leave the manager as it was.  A
    class or module is handed to [register]: its result is returned,
    its plugin errors are passed on, and any other error of it (the
    [ValueError] of a name that is taken, the [AttributeError] of a hook
    named like an attribute of the relay) is turned into a
    [PluginRegistrationError], in the state [register] left.  So every
    error of [_load_and_register] is a plugin error, and it carries the
    plugin name unless it is a validation failure. *)
Theorem load_and_register_errors fuel env t pn s :
  let r := _load_and_register (relay_discover (S fuel) env) t pn s in
  match tgt_load t with
  | None | Some (PDict _ _) => r = (Raise (PluginImportError pn), s)
  | Some (PStr n) =>
      r = if is_registered_name n s then (Return None, s)
          else (Raise (PluginRegistrationError pn), s)
  | Some (PObj o) =>
      if is_registered_obj (obj_id o) s then r = (Return None, s)
      else
        match obj_kind o with
        | KInstance => r = (Raise (PluginRegistrationError pn), s)
        | KClass | KModule =>
            match register (S fuel) env (PObj o) pn s with
            | (Return x, s') => r = (Return x, s')
            | (Raise e, s') =>
                r = (Raise (if is_PluginError e then e
                            else PluginRegistrationError pn), s') ∧
                (is_PluginError e = true → is_validation_failure e = true)
            | (OutOfFuel, _) => False
            end
        end
  end ∧
  match r.1 with
  | Return _ => True
  | Raise e =>
      e = PluginImportError pn ∨ e = PluginRegistrationError pn ∨
      is_validation_failure e = true
  | OutOfFuel => False
  end.
Proof.
  intros r.
  assert (Hreg : ∀ o, match register (S fuel) env (PObj o) pn s with
                      | (Raise e, s') =>
                          is_PluginError e = true → is_validation_failure e = true
                      | (OutOfFuel, _) => False
                      | _ => True
                      end).
  { intros o. destruct (register (S fuel) env (PObj o) pn s) as [out s'] eqn:Hrun.
    unfold register, register_body in Hrun.
    apply register_obj_gen in Hrun as [_ Hout]. destruct out as [x|e|]; [done| |done].
    destruct Hout as [_ [(why & -> & _)|([Hrej|Hst] & _)]]; [done| |].
    - by destruct Hrej as (? & ? & ? & ? & ? & _ & -> & _).
    - by destruct Hst as (? & ? & ? & _ & -> & _). }
  subst r. unfold _load_and_register.
  destruct (tgt_load t) as [[n|cls items|o]|]; [| | |by split; [|left]].
  - unfold bind, try_except, is_registered, gets.
    destruct (is_registered_name n s) eqn:Hn; [done|]. split; [done|]. right. by left.
  - split; [done|]. by left.
  - unfold bind, try_except, is_registered, gets.
    destruct (is_registered_obj (obj_id o) s) eqn:Ho; [done|].
    unfold is_class_or_module.
    destruct (obj_kind o) eqn:Hk; [| |split; [done|right; by left]].
    all: specialize (Hreg o); unfold register in *;
      destruct (register_body (relay_discover (S fuel) env) (PObj o) pn s)
        as [[x|e|] s'] eqn:Hrun; [done| |done];
      destruct (is_PluginError e) eqn:He; simpl;
      (split; [done|]); [right; right; by apply Hreg|right; by left].
Qed.

(** An entry point whose target fails to import, and one that loads a
    plain instance. *)
Lemma load_and_register_errors_witness :
  _load_and_register (relay_discover 1 empty_env) (ep_target broken_entry_point)
    (Some "broken") (init "grp" "")
  = (Raise (PluginImportError (Some "broken")), init "grp" "") ∧
  _load_and_register (relay_discover 1 empty_env)
    (mkTarget "inst_mod" (Some (PObj (plugin 43 [])))) (Some "inst") (init "grp" "")
  = (Raise (PluginRegistrationError (Some "inst")), init "grp" "").
Proof.
  split.
  - exact (proj1 (load_and_register_errors 0 empty_env (ep_target broken_entry_point)
                    (Some "broken") (init "grp" ""))).
  - exact (proj1 (load_and_register_errors 0 empty_env
                    (mkTarget "inst_mod" (Some (PObj (plugin 43 []))))
                    (Some "inst") (init "grp" ""))).
Defined.

(** X18.  Only [unregister] and [set_blocked] take anything away:
    across [register], [add_hookspecs], [check_pending], [discover] and
    a read of the relay, with or without a discovery in between, every
    registered name and object stays registered and every blocked name
    stays blocked. *)
Theorem tables_only_grow fuel env s :
  (∀ v name, tables_grow s (register (S fuel) env v name s).2) ∧
  (∀ ns, tables_grow s (add_hookspecs (S fuel) env ns s).2) ∧
  tables_grow s (check_pending (S fuel) env s).2 ∧
  (∀ ep pf ie, tables_grow s (discover (S fuel) env ep pf ie s).2) ∧
  (∀ name, tables_grow s (hook_getattr (S fuel) env name s).2).
Proof.
  refine (conj _ (conj _ (conj _ (conj _ _)))).
  - intros v name. apply register_tables.
  - intros ns. apply add_hookspecs_tables.
  - apply check_pending_tables.
  - intros ep pf ie.
    destruct (discover (S fuel) env ep pf ie s) as [o s'] eqn:E.
    by apply discover_pass in E as (_ & _ & H & _).
  - intros name. unfold hook_getattr, relay_getattr, bind.
    destruct (relay_access_pass fuel env name s) as (s1 & -> & _ & Hg & _). done.
Qed.

(** X19.  [discover] registers and blocks nothing but what is
    installed, whether it returns or raises.  Every plugin it appends
    to [plugins] is the class or module that an entry point of the group
    or a module with the prefix loads, filed under the name that
    [register] makes of the entry point's name, or of the distribution's
    or module's name; every name it blocks is such a name. *)
Theorem discover_registers_offered fuel env ep pf ie s out s' :
  discover (S fuel) env ep pf ie s = (out, s') →
  let group := str_or ep (discover_entry_point s) in
  let prefix := str_or pf (discover_prefix s) in
  ∃ added,
    plugins s' = plugins s ++ added ∧
    Forall (offered env group prefix) added ∧
    ∀ n, n ∈ _blocked s' → n ∈ _blocked s ∨ offered_name env group prefix n.
Proof.
  rewrite discover_unfold. intros Hrun group prefix.
  apply discover_loads_sourced in Hrun as (added & Hp & Hf & Hb); [|done].
  exists added. split; [done|]. split.
  - eapply Forall_impl; [exact Hf|]. intros po. apply from_candidate_offered.
  - intros n Hn. apply Hb in Hn. apply elem_of_union in Hn as [Hn|Hn]; [by left|].
    right. apply candidate_offered_name. by apply elem_of_list_to_set in Hn.
Qed.

(** The first discovery of the one installed entry point. *)
Lemma discover_registers_offered_witness :
  ∃ added, plugins discovered = [] ++ added ∧
           Forall (offered one_entry_point "grp" "") added.
Proof.
  destruct (discover_registers_offered 0 one_entry_point None None true (init "grp" "")
              (Return (1, [])) discovered eq_refl) as (added & H1 & H2 & _).
  exists added. split; [exact H1|exact H2].
Defined.

(** X20.  [set_blocked(n)] on a plugin table whose names and identities
    are unique keys.  The name is blocked and no longer registered.  If
    it stood for the plugin [p], the state is the one [unregister]
    leaves for [p], with [n] blocked: [n] and [p] are out of the two
    tables, whose other entries are as before, the hook callers
    recorded for [p] have lost the implementations of [p], and the
    specifications are as before; otherwise only the blocklist has
    changed.  [register] under [n] then returns [None] and changes
    nothing, until [set_blocked(n, False)], after which it no longer
    returns [None]; and blocking [n] once more changes nothing. *)
Theorem set_blocked_unregisters fuel env n s :
  plugins_wf s →
  let s' := set_blocked n true s in
  is_blocked n s' = true ∧
  is_registered_name n s' = false ∧
  s' = match Dict.get n (plugins s) with
       | Some p => removed n p (with_blocked (fun b => {[n]} ∪ b) s)
       | None => with_blocked (fun b => {[n]} ∪ b) s
       end ∧
  (∀ p, Dict.get n (plugins s) = Some p →
     is_registered_obj (obj_id p) s' = false ∧
     plugins s' = Dict.del n (plugins s) ∧
     _plugin2hookcallers s' = delete (obj_id p) (_plugin2hookcallers s) ∧
     (∀ n', n' ≠ n → Dict.get n' (plugins s') = Dict.get n' (plugins s)) ∧
     (∀ h, spec_of s' h = spec_of s h) ∧
     (∀ h, impls_of s' h =
           without_plugin (obj_id p) (default [] (get_hookcallers (obj_id p) s)) s h)) ∧
  (∀ v name, well_formed_namespace (interpreter env) v = true → target_name v name = n →
     register fuel env v name s' = (Return None, s')) ∧
  is_blocked n (set_blocked n false s') = false ∧
  (∀ v name, target_name v name = n →
     (register fuel env v name (set_blocked n false s')).1 ≠ Return None) ∧
  set_blocked n true s' = s'.
Proof.
  intros Hwf s'.
  assert (Hstate : s' = match Dict.get n (plugins s) with
                        | Some p => removed n p (with_blocked (fun b => {[n]} ∪ b) s)
                        | None => with_blocked (fun b => {[n]} ∪ b) s
                        end).
  { subst s'. destruct (Dict.get n (plugins s)) as [p|] eqn:Hget.
    - by rewrite (set_blocked_registered n p s Hwf Hget).
    - apply set_blocked_unregistered.
      unfold is_registered_name, Dict.mem. rewrite Hget.
      apply bool_decide_eq_false. by intros [? ?]. }
  assert (Hb : is_blocked n s' = true) by apply is_blocked_set_blocked.
  assert (Hn : is_registered_name n s' = false).
  { rewrite Hstate. destruct (Dict.get n (plugins s)) as [p|] eqn:Hget.
    - destruct (removed_fields n p (with_blocked (fun b => {[n]} ∪ b) s)) as (Hp & _).
      unfold is_registered_name, Dict.mem. rewrite Hp. simpl.
      rewrite get_del_eq by apply Hwf. apply bool_decide_eq_false. by intros [? ?].
    - unfold is_registered_name, Dict.mem; simpl. rewrite Hget.
      apply bool_decide_eq_false. by intros [? ?]. }
  split; [done|]. split; [done|]. split; [done|]. split.
  { intros p Hget. rewrite Hstate, Hget.
    destruct (removed_fields n p (with_blocked (fun b => {[n]} ∪ b) s)) as (Hp & Hh & _).
    simpl in Hp, Hh. split.
    { unfold is_registered_obj. rewrite Hh, lookup_delete_eq.
      apply bool_decide_eq_false. by intros [? ?]. }
    split; [done|]. split; [done|]. split.
    { intros n' Hne. rewrite Hp. by apply get_del_ne. }
    split.
    - intros h. unfold removed. by rewrite foldl_remove_spec.
    - intros h. unfold removed. by rewrite foldl_remove_impls_eq. }
  assert (is_blocked n (set_blocked n false s') = false) as Hub.
  { unfold set_blocked. rewrite Hb. unfold is_blocked; simpl.
    apply bool_decide_eq_false. set_solver. }
  split; [|split; [done|split]].
  - intros v name Hv <-. by apply register_blocked.
  - intros v name <-. by apply register_unblocked.
  - rewrite set_blocked_unregistered by done. apply with_blocked_id.
    unfold is_blocked in Hb. by apply bool_decide_eq_true in Hb.
Qed.

(** Blocking the registered name "abc". *)
Lemma set_blocked_unregisters_witness :
  plugins_wf blocked_example ∧
  is_registered_name "abc" blocked_example = true ∧
  is_registered_name "abc" (set_blocked "abc" true blocked_example) = false ∧
  set_blocked "abc" true (set_blocked "abc" true blocked_example)
    = set_blocked "abc" true blocked_example.
Proof.
  assert (plugins_wf blocked_example) as Hwf.
  { split; vm_compute; apply NoDup_singleton. }
  split; [exact Hwf|]. split; [reflexivity|].
  pose proof (set_blocked_unregisters 1 empty_env "abc" blocked_example Hwf) as H.
  split; [apply H | apply H].
Defined.

(** X21.  What the relay answers that is no hook caller: its two
    private attributes, always, and the attributes of its class, when
    its [__dict__] has nothing under the name.  With no discovery
    pending, [register] raises an [AttributeError] and changes nothing
    when the first implementation of the namespace is for a hook of
    such a name, and so does [add_hookspecs] when the first
    specification it finds is. *)
Theorem relay_attribute_refused fuel env :
  let d := relay_discover fuel env in
  (∀ n s, relay_lookup d n s = Some NotACaller ↔
          n ∈ relay_private ∨
          (Dict.get n (hook_dict s) = None ∧ n ∈ relay_attributes (interpreter env))) ∧
  (∀ o name s i1 rest,
     let pn := plugin_name_of o name in
     is_blocked pn s = false → is_registered_name pn s = false →
     is_registered_obj (obj_id o) s = false →
     iter_implementations o = i1 :: rest →
     hook_needs_discovery s = false →
     relay_lookup d (impl_specname i1) s = Some NotACaller →
     register fuel env (PObj o) name s = (Raise AttributeError, s)) ∧
  (∀ ns s pre n m opts post,
     obj_dir ns = pre ++ (n, ARoutine m) :: post → Forall unmarked pre →
     fn_spec m = Some opts →
     hook_needs_discovery s = false →
     relay_lookup d n s = Some NotACaller →
     add_hookspecs fuel env ns s = (Raise AttributeError, s)).
Proof.
  intros d. split; [|split].
  - intros n s. unfold relay_lookup. case_bool_decide as Hp.
    { split; [by left|done]. }
    destruct (Dict.get n (hook_dict s)) as [c|].
    { split; [done|]. by intros [?|[? _]]. }
    subst d. simpl. case_bool_decide as Ha.
    + split; [by right|done].
    + split; [done|]. by intros [?|[_ ?]].
  - intros o name s i1 rest pn Hb Hn Ho Himp Hq Hl.
    unfold register, register_body, register_obj. fold pn. rewrite Hb, Hn, Ho, Himp.
    cbn [register_loop]. unfold bind.
    destruct (register_impl_quiet (relay_discover fuel env) pn i1 s Hq)
      as [(Hl' & _)|[(Hl' & _)|[_ ->]]]; [by destruct Hl'|by destruct Hl'|done].
  - intros ns s pre n m opts post Hdir Hpre Hm Hq Hl.
    unfold add_hookspecs, add_hookspecs_body. rewrite Hdir. unfold bind at 1.
    rewrite add_hookspecs_loop_skip by done. simpl. rewrite Hm.
    unfold bind at 1. unfold add_hookspec. unfold bind at 1.
    rewrite relay_getattr_quiet by done. fold d. by rewrite Hl.
Qed.

(** A plugin that implements a hook named [items], and a namespace that
    declares one, on a manager that has done its discovery. *)
Lemma relay_attribute_refused_witness :
  register 1 empty_env (PObj items_plugin) None searched = (Raise AttributeError, searched) ∧
  add_hookspecs 1 empty_env ItemsNs searched = (Raise AttributeError, searched).
Proof.
  pose proof (relay_attribute_refused 1 empty_env) as (_ & H1 & H2). split.
  - apply (H1 items_plugin None searched
             (new_hookimpl (impl_routine "items" [] false false) items_plugin
                (mkImplOpts false false Neutral None)) []); reflexivity.
  - apply (H2 ItemsNs searched [] "items" (spec_routine "items" [] false)
             (mkSpecOpts false false None) []); try reflexivity. constructor.
Defined.

(** X22.  [check_pending] first reads the relay, which runs a pending
    discovery.  On the state it then looks at, it raises a validation
    failure, naming an implementation that is not optional and its
    hook, if and only if some hook without a specification whose name
    does not start with an underscore has such an implementation, and
    it returns otherwise. *)
Theorem check_pending_audits fuel env s :
  let r := check_pending (S fuel) env s in
  (hook_needs_discovery s = false → r.2 = s) ∧
  (r.1 = Return tt ∨
   ∃ i n, r.1 = Raise (PluginValidationError i n UnknownHook) ∧ pending r.2 n i) ∧
  (r.1 = Return tt ↔ ∀ n i, ¬ pending r.2 n i).
Proof.
  intros r. subst r. unfold check_pending, check_pending_body, bind.
  destruct relay_public_names as (_ & _ & Hdict).
  destruct (relay_access_spec fuel env "__dict__" s Hdict) as (s1 & -> & _ & Hq1 & Hsame & _).
  unfold gets.
  assert (∀ n, n ∈ (hook_dict s1).*1 → is_Some (Dict.get n (hook_dict s1))) as Hkeys
    by (intros; by apply elem_keys_get).
  assert (∀ n i, pending s1 n i → n ∈ (hook_dict s1).*1) as Hin.
  { intros n i (_ & _ & Hi & _). unfold impls_of in Hi.
    destruct (Dict.get n (hook_dict s1)) as [c|] eqn:Hc; [|by apply elem_of_nil in Hi].
    apply get_Some_elem in Hc. apply list_elem_of_fmap. by exists (n, c). }
  destruct (check_pending_loop_quiet (relay_discover (S fuel) env) s1 _ Hq1 Hkeys)
    as (o & -> & [[-> Hall]|(n & i & Hn & Hp & ->)]); simpl.
  - split; [done|]. split; [by left|]. split; [|done].
    intros _ n i Hp. eapply Hall; [|done]. by eapply Hin.
  - split; [done|]. split; [right; eauto|]. split; [done|].
    intros Hall. by destruct (Hall n i).
Qed.

(** [he_method1] is implemented and has no specification. *)
Lemma check_pending_audits_witness :
  (check_pending 1 empty_env unbound_mismatch).1 ≠ Return tt.
Proof.
  pose proof (check_pending_audits 0 empty_env unbound_mismatch) as (_ & _ & Hiff).
  intros Hr. pose proof (proj1 Hiff Hr) as Hall.
  apply (Hall "he_method1"
           (with_plugin_name "3"
              (new_hookimpl (impl_routine "he_method1" ["qlwkje"] false false)
                 mismatch_plugin (mkImplOpts false false Neutral None)))).
  split; [reflexivity|]. split; [reflexivity|]. split; [|reflexivity]. vm_compute. left.
Defined.
